(** * Antigravity Claude proxy: protocol translation and delivery engine

    A shallow embedding of [src/format-converter.js], [src/cloudcode-client.js]
    and [src/constants.js], and the properties of the schema sanitizer, the
    content and response converters, the stream synthesizer, the endpoint
    dispatcher and the project resolver.

    Conventions of the embedding.
    - A JavaScript string is a [string]; its characters stand for the code
      units that [length] and [slice] count.  The code tells apart only the
      ASCII letters, the digits, [_] and [-] from the other code units.
    - A JSON value is a [JSON] tree.  An object is the list of its own
      enumerable properties in the order [Object.entries] lists them.  The
      order in which an object built by assignments lists its properties is
      not relied on.
    - Requests, responses and their parts are records and tagged unions with
      the fields the code reads; a field that the code tests for presence is
      an [option], and [undefined] and an absent property are [None].
    - The calls that leave the process (network, credential store, random
      numbers) are answered by an [Env] and recorded in a trace.
    - [console.log] has no effect on any value and is left out. *)

From Stdlib Require Import List String Ascii Bool Arith ZArith QArith Lia.
From Stdlib Require Import Numbers.DecimalString.
From Equations Require Import Equations.
Import ListNotations.

Close Scope Q_scope.
Open Scope string_scope.
Open Scope list_scope.

(* ================================================================= *)
(** * JavaScript values *)

Module JS.

(** `${n}` for a non-negative integer [n]. *)
Definition show_nat (n : nat) : string :=
  NilEmpty.string_of_uint (Nat.to_uint n).

(** `${z}` for an integer [z]. *)
Definition show_Z (z : Z) : string :=
  NilEmpty.string_of_int (Z.to_int z).

(** [s.slice(0, n)]. *)
Fixpoint take (n : nat) (s : string) : string :=
  match n, s with
  | S n', String c s' => String c (take n' s')
  | _, _ => EmptyString
  end.

(** [s.slice(n)]. *)
Fixpoint drop (n : nat) (s : string) : string :=
  match n, s with
  | S n', String _ s' => drop n' s'
  | _, _ => s
  end.

(** [s.slice(i, j)] for [0 <= i], [0 <= j]. *)
Definition slice (i j : nat) (s : string) : string :=
  take (j - i) (drop i s).

(** [s.includes(t)]. *)
Fixpoint includes (t s : string) : bool :=
  prefix t s ||
  match s with
  | EmptyString => false
  | String _ s' => includes t s'
  end.

(** [xs.join(sep)]. *)
Definition join (sep : string) (xs : list string) : string :=
  String.concat sep xs.

(** A JSON value.  Numbers are carried and tested for zero, never computed
    with. *)
#[local] Unset Elimination Schemes.
Inductive JSON : Type :=
| JNull
| JBool (b : bool)
| JNum (q : Q)
| JStr (s : string)
| JArr (items : list JSON)
| JObj (fields : list (string * JSON)).
#[local] Set Elimination Schemes.

(** The value is not one of [null], [false], [0], [''] ([undefined] is the
    [None] of an [option JSON]). *)
Definition truthy (v : JSON) : bool :=
  match v with
  | JNull => false
  | JBool b => b
  | JNum q => negb (Qnum q =? 0)%Z
  | JStr s => negb (s =? "")
  | JArr _ | JObj _ => true
  end.

(** [typeof v === 'object'], which holds of [null] too. *)
Definition typeof_object (v : JSON) : bool :=
  match v with
  | JNull | JArr _ | JObj _ => true
  | _ => false
  end.

Definition isArray (v : JSON) : bool :=
  match v with JArr _ => true | _ => false end.

Definition isNull (v : JSON) : bool :=
  match v with JNull => true | _ => false end.

(** [o[k]] on the own properties of an object. *)
Fixpoint lookup (k : string) (fields : list (string * JSON)) : option JSON :=
  match fields with
  | [] => None
  | (k', v) :: rest => if k' =? k then Some v else lookup k rest
  end.

(** [v.k]: a property of an object; arrays and scalars have none of the
    names read here. *)
Definition prop (v : JSON) (k : string) : option JSON :=
  match v with
  | JObj fields => lookup k fields
  | _ => None
  end.

(** [a || b] where the operand is a possibly absent value. *)
Definition truthy_opt (v : option JSON) : bool :=
  match v with Some j => truthy j | None => false end.

Fixpoint replace_field (k : string) (v : JSON) (fields : list (string * JSON))
  : list (string * JSON) :=
  match fields with
  | [] => [(k, v)]
  | (k', v') :: rest =>
      if k' =? k then (k, v) :: rest else (k', v') :: replace_field k v rest
  end.

(** [o[k] = v] on a plain object: the property is replaced or added.  The
    name [__proto__] is the prototype accessor of a plain object, so that
    assigning to it creates no own property. *)
Definition assign (fields : list (string * JSON)) (k : string) (v : JSON)
  : list (string * JSON) :=
  if k =? "__proto__" then fields else replace_field k v fields.

(** [a || b] on possibly absent strings: the empty string is falsy. *)
Definition or_str (a : option string) (b : option string) : option string :=
  match a with
  | Some s => if s =? "" then b else a
  | None => b
  end.

(** [a || b] on possibly absent values. *)
Definition or_json (a : option JSON) (b : option JSON) : option JSON :=
  if truthy_opt a then a else b.

(** [a || d] where [d] is a string that is always there. *)
Definition or_str_default (a : option string) (d : string) : string :=
  match a with
  | Some s => if s =? "" then d else s
  | None => d
  end.

(** [a || d] where [d] is a value that is always there. *)
Definition or_json_default (a : option JSON) (d : JSON) : JSON :=
  match a with
  | Some v => if truthy v then v else d
  | None => d
  end.

(** A possibly absent string is truthy: present and not empty. *)
Definition truthy_str (a : option string) : bool :=
  match a with Some s => negb (s =? "") | None => false end.

(** [o?.f] *)
Definition opt_field {A B : Type} (o : option A) (f : A -> option B)
  : option B :=
  match o with Some x => f x | None => None end.

(** The character with code [n]. *)
Definition chr (n : nat) : string := String (ascii_of_nat n) EmptyString.

(** [c] lies between [lo] and [hi] (character codes). *)
Definition between (lo hi : ascii) (c : ascii) : bool :=
  ((nat_of_ascii lo <=? nat_of_ascii c)%nat
   && (nat_of_ascii c <=? nat_of_ascii hi)%nat)%bool.

Fixpoint map_chars (f : ascii -> ascii) (s : string) : string :=
  match s with
  | EmptyString => EmptyString
  | String c s' => String (f c) (map_chars f s')
  end.

(** [s.toLowerCase()]: the letters [A]-[Z] move to [a]-[z].  No other
    character is mapped to one of the letters that the callers look for. *)
Definition toLowerCase (s : string) : string :=
  map_chars (fun c => if between "A" "Z" c
                      then ascii_of_nat (nat_of_ascii c + 32) else c) s.

End JS.
Import JS.

(* ================================================================= *)
(** * Schema sanitizer ([sanitizeSchema], format-converter.js) *)

Definition UNSUPPORTED_FIELDS : list string :=
  [ "$schema"; "additionalProperties"; "default"; "anyOf"; "allOf"; "oneOf";
    "minLength"; "maxLength"; "pattern"; "format"; "minimum"; "maximum";
    "exclusiveMinimum"; "exclusiveMaximum"; "minItems"; "maxItems";
    "uniqueItems"; "minProperties"; "maxProperties"; "$id"; "$ref"; "$defs";
    "definitions"; "patternProperties"; "unevaluatedProperties";
    "unevaluatedItems"; "if"; "then"; "else"; "not"; "contentEncoding";
    "contentMediaType" ].

(** [UNSUPPORTED_FIELDS.has(key)]. *)
Definition unsupported (key : string) : bool :=
  existsb (String.eqb key) UNSUPPORTED_FIELDS.

(** [value.anyOf || value.allOf || value.oneOf]. *)
Definition has_composition (value : JSON) : bool :=
  truthy_opt (prop value "anyOf") || truthy_opt (prop value "allOf")
  || truthy_opt (prop value "oneOf").

(** The loops of [sanitizeSchema], over the recursive call [rec]. *)
Section SanitizeLoops.

Variable rec : JSON -> JSON.

(** [for (const [propKey, propValue] of Object.entries(value))
      sanitized.properties[propKey] = sanitizeSchema(propValue)],
    [value] an object. *)
Fixpoint sanitize_properties (es acc : list (string * JSON))
  : list (string * JSON) :=
  match es with
  | [] => acc
  | (propKey, propValue) :: rest =>
      sanitize_properties rest (assign acc propKey (rec propValue))
  end.

(** The same loop when [value] is an array: the keys are its indices. *)
Fixpoint sanitize_properties_array (i : nat) (xs : list JSON)
  (acc : list (string * JSON)) : list (string * JSON) :=
  match xs with
  | [] => acc
  | propValue :: rest =>
      sanitize_properties_array (S i) rest
        (assign acc (show_nat i) (rec propValue))
  end.

(** One turn of the loop over [Object.entries(schema)]. *)
Definition sanitize_field (sanitized : list (string * JSON)) (key : string)
  (value : JSON) : list (string * JSON) :=
  if unsupported key then sanitized
  else if (key =? "properties") && truthy value && typeof_object value then
    match value with
    | JArr xs =>
        assign sanitized "properties"
          (JObj (sanitize_properties_array 0 xs []))
    | JObj es =>
        assign sanitized "properties" (JObj (sanitize_properties es []))
    | _ => assign sanitized "properties" (JObj [])  (* no such value here *)
    end
  else if (key =? "items") && truthy value && typeof_object value then
    match value with
    | JArr xs => assign sanitized "items" (JArr (map rec xs))
    | _ =>
        if has_composition value then assign sanitized "items" (JObj [])
        else assign sanitized "items" (rec value)
    end
  else if typeof_object value && negb (isNull value) && negb (isArray value)
  then assign sanitized key (rec value)
  else assign sanitized key value.

(** [for (const [key, value] of Object.entries(schema))], [schema] an
    object. *)
Fixpoint sanitize_entries (es sanitized : list (string * JSON))
  : list (string * JSON) :=
  match es with
  | [] => sanitized
  | (key, value) :: rest =>
      sanitize_entries rest (sanitize_field sanitized key value)
  end.

(** The same loop when [schema] is an array. *)
Fixpoint sanitize_elements (i : nat) (xs : list JSON)
  (sanitized : list (string * JSON)) : list (string * JSON) :=
  match xs with
  | [] => sanitized
  | value :: rest =>
      sanitize_elements (S i) rest (sanitize_field sanitized (show_nat i) value)
  end.

End SanitizeLoops.

Fixpoint sanitizeSchema (schema : JSON) : JSON :=
  match schema with
  | JObj es => JObj (sanitize_entries sanitizeSchema es [])
  | JArr xs => JObj (sanitize_elements sanitizeSchema 0 xs [])
  | _ => schema     (* !schema || typeof schema !== 'object' *)
  end.

(* ================================================================= *)
(** * Constants (constants.js) *)

Definition ANTIGRAVITY_ENDPOINT_DAILY : string :=
  "https://daily-cloudcode-pa.sandbox.googleapis.com".
Definition ANTIGRAVITY_ENDPOINT_AUTOPUSH : string :=
  "https://autopush-cloudcode-pa.sandbox.googleapis.com".
Definition ANTIGRAVITY_ENDPOINT_PROD : string :=
  "https://cloudcode-pa.googleapis.com".

Definition ANTIGRAVITY_ENDPOINT_FALLBACKS : list string :=
  [ ANTIGRAVITY_ENDPOINT_DAILY; ANTIGRAVITY_ENDPOINT_AUTOPUSH;
    ANTIGRAVITY_ENDPOINT_PROD ].

Definition MODEL_MAPPINGS : list (string * string) :=
  [ ("claude-3-opus-20240229", "claude-opus-4-5-thinking");
    ("claude-3-5-opus-20240229", "claude-opus-4-5-thinking");
    ("claude-3-5-sonnet-20241022", "claude-sonnet-4-5");
    ("claude-3-5-sonnet-20240620", "claude-sonnet-4-5");
    ("claude-3-sonnet-20240229", "claude-sonnet-4-5");
    ("claude-sonnet-4-5", "claude-sonnet-4-5");
    ("claude-sonnet-4-5-thinking", "claude-sonnet-4-5-thinking");
    ("claude-opus-4-5-thinking", "claude-opus-4-5-thinking") ].

Definition DEFAULT_PROJECT_ID : string := "rising-fact-p41fc".

Definition STREAMING_CHUNK_SIZE : nat := 20.

(* ================================================================= *)
(** * The two protocols *)

(** ** Frontend request *)

Record Source : Type := {
  source_type : option string;       (* source.type *)
  media_type : option string;
  data : option string;
  url : option string
}.

(** An element of a block sequence that is only read for its [type] and
    [text]. *)
Record TextItem : Type := {
  item_type : string;
  item_text : option string
}.

Inductive ToolResultContent : Type :=
| ResultString (s : string)
| ResultBlocks (cs : list TextItem)
| ResultOther (v : option JSON).       (* neither a string nor an array *)

Inductive ContentBlock : Type :=
| BText (text : string)
| BImage (source : option Source)
| BDocument (source : option Source)
| BToolUse (id : option string) (name : option string) (input : option JSON)
| BToolResult (tool_use_id : option string) (content : ToolResultContent)
| BThinking (thinking : string)
| BRedactedThinking
| BOther (type : string).              (* any other [type] *)

Inductive MessageContent : Type :=
| ContentString (s : string)
| ContentBlocks (blocks : list ContentBlock)
| ContentOther (rendered : string).    (* another value, with its String(...) *)

Record Message : Type := {
  role : string;
  content : MessageContent
}.

Inductive SystemPrompt : Type :=
| SystemString (s : string)
| SystemBlocks (blocks : list TextItem)
| SystemOther.                         (* truthy, neither string nor array *)

Record ToolFunction : Type := {
  fn_name : option string;
  fn_description : option string;
  fn_input_schema : option JSON;
  fn_parameters : option JSON
}.

Record ToolCustom : Type := {
  custom_name : option string;
  custom_description : option string;
  custom_input_schema : option JSON
}.

Record ToolSpec : Type := {
  tool_name : option string;
  tool_description : option string;
  tool_input_schema : option JSON;
  tool_function : option ToolFunction;       (* tool.function *)
  tool_custom : option ToolCustom;           (* tool.custom *)
  tool_parameters : option JSON
}.

(** [tool_choice] and [thinking] are destructured by the converter and never
    read; they are not part of the record. *)
Record AnthropicRequest : Type := {
  model : option string;
  messages : list Message;
  system : option SystemPrompt;
  max_tokens : option Q;
  temperature : option Q;
  top_p : option Q;
  top_k : option Q;
  stop_sequences : option (list string);
  tools : option (list ToolSpec)
}.

(** ** Backend request and response parts *)

Record InlineData : Type := {
  inline_mimeType : option string;
  inline_data : option string
}.

Record FileData : Type := {
  file_mimeType : option string;
  fileUri : option string
}.

Record FunctionCall : Type := {
  call_name : option string;
  call_args : option JSON;
  call_id : option string
}.

Record FunctionResponse : Type := {
  response_name : string;
  response : option JSON;
  response_id : option string
}.

Record Part : Type := {
  text : option string;
  thought : bool;                            (* part.thought === true *)
  inlineData : option InlineData;
  fileData : option FileData;
  functionCall : option FunctionCall;
  functionResponse : option FunctionResponse
}.

Definition text_part (s : string) : Part :=
  {| text := Some s; thought := false; inlineData := None; fileData := None;
     functionCall := None; functionResponse := None |}.

Definition thought_part (s : string) : Part :=
  {| text := Some s; thought := true; inlineData := None; fileData := None;
     functionCall := None; functionResponse := None |}.

Definition inline_part (d : InlineData) : Part :=
  {| text := None; thought := false; inlineData := Some d; fileData := None;
     functionCall := None; functionResponse := None |}.

Definition file_part (d : FileData) : Part :=
  {| text := None; thought := false; inlineData := None; fileData := Some d;
     functionCall := None; functionResponse := None |}.

Definition call_part (c : FunctionCall) : Part :=
  {| text := None; thought := false; inlineData := None; fileData := None;
     functionCall := Some c; functionResponse := None |}.

Definition response_part (r : FunctionResponse) : Part :=
  {| text := None; thought := false; inlineData := None; fileData := None;
     functionCall := None; functionResponse := Some r |}.

Record Content : Type := {
  content_role : string;
  parts : list Part
}.

Record GenerationConfig : Type := {
  maxOutputTokens : option Q;
  config_temperature : option Q;
  topP : option Q;
  topK : option Q;
  stopSequences : option (list string)
}.

Record FunctionDeclaration : Type := {
  decl_name : string;
  decl_description : string;
  decl_parameters : JSON
}.

Record GoogleRequest : Type := {
  contents : list Content;
  generationConfig : GenerationConfig;
  systemInstruction : option (list Part);
  request_tools : option (list FunctionDeclaration);   (* [{ functionDeclarations }] *)
  sessionId : option string
}.

(* ================================================================= *)
(** * Request conversion (format-converter.js) *)

Fixpoint lookup_model (k : string) (table : list (string * string))
  : option string :=
  match table with
  | [] => None
  | (k', v) :: rest => if k' =? k then Some v else lookup_model k rest
  end.

(** [mapModelName] over the table it reads: [table[anthropicModel] ||
    anthropicModel].  An absent model indexes the table with [undefined].
    The table is read for the keys it holds itself: a model named like a
    property that every object inherits, such as [constructor], is answered
    by the prototype of the table with a value that is no string, and is
    left out of this reading. *)
Definition mapModelName_with (table : list (string * string))
  (anthropicModel : option string) : option string :=
  let key := match anthropicModel with Some m => m | None => "undefined" end in
  or_str (lookup_model key table) anthropicModel.

Definition mapModelName : option string -> option string :=
  mapModelName_with MODEL_MAPPINGS.

(** [block.source?.type === t] *)
Definition source_is (source : option Source) (t : string) : bool :=
  match opt_field source source_type with
  | Some t' => t' =? t
  | None => false
  end.

(** The parts pushed for an [image] or [document] block; [fallback] is the
    media type of a url source that names none. *)
Definition media_parts (source : option Source) (fallback : string)
  : list Part :=
  if source_is source "base64" then
    [ inline_part {| inline_mimeType := opt_field source media_type;
                     inline_data := opt_field source data |} ]
  else if source_is source "url" then
    [ file_part {| file_mimeType :=
                     Some (or_str_default (opt_field source media_type) fallback);
                   fileUri := opt_field source url |} ]
  else [].

(** [responseContent] of a [tool_result] block. *)
Definition tool_result_response (content : ToolResultContent) : option JSON :=
  match content with
  | ResultString s => Some (JObj [("result", JStr s)])
  | ResultBlocks cs =>
      let texts :=
        join (chr 10)
          (map (fun c => match item_text c with Some t => t | None => "" end)
               (filter (fun c => item_type c =? "text") cs)) in
      Some (JObj [("result", JStr texts)])
  | ResultOther v => v
  end.

(** The parts that one turn of the loop of [convertContentToParts] pushes. *)
Definition block_parts (isClaudeModel : bool) (block : ContentBlock)
  : list Part :=
  match block with
  | BText t => [ text_part t ]
  | BImage source => media_parts source "image/jpeg"
  | BDocument source => media_parts source "application/pdf"
  | BToolUse id name input =>
      let functionCall :=
        {| call_name := name;
           call_args := Some (or_json_default input (JObj []));
           call_id := None |} in
      let functionCall :=
        if isClaudeModel && truthy_str id
        then {| call_name := call_name functionCall;
                call_args := call_args functionCall;
                call_id := id |}
        else functionCall in
      [ call_part functionCall ]
  | BToolResult tool_use_id content =>
      let functionResponse :=
        {| response_name := or_str_default tool_use_id "unknown";
           response := tool_result_response content;
           response_id := None |} in
      let functionResponse :=
        if isClaudeModel && truthy_str tool_use_id
        then {| response_name := response_name functionResponse;
                response := response functionResponse;
                response_id := tool_use_id |}
        else functionResponse in
      [ response_part functionResponse ]
  | BThinking thinking =>
      if negb isClaudeModel then [ thought_part thinking ] else []
  | BRedactedThinking => []
  | BOther _ => []
  end.

Definition convertContentToParts (content : MessageContent)
  (isClaudeModel : bool) : list Part :=
  match content with
  | ContentString s => [ text_part s ]
  | ContentOther rendered => [ text_part rendered ]
  | ContentBlocks blocks =>
      let parts := flat_map (block_parts isClaudeModel) blocks in
      match parts with
      | [] => [ text_part "" ]
      | _ => parts
      end
  end.

Definition convertRole (role : string) : string :=
  if role =? "assistant" then "model"
  else if role =? "user" then "user"
  else "user".

(** [[^a-zA-Z0-9_-]] does not match [c]. *)
Definition name_char (c : ascii) : bool :=
  between "a" "z" c || between "A" "Z" c || between "0" "9" c
  || Ascii.eqb c "_" || Ascii.eqb c "-".

(** [String(name).replace(/[^a-zA-Z0-9_-]/g, '_').slice(0, 64)] *)
Definition sanitize_name (name : string) : string :=
  take 64 (map_chars (fun c => if name_char c then c else "_"%char) name).

(** The declaration that [tools.map] builds for [tool] at index [idx]. *)
Definition functionDeclaration (idx : nat) (tool : ToolSpec)
  : FunctionDeclaration :=
  let name :=
    or_str_default
      (or_str (or_str (tool_name tool)
                      (opt_field (tool_function tool) fn_name))
              (opt_field (tool_custom tool) custom_name))
      ("tool-" ++ show_nat idx) in
  let description :=
    or_str_default
      (or_str (or_str (tool_description tool)
                      (opt_field (tool_function tool) fn_description))
              (opt_field (tool_custom tool) custom_description))
      "" in
  let schema :=
    or_json_default
      (or_json (or_json (or_json (or_json (tool_input_schema tool)
                  (opt_field (tool_function tool) fn_input_schema))
                  (opt_field (tool_function tool) fn_parameters))
                  (opt_field (tool_custom tool) custom_input_schema))
                  (tool_parameters tool))
      (JObj [("type", JStr "object")]) in
  {| decl_name := sanitize_name name;
     decl_description := description;
     decl_parameters := sanitizeSchema schema |}.

(** [tools.map((tool, idx) => ...)], from index [idx]. *)
Fixpoint functionDeclarations (idx : nat) (tools : list ToolSpec)
  : list FunctionDeclaration :=
  match tools with
  | [] => []
  | tool :: rest =>
      functionDeclaration idx tool :: functionDeclarations (S idx) rest
  end.

(** [(anthropicRequest.model || '').toLowerCase().includes('claude')] *)
Definition isClaudeModel (anthropicRequest : AnthropicRequest) : bool :=
  includes "claude" (toLowerCase (or_str_default (model anthropicRequest) "")).

(** A number is present and not zero. *)
Definition truthy_num (n : option Q) : bool :=
  match n with Some q => negb (Qnum q =? 0)%Z | None => false end.

(** The request that [convertAnthropicToGoogle] returns; [sessionId] is set
    by the caller. *)
Definition convertAnthropicToGoogle (anthropicRequest : AnthropicRequest)
  : GoogleRequest :=
  let isClaude := isClaudeModel anthropicRequest in
  let systemParts :=
    match system anthropicRequest with
    | Some (SystemString s) => if s =? "" then [] else [ text_part s ]
    | Some (SystemBlocks blocks) =>
        map (fun block => {| text := item_text block; thought := false;
                             inlineData := None; fileData := None;
                             functionCall := None; functionResponse := None |})
            (filter (fun block => item_type block =? "text") blocks)
    | Some SystemOther | None => []
    end in
  {| contents :=
       map (fun msg =>
              {| content_role := convertRole (role msg);
                 parts := convertContentToParts (content msg) isClaude |})
           (messages anthropicRequest);
     generationConfig :=
       {| maxOutputTokens :=
            if truthy_num (max_tokens anthropicRequest)
            then max_tokens anthropicRequest else None;
          config_temperature := temperature anthropicRequest;
          topP := top_p anthropicRequest;
          topK := top_k anthropicRequest;
          stopSequences :=
            match stop_sequences anthropicRequest with
            | Some (x :: xs) => Some (x :: xs)
            | _ => None
            end |};
     systemInstruction :=
       match systemParts with
       | [] => None
       | _ => Some systemParts
       end;
     request_tools :=
       match tools anthropicRequest with
       | Some (t :: ts) => Some (functionDeclarations 0 (t :: ts))
       | _ => None
       end;
     sessionId := None |}.

(** ** Backend response and frontend response *)

Record CandidateContent : Type := {
  candidate_parts : option (list Part)       (* content.parts *)
}.

Record Candidate : Type := {
  candidate_content : option CandidateContent;
  finishReason : option string
}.

Record UsageMetadata : Type := {
  promptTokenCount : option Q;
  candidatesTokenCount : option Q
}.

Record ResponseBody : Type := {
  candidates : option (list Candidate);
  usageMetadata : option UsageMetadata
}.

(** The object that the backend returns: the body itself, or a wrapper that
    holds the body in its [response] field. *)
Record GoogleResponse : Type := {
  wrapped_response : option ResponseBody;    (* googleResponse.response *)
  own_body : ResponseBody
}.

Inductive ResponseBlock : Type :=
| RText (text : string)                      (* { type: 'text', text } *)
| RToolUse (id : string) (name : option string) (input : JSON).

Record Usage : Type := {
  input_tokens : Q;
  output_tokens : Q
}.

Record AnthropicResponse : Type := {
  message_id : string;
  message_type : string;
  message_role : string;
  message_content : list ResponseBlock;
  message_model : option string;
  stop_reason : string;
  stop_sequence : option string;
  usage : Usage
}.

Record Payload : Type := {
  project : string;
  payload_model : option string;
  request : GoogleRequest;
  userAgent : string;
  requestId : string
}.

(* ================================================================= *)
(** * The world outside: network, credentials, random numbers *)

Inductive Error : Type :=
| Err (message : string).

Inductive Result (A : Type) : Type :=
| Ok (a : A)
| Throw (e : Error).
Arguments Ok {A} a.
Arguments Throw {A} e.

(** What [await fetch(...)] gives: a rejection, or a response with its status,
    its body as text and what [response.json()] gives. *)
Inductive FetchResult (A : Type) : Type :=
| FetchError (e : Error)
| Response (status : Z) (body_text : string) (json : Result A).
Arguments FetchError {A} e.
Arguments Response {A} status body_text json.

(** [response.ok] *)
Definition ok (status : Z) : bool :=
  ((200 <=? status) && (status <=? 299))%Z.

Inductive ProjectField : Type :=
| ProjectString (s : string)
| ProjectObject (id : option string)
| ProjectOther.

Record LoadCodeAssistData : Type := {
  cloudaicompanionProject : option ProjectField
}.

(** Every call that leaves the process, in the order made. *)
Inductive Event : Type :=
| CallGetToken
| CallRefreshToken
| CallLoadCodeAssist (endpoint token : string)
| CallGenerateContent (endpoint token : string) (payload : Payload)
| CallRandomBytes (n : nat)
| CallMathRandom
| CallRandomUUID.

(** The answers of the outside world.  Each one may depend on all the calls
    made before it, given latest first.  [env_getToken] and
    [env_refreshToken] stand for [getToken] and [refreshToken] of
    token-extractor.js. *)
Record Env : Type := {
  env_getToken : list Event -> Result string;
  env_refreshToken : list Event -> Result unit;
  env_loadCodeAssist :
    list Event -> string -> string -> FetchResult LoadCodeAssistData;
  env_generateContent :
    list Event -> string -> string -> Payload -> FetchResult GoogleResponse;
  (* response.json() on the response of the latest generation call once
     response.text() has read its body: the error it rejects with, a
     TypeError for a body that is read, a SyntaxError for a response
     without body *)
  env_jsonAfterText : list Event -> Error;
  (* crypto.randomBytes(n).toString('hex') *)
  env_randomBytes : list Event -> nat -> string;
  (* Math.floor(Math.random() * 9000000000000000000).toString(): the digits
     as the number prints them *)
  env_mathRandom : list Event -> string;
  env_randomUUID : list Event -> string
}.

(** The module state of cloudcode-client.js and the calls made so far, latest
    first. *)
Record State : Type := {
  cachedProject : option string;
  trace : list Event
}.

Definition M (A : Type) : Type := State -> Result A * State.

Definition ret {A : Type} (a : A) : M A := fun st => (Ok a, st).

Definition throw {A : Type} (e : Error) : M A := fun st => (Throw e, st).

Definition bind {A B : Type} (m : M A) (k : A -> M B) : M B :=
  fun st =>
    match m st with
    | (Ok a, st') => k a st'
    | (Throw e, st') => (Throw e, st')
    end.

(** [try { m } catch (e) { handler(e) }] *)
Definition try_catch {A : Type} (m : M A) (handler : Error -> M A) : M A :=
  fun st =>
    match m st with
    | (Ok a, st') => (Ok a, st')
    | (Throw e, st') => handler e st'
    end.

Notation "x <- m ;; k" := (bind m (fun x => k))
  (at level 61, m at next level, right associativity).

Notation "' pat <- m ;; k" := (bind m (fun x => match x with pat => k end))
  (at level 61, pat pattern, m at next level, right associativity).

Definition log (e : Event) (st : State) : State :=
  {| cachedProject := cachedProject st; trace := e :: trace st |}.

Definition set_cachedProject (p : option string) : M unit :=
  fun st => (Ok tt, {| cachedProject := p; trace := trace st |}).

Section Client.

Variable env : Env.

Definition getToken : M string :=
  fun st => (env_getToken env (trace st), log CallGetToken st).

Definition refreshToken : M unit :=
  fun st => (env_refreshToken env (trace st), log CallRefreshToken st).

Definition randomBytes (n : nat) : M string :=
  fun st => (Ok (env_randomBytes env (trace st) n), log (CallRandomBytes n) st).

Definition mathRandom : M string :=
  fun st => (Ok (env_mathRandom env (trace st)), log CallMathRandom st).

Definition randomUUID : M string :=
  fun st => (Ok (env_randomUUID env (trace st)), log CallRandomUUID st).

(** [await fetch(`${endpoint}/v1internal:loadCodeAssist`, ...)] *)
Definition fetch_loadCodeAssist (endpoint token : string)
  : M (FetchResult LoadCodeAssistData) :=
  fun st => (Ok (env_loadCodeAssist env (trace st) endpoint token),
             log (CallLoadCodeAssist endpoint token) st).

(** [await fetch(`${endpoint}/v1internal:generateContent`, ...)]; the body
    is the payload as it is at the time of the call. *)
Definition fetch_generateContent (endpoint token : string) (payload : Payload)
  : M (FetchResult GoogleResponse) :=
  fun st => (Ok (env_generateContent env (trace st) endpoint token payload),
             log (CallGenerateContent endpoint token payload) st).

(* ----------------------------------------------------------------- *)
(** ** Response conversion ([convertGoogleToAnthropic]) *)

(** The loop over [parts]: the blocks pushed so far and the tool call
    counter. *)
Fixpoint convert_parts (parts : list Part)
  (anthropicContent : list ResponseBlock) (toolCallCounter : nat)
  : M (list ResponseBlock * nat) :=
  match parts with
  | [] => ret (anthropicContent, toolCallCounter)
  | part :: rest =>
      match text part with
      | Some t =>
          if thought part then
            convert_parts rest anthropicContent toolCallCounter
          else
            convert_parts rest (anthropicContent ++ [RText t])
              toolCallCounter
      | None =>
          match functionCall part with
          | Some call =>
              id <- (if truthy_str (call_id call)
                     then ret (or_str_default (call_id call) "")
                     else (hex <- randomBytes 12 ;; ret ("toolu_" ++ hex)%string)) ;;
              convert_parts rest
                (anthropicContent
                   ++ [RToolUse id (call_name call)
                         (or_json_default (call_args call) (JObj []))])
                (S toolCallCounter)
          | None => convert_parts rest anthropicContent toolCallCounter
          end
      end
  end.

Definition empty_candidate : Candidate :=
  {| candidate_content := None; finishReason := None |}.

Definition is_reason (finishReason : option string) (r : string) : bool :=
  match finishReason with Some f => f =? r | None => false end.

(** [googleResponse.response || googleResponse] *)
Definition response_of (googleResponse : GoogleResponse) : ResponseBody :=
  match wrapped_response googleResponse with
  | Some r => r
  | None => own_body googleResponse
  end.

(** [(response.candidates || [])[0] || {}] *)
Definition firstCandidate_of (googleResponse : GoogleResponse) : Candidate :=
  let candidates :=
    match candidates (response_of googleResponse) with
    | Some cs => cs
    | None => []
    end in
  hd empty_candidate candidates.

(** [(firstCandidate.content || {}).parts || []] *)
Definition parts_of (googleResponse : GoogleResponse) : list Part :=
  match opt_field (candidate_content (firstCandidate_of googleResponse))
          candidate_parts with
  | Some ps => ps
  | None => []
  end.

Definition convertGoogleToAnthropic (googleResponse : GoogleResponse)
  (model : option string) : M AnthropicResponse :=
  let response := response_of googleResponse in
  let firstCandidate := firstCandidate_of googleResponse in
  let parts := parts_of googleResponse in
  ' (anthropicContent, toolCallCounter) <- convert_parts parts [] 0 ;;
  let finishReason := finishReason firstCandidate in
  let stopReason :=
    if is_reason finishReason "STOP" then "end_turn"
    else if is_reason finishReason "MAX_TOKENS" then "max_tokens"
    else if is_reason finishReason "TOOL_USE" || (0 <? toolCallCounter)%nat
    then "tool_use"
    else "end_turn" in
  let usageMetadata := usageMetadata response in
  hex <- randomBytes 16 ;;
  ret {| message_id := ("msg_" ++ hex)%string;
         message_type := "message";
         message_role := "assistant";
         message_content :=
           match anthropicContent with
           | [] => [RText ""]
           | _ => anthropicContent
           end;
         message_model := model;
         stop_reason := stopReason;
         stop_sequence := None;
         usage :=
           {| input_tokens :=
                if truthy_num (opt_field usageMetadata promptTokenCount)
                then match opt_field usageMetadata promptTokenCount with
                     | Some q => q | None => 0%Q end
                else 0%Q;
              output_tokens :=
                if truthy_num (opt_field usageMetadata candidatesTokenCount)
                then match opt_field usageMetadata candidatesTokenCount with
                     | Some q => q | None => 0%Q end
                else 0%Q |} |}.

(* ----------------------------------------------------------------- *)
(** ** Project resolver ([getProject], [clearProjectCache]) *)

(** The project that the body of a discovery response names, if any. *)
Definition discovered (data : LoadCodeAssistData) : option string :=
  match cloudaicompanionProject data with
  | Some (ProjectString s) => if s =? "" then None else Some s
  | Some (ProjectObject id) => if truthy_str id then id else None
  | Some ProjectOther | None => None
  end.

(** The loop over the endpoints and what follows it. *)
Fixpoint getProject_from (token : string) (endpoints : list string)
  : M string :=
  match endpoints with
  | [] =>
      _ <- set_cachedProject (Some DEFAULT_PROJECT_ID) ;;
      ret DEFAULT_PROJECT_ID
  | endpoint :: rest =>
      r <- fetch_loadCodeAssist endpoint token ;;
      match r with
      | FetchError _ => getProject_from token rest          (* catch *)
      | Response status _ json =>
          if negb (ok status) then getProject_from token rest
          else
            match json with
            | Throw _ => getProject_from token rest         (* catch *)
            | Ok data =>
                match discovered data with
                | Some p => _ <- set_cachedProject (Some p) ;; ret p
                | None => getProject_from token rest
                end
            end
      end
  end.

Definition getProject (token : string) : M string :=
  fun st =>
    if truthy_str (cachedProject st)
    then (Ok (or_str_default (cachedProject st) ""), st)
    else getProject_from token ANTIGRAVITY_ENDPOINT_FALLBACKS st.

Definition clearProjectCache : M unit := set_cachedProject None.

Definition refreshAndGetProject : M (string * string) :=
  _ <- refreshToken ;;
  token <- getToken ;;
  _ <- clearProjectCache ;;
  project <- getProject token ;;
  ret (token, project).

(* ----------------------------------------------------------------- *)
(** ** Request builder and endpoint dispatcher ([sendMessage]) *)

Definition buildCloudCodeRequest (anthropicRequest : AnthropicRequest)
  (projectId : string) : M Payload :=
  let model := mapModelName (model anthropicRequest) in
  let googleRequest := convertAnthropicToGoogle anthropicRequest in
  n <- mathRandom ;;
  uuid <- randomUUID ;;
  ret {| project := projectId;
         payload_model := model;
         request :=
           {| contents := contents googleRequest;
              generationConfig := generationConfig googleRequest;
              systemInstruction := systemInstruction googleRequest;
              request_tools := request_tools googleRequest;
              sessionId := Some ("-" ++ n)%string |};
         userAgent := "antigravity";
         requestId := ("agent-" ++ uuid)%string |}.

(** [payload.project = project] *)
Definition set_project (payload : Payload) (p : string) : Payload :=
  {| project := p;
     payload_model := payload_model payload;
     request := request payload;
     userAgent := userAgent payload;
     requestId := requestId payload |}.

(** [lastError || new Error('All endpoints failed')] *)
Definition final_error (lastError : option Error) : Error :=
  match lastError with
  | Some e => e
  | None => Err "All endpoints failed"
  end.

(** The loop of [sendMessage] over the endpoints left to try, with the
    variables it keeps from one turn to the next, and the [throw] that
    follows it.  Every [continue] and every caught exception goes on with
    [rest]. *)
Fixpoint sendMessage_from (anthropicRequest : AnthropicRequest)
  (endpoints : list string) (token : string) (payload : Payload)
  (lastError : option Error) : M AnthropicResponse :=
  match endpoints with
  | [] => throw (final_error lastError)
  | endpoint :: rest =>
      fun st =>
        match fetch_generateContent endpoint token payload st with
        | (Throw e, st1) =>
            sendMessage_from anthropicRequest rest token payload (Some e) st1
        | (Ok (FetchError e), st1) =>
            sendMessage_from anthropicRequest rest token payload (Some e) st1
        | (Ok (Response status errorText json), st1) =>
            if negb (ok status) then
              if (status =? 401)%Z then
                (* ({ token, project } = await refreshAndGetProject());
                   payload.project = project; continue; *)
                match refreshAndGetProject st1 with
                | (Ok (token', project'), st2) =>
                    sendMessage_from anthropicRequest rest token'
                      (set_project payload project') lastError st2
                | (Throw e, st2) =>
                    sendMessage_from anthropicRequest rest token payload
                      (Some e) st2
                end
              else if (status =? 429)%Z then
                sendMessage_from anthropicRequest rest token payload
                  (Some (Err ("Rate limited: " ++ errorText))) st1
              else if (status >=? 400)%Z then
                sendMessage_from anthropicRequest rest token payload
                  (Some (Err ("API error " ++ show_Z status ++ ": "
                                ++ errorText))) st1
              else
                (* response.json() after response.text(): the call
                   rejects, the catch records its error *)
                sendMessage_from anthropicRequest rest token payload
                  (Some (env_jsonAfterText env (trace st1))) st1
            else
              match json with
              | Throw e =>
                  sendMessage_from anthropicRequest rest token payload
                    (Some e) st1
              | Ok data =>
                  match convertGoogleToAnthropic data
                          (model anthropicRequest) st1 with
                  | (Ok r, st2) => (Ok r, st2)
                  | (Throw e, st2) =>
                      sendMessage_from anthropicRequest rest token payload
                        (Some e) st2
                  end
              end
        end
  end.

Definition sendMessage (anthropicRequest : AnthropicRequest)
  : M AnthropicResponse :=
  token <- getToken ;;
  ' (token, project) <-
      try_catch (project <- getProject token ;; ret (token, project))
                (fun _ => refreshAndGetProject) ;;
  payload <- buildCloudCodeRequest anthropicRequest project ;;
  sendMessage_from anthropicRequest ANTIGRAVITY_ENDPOINT_FALLBACKS token
    payload None.

End Client.

(* ================================================================= *)
(** * Stream synthesizer ([sendMessageStream], cloudcode-client.js) *)

Inductive Delta : Type :=
| text_delta (text : string)
| input_json_delta (partial_json : string).

Inductive StreamEvent : Type :=
| message_start (id : string) (model : option string) (input_tokens : Q)
| content_block_start (index : nat) (content_block : ResponseBlock)
| content_block_delta (index : nat) (delta : Delta)
| content_block_stop (index : nat)
| message_delta (stop_reason : string) (stop_sequence : option string)
    (output_tokens : Q)
| message_stop.

(** [for (let i = 0; i < text.length; i += STREAMING_CHUNK_SIZE)], from [i]:
    the events the loop yields.  The distance to the end of the text goes
    down at every turn. *)
Equations? text_deltas (blockIndex : nat) (text : string) (i : nat)
  : list StreamEvent by wf (String.length text - i) lt :=
  text_deltas blockIndex text i with lt_dec i (String.length text) := {
    | left _ =>
        content_block_delta blockIndex
          (text_delta (slice i (i + STREAMING_CHUNK_SIZE) text))
        :: text_deltas blockIndex text (i + STREAMING_CHUNK_SIZE);
    | right _ => [] }.
Proof.
  unfold STREAMING_CHUNK_SIZE. lia.
Qed.

Section Stream.

(** [JSON.stringify] *)
Variable stringify : JSON -> string.

(** The events yielded for one content block. *)
Definition block_events (blockIndex : nat) (block : ResponseBlock)
  : list StreamEvent :=
  match block with
  | RText text =>
      content_block_start blockIndex (RText "")
      :: text_deltas blockIndex text 0
      ++ [ content_block_stop blockIndex ]
  | RToolUse id name input =>
      [ content_block_start blockIndex (RToolUse id name (JObj []));
        content_block_delta blockIndex (input_json_delta (stringify input));
        content_block_stop blockIndex ]
  end.

(** [for (const block of fullResponse.content)], with [blockIndex]. *)
Fixpoint content_events (blockIndex : nat) (content : list ResponseBlock)
  : list StreamEvent :=
  match content with
  | [] => []
  | block :: rest =>
      block_events blockIndex block ++ content_events (S blockIndex) rest
  end.

(** Everything the generator yields once [sendMessage] has returned
    [fullResponse]. *)
Definition stream_events (fullResponse : AnthropicResponse)
  : list StreamEvent :=
  message_start (message_id fullResponse) (message_model fullResponse)
    (input_tokens (usage fullResponse))
  :: content_events 0 (message_content fullResponse)
  ++ [ message_delta (stop_reason fullResponse) (stop_sequence fullResponse)
         (output_tokens (usage fullResponse));
       message_stop ].

Definition sendMessageStream (env : Env) (anthropicRequest : AnthropicRequest)
  : M (list StreamEvent) :=
  fullResponse <- sendMessage env anthropicRequest ;;
  ret (stream_events fullResponse).

End Stream.

(* ================================================================= *)
(** * Reading a schema *)

(** Induction on a JSON value, with the hypothesis for every element of an
    array and every property value of an object. *)
Section JSON_induction.

Variable P : JSON -> Prop.
Hypothesis Hnull : P JNull.
Hypothesis Hbool : forall b, P (JBool b).
Hypothesis Hnum : forall q, P (JNum q).
Hypothesis Hstr : forall s, P (JStr s).
Hypothesis Harr : forall xs, Forall P xs -> P (JArr xs).
Hypothesis Hobj : forall fs, Forall (fun kv => P (snd kv)) fs -> P (JObj fs).

Fixpoint JSON_ind (v : JSON) : P v :=
  match v with
  | JNull => Hnull
  | JBool b => Hbool b
  | JNum q => Hnum q
  | JStr s => Hstr s
  | JArr xs =>
      Harr xs
        ((fix all (xs : list JSON) : Forall P xs :=
            match xs with
            | [] => Forall_nil _
            | x :: rest => Forall_cons x (JSON_ind x) (all rest)
            end) xs)
  | JObj fs =>
      Hobj fs
        ((fix all (fs : list (string * JSON))
            : Forall (fun kv => P (snd kv)) fs :=
            match fs with
            | [] => Forall_nil _
            | kv :: rest => Forall_cons kv (JSON_ind (snd kv)) (all rest)
            end) fs)
  end.

End JSON_induction.

(** Some object of [v], at any depth and behind any key or array, has a
    denylisted keyword among its keys. *)
Fixpoint mentions_unsupported (v : JSON) : bool :=
  match v with
  | JObj fs =>
      existsb (fun kv => unsupported (fst kv) || mentions_unsupported (snd kv))
        fs
  | JArr xs => existsb mentions_unsupported xs
  | _ => false
  end.

(** No schema object of [v] has a denylisted keyword among its keys.  The
    schema objects of a value are the value itself, the values of its
    [properties] map, the elements of its [items] array, and the schema
    objects of every other field that is an object.  The names in a
    [properties] map are not keywords, and an array under another key than
    [items] is not looked into. *)
Fixpoint keywords_clean (v : JSON) : bool :=
  match v with
  | JObj fs =>
      forallb
        (fun kv =>
           negb (unsupported (fst kv))
           && match snd kv with
              | JObj props =>
                  if fst kv =? "properties"
                  then forallb (fun pv => keywords_clean (snd pv)) props
                  else keywords_clean (snd kv)
              | JArr xs =>
                  if fst kv =? "items" then forallb keywords_clean xs
                  else true
              | _ => true
              end)
        fs
  | _ => true
  end.

(** The test that [keywords_clean] makes of one field. *)
Definition field_clean (kv : string * JSON) : bool :=
  negb (unsupported (fst kv))
  && match snd kv with
     | JObj props =>
         if fst kv =? "properties"
         then forallb (fun pv => keywords_clean (snd pv)) props
         else keywords_clean (snd kv)
     | JArr xs =>
         if fst kv =? "items" then forallb keywords_clean xs else true
     | _ => true
     end.

(** What the induction on a schema knows of the value of a field. *)
Definition value_hyp (value : JSON) : Prop :=
  keywords_clean (sanitizeSchema value) = true
  /\ match value with
     | JArr xs => Forall (fun x => keywords_clean (sanitizeSchema x) = true) xs
     | JObj es =>
         Forall (fun kv => keywords_clean (sanitizeSchema (snd kv)) = true) es
     | _ => True
     end.

(** A property named like a keyword, and a schema inside an array that is
    not [items]. *)
Definition schema_with_format_property : JSON :=
  JObj [ ("type", JStr "object");
         ("properties", JObj [ ("format", JObj [ ("type", JStr "string") ]) ]) ].

Definition schema_with_examples : JSON :=
  JObj [ ("type", JStr "object");
         ("examples", JArr [ JObj [ ("default", JStr "x") ] ]) ].

(* ================================================================= *)
(** * Tool names *)

(** Every character of [s] passes [p]. *)
Fixpoint all_chars (p : ascii -> bool) (s : string) : bool :=
  match s with
  | EmptyString => true
  | String c s' => p c && all_chars p s'
  end.

(** The constraint on a tool name that goes to the backend. *)
Definition name_constrained (name : string) : Prop :=
  name <> ""
  /\ String.length name <= 64
  /\ all_chars name_char name = true.

(** The tool has no name in any of the places read. *)
Definition nameless (tool : ToolSpec) : Prop :=
  truthy_str (tool_name tool) = false
  /\ truthy_str (opt_field (tool_function tool) fn_name) = false
  /\ truthy_str (opt_field (tool_custom tool) custom_name) = false.

Definition no_tool : ToolSpec :=
  {| tool_name := None; tool_description := None; tool_input_schema := None;
     tool_function := None; tool_custom := None; tool_parameters := None |}.

Definition named_tool (name : string) : ToolSpec :=
  {| tool_name := Some name; tool_description := Some "a tool";
     tool_input_schema := Some schema_with_format_property;
     tool_function := None; tool_custom := None; tool_parameters := None |}.

Definition request_of (m : option string) (ms : list Message)
  (ts : option (list ToolSpec)) : AnthropicRequest :=
  {| model := m; messages := ms; system := None; max_tokens := None;
     temperature := None; top_p := None; top_k := None;
     stop_sequences := None; tools := ts |}.

Definition two_tools : list ToolSpec := [ named_tool "get weather!"; no_tool ].

(* ================================================================= *)
(** * Responses and worlds to run the client in *)

(** A backend part gives a frontend block: a text that is not marked as a
    thought, or a function call on a part without text. *)
Definition usable (part : Part) : bool :=
  match text part with
  | Some _ => negb (thought part)
  | None => match functionCall part with Some _ => true | None => false end
  end.

(** A text part that is marked as a thought. *)
Definition thought_text (part : Part) : Prop :=
  (exists t, text part = Some t) /\ thought part = true.

(** The backend response with one candidate that holds [ps]. *)
Definition response_with_parts (ps : list Part) : GoogleResponse :=
  {| wrapped_response := None;
     own_body :=
       {| candidates :=
            Some [ {| candidate_content := Some {| candidate_parts := Some ps |};
                      finishReason := Some "STOP" |} ];
          usageMetadata := None |} |}.

(** Some refresh was made before. *)
Definition refreshed (tr : list Event) : bool :=
  existsb (fun e => match e with CallRefreshToken => true | _ => false end) tr.

(** A world whose credential store holds [token-1] until the first refresh and
    [token-2] after it, with the given answers of the backend. *)
Definition world
  (load : list Event -> string -> string -> FetchResult LoadCodeAssistData)
  (generate : list Event -> string -> string -> Payload
              -> FetchResult GoogleResponse) : Env :=
  {| env_getToken := fun tr => Ok (if refreshed tr then "token-2" else "token-1");
     env_refreshToken := fun _ => Ok tt;
     env_loadCodeAssist := load;
     env_generateContent := generate;
     env_randomBytes := fun _ n => if (n =? 12)%nat then "0123456789abcdef01234567"
                                   else "0123456789abcdef0123456789abcdef";
     env_jsonAfterText := fun _ => Err "Body is unusable";
     env_mathRandom := fun _ => "4611686018427388000";
     env_randomUUID := fun _ => "123e4567-e89b-42d3-a456-426614174000" |}.

(** No endpoint answers the discovery call. *)
Definition no_discovery
  : list Event -> string -> string -> FetchResult LoadCodeAssistData :=
  fun _ _ _ => FetchError (Err "fetch failed").

(** No endpoint answers the generation call. *)
Definition no_generation
  : list Event -> string -> string -> Payload -> FetchResult GoogleResponse :=
  fun _ _ _ _ => FetchError (Err "fetch failed").

Definition initial_state : State :=
  {| cachedProject := None; trace := [] |}.

(** The request of model [m] whose only message is the assistant turn that
    holds [block]. *)
Definition request_with_block (m : option string) (block : ContentBlock)
  : AnthropicRequest :=
  request_of m [ {| role := "assistant"; content := ContentBlocks [block] |} ]
    None.

Definition weather_call : ContentBlock :=
  BToolUse (Some "toolu_01A09q90qw90lq917835lq9")
    (Some "get_weather")
    (Some (JObj [ ("location", JStr "Paris"); ("days", JNum (3 # 1)) ])).

(* ================================================================= *)
(** * The Claude-compatible family, in the words of the specification *)

(** The upper-case letter of the lower-case letter [c]. *)
Definition upper_of (c : ascii) : ascii := ascii_of_nat (nat_of_ascii c - 32).

(** [s] is [pattern], a word in lower-case letters, up to the case of its
    letters. *)
Inductive same_ignoring_case : string -> string -> Prop :=
| same_empty : same_ignoring_case "" ""
| same_char (c : ascii) (s pattern : string) :
    same_ignoring_case s pattern ->
    same_ignoring_case (String c s) (String c pattern)
| same_upper (c : ascii) (s pattern : string) :
    between "a" "z" c = true ->
    same_ignoring_case s pattern ->
    same_ignoring_case (String (upper_of c) s) (String c pattern).

(** [s] contains [pattern] as a substring, up to the case of its letters. *)
Definition contains_ignoring_case (pattern s : string) : Prop :=
  exists before mid after,
    s = (before ++ mid ++ after)%string /\ same_ignoring_case mid pattern.

(** The model string of the request is there and contains [claude],
    whatever the case of the letters. *)
Definition claude_family (m : option string) : Prop :=
  exists s, m = Some s /\ contains_ignoring_case "claude" s.

(** The content that the request converter builds for a message under a
    family flag. *)
Definition content_for (claude : bool) (msg : Message) : Content :=
  {| content_role := convertRole (role msg);
     parts := convertContentToParts (content msg) claude |}.

(** The id that a block asks the backend part to carry. *)
Definition block_id (block : ContentBlock) : option string :=
  match block with
  | BToolUse id _ _ => if truthy_str id then id else None
  | BToolResult tool_use_id _ =>
      if truthy_str tool_use_id then tool_use_id else None
  | _ => None
  end.

(** The id that a backend part carries. *)
Definition part_id (part : Part) : option string :=
  match functionCall part, functionResponse part with
  | Some call, _ => call_id call
  | None, Some r => response_id r
  | None, None => None
  end.

(** A block whose conversion the family changes. *)
Definition family_sensitive (block : ContentBlock) : bool :=
  match block with
  | BToolUse id _ _ => truthy_str id
  | BToolResult tool_use_id _ => truthy_str tool_use_id
  | BThinking _ => true
  | _ => false
  end.

(* ================================================================= *)
(** * Reading a stream of events *)

Definition is_message_start (e : StreamEvent) : bool :=
  match e with message_start _ _ _ => true | _ => false end.

Definition is_message_stop (e : StreamEvent) : bool :=
  match e with message_stop => true | _ => false end.

(** The [content_block_start] events of a stream, in order: index and
    block. *)
Fixpoint starts (events : list StreamEvent) : list (nat * ResponseBlock) :=
  match events with
  | [] => []
  | content_block_start i b :: rest => (i, b) :: starts rest
  | _ :: rest => starts rest
  end.

(** The indices of the [content_block_stop] events of a stream, in order. *)
Fixpoint stops (events : list StreamEvent) : list nat :=
  match events with
  | [] => []
  | content_block_stop i :: rest => i :: stops rest
  | _ :: rest => stops rest
  end.

(** The deltas of the [content_block_delta] events for index [k], in order. *)
Fixpoint deltas_at (k : nat) (events : list StreamEvent) : list Delta :=
  match events with
  | [] => []
  | content_block_delta i d :: rest =>
      if (i =? k)%nat then d :: deltas_at k rest else deltas_at k rest
  | _ :: rest => deltas_at k rest
  end.

(** The texts of a list of deltas, when all of them are text deltas. *)
Fixpoint delta_texts (ds : list Delta) : option (list string) :=
  match ds with
  | [] => Some []
  | text_delta t :: rest => option_map (cons t) (delta_texts rest)
  | input_json_delta _ :: rest => None
  end.

(** The block that opens the events of [block]. *)
Definition start_of (block : ResponseBlock) : ResponseBlock :=
  match block with
  | RText _ => RText ""
  | RToolUse id name _ => RToolUse id name (JObj [])
  end.

(** [blocks] with their positions, from [i]. *)
Fixpoint numbered (i : nat) (blocks : list ResponseBlock)
  : list (nat * ResponseBlock) :=
  match blocks with
  | [] => []
  | b :: rest => (i, b) :: numbered (S i) rest
  end.

(** [l / c] rounded up. *)
Definition ceil_div (l c : nat) : nat := (l + c - 1) / c.

Definition response_of_blocks (blocks : list ResponseBlock) : AnthropicResponse :=
  {| message_id := "msg_0123456789abcdef0123456789abcdef";
     message_type := "message";
     message_role := "assistant";
     message_content := blocks;
     message_model := Some "claude-sonnet-4-5";
     stop_reason := "end_turn";
     stop_sequence := None;
     usage := {| input_tokens := 0; output_tokens := 0 |} |}.

Definition sample_blocks : list ResponseBlock :=
  [ RText "The weather in Paris is mild today, with light rain.";
    RToolUse "toolu_01" (Some "get_weather") (JObj [ ("location", JStr "Paris") ]);
    RText "" ].

(** A stand-in for [JSON.stringify]. *)
Definition sample_stringify (v : JSON) : string := "{}".

(** The delta event of block [k] that carries the text [t]. *)
Definition text_event (k : nat) (t : string) : StreamEvent :=
  content_block_delta k (text_delta t).

(** The deltas between the start and the stop of the events of [block]. *)
Definition deltas_of_block (stringify : JSON -> string) (k : nat)
  (block : ResponseBlock) : list Delta :=
  deltas_at k (block_events stringify k block).

(** The shape of the events of one block: a start, deltas, a stop, all with
    the index of the block. *)
Definition bracket (k : nat) (b : ResponseBlock) (ds : list Delta)
  : list StreamEvent :=
  content_block_start k b
  :: map (content_block_delta k) ds ++ [ content_block_stop k ].

(* ================================================================= *)
(** * Reading a trace *)

(** The project that a discovery answer yields, if any. *)
Definition yields (r : FetchResult LoadCodeAssistData) : option string :=
  match r with
  | FetchError _ => None
  | Response status _ json =>
      if ok status
      then match json with Ok data => discovered data | Throw _ => None end
      else None
  end.

(** The discovery calls for [token] at [endpoints], latest first. *)
Definition discovery_calls (token : string) (endpoints : list string)
  : list Event :=
  rev (map (fun endpoint => CallLoadCodeAssist endpoint token) endpoints).

(** The number of credential refreshes in a trace. *)
Fixpoint refresh_count (tr : list Event) : nat :=
  match tr with
  | [] => 0
  | CallRefreshToken :: rest => S (refresh_count rest)
  | _ :: rest => refresh_count rest
  end.

(** The generation calls of a trace, latest first: endpoint, token and the
    project of the payload sent. *)
Fixpoint generate_calls (tr : list Event) : list (string * string * string) :=
  match tr with
  | [] => []
  | CallGenerateContent endpoint token payload :: rest =>
      (endpoint, token, project payload) :: generate_calls rest
  | _ :: rest => generate_calls rest
  end.

(** A call that is neither a refresh nor a generation call. *)
Definition quiet (e : Event) : bool :=
  match e with
  | CallRefreshToken | CallGenerateContent _ _ _ => false
  | _ => true
  end.

(** [st'] comes from [st] by calls that are neither refreshes nor generation
    calls. *)
Definition quiet_step (st st' : State) : Prop :=
  exists new, trace st' = new ++ trace st /\ forallb quiet new = true.

(* ================================================================= *)
(** * Worlds for the dispatcher *)

(** The backend response that says [t]. *)
Definition answer (t : string) : GoogleResponse :=
  response_with_parts [ text_part t ].

(** The first two endpoints are out of quota, the third one answers with its
    own name. *)
Definition rate_limited_twice : Env :=
  world no_discovery
    (fun _ endpoint _ _ =>
       if endpoint =? ANTIGRAVITY_ENDPOINT_PROD
       then Response 200 "" (Ok (answer endpoint))
       else Response 429 "RESOURCE_EXHAUSTED" (Throw (Err "not JSON"))).

(** Every endpoint names a project that depends on the token. *)
Definition project_per_token
  : list Event -> string -> string -> FetchResult LoadCodeAssistData :=
  fun _ _ token =>
    Response 200 ""
      (Ok {| cloudaicompanionProject :=
               Some (ProjectString ("project-of-" ++ token)) |}).

(** Every endpoint rejects the first token with 401 and answers the second
    one with its own name and the project of the payload. *)
Definition expired_token : Env :=
  world project_per_token
    (fun _ endpoint token payload =>
       if token =? "token-1"
       then Response 401 "UNAUTHENTICATED" (Throw (Err "not JSON"))
       else Response 200 "" (Ok (answer (endpoint ++ " " ++ project payload)))).

(** The request that the handler of [POST /v1/messages] builds from the body
    it receives and hands to [sendMessage] or [sendMessageStream]:
    [model: model || 'claude-3-5-sonnet-20241022'],
    [max_tokens: max_tokens || 4096]; [stop_sequences] is not passed on. *)
Definition messages_request (body : AnthropicRequest) : AnthropicRequest :=
  {| model := Some (or_str_default (model body) "claude-3-5-sonnet-20241022");
     messages := messages body;
     system := system body;
     max_tokens := if truthy_num (max_tokens body) then max_tokens body
                   else Some (4096 # 1)%Q;
     temperature := temperature body;
     top_p := top_p body;
     top_k := top_k body;
     stop_sequences := None;
     tools := tools body |}.

Definition sample_request : AnthropicRequest :=
  request_of (Some "claude-sonnet-4-5")
    [ {| role := "user"; content := ContentString "hello" |} ] None.

Definition sample_payload : Payload :=
  {| project := "project-of-token-1";
     payload_model := mapModelName (model sample_request);
     request := convertAnthropicToGoogle sample_request;
     userAgent := "antigravity";
     requestId := "agent-123e4567-e89b-42d3-a456-426614174000" |}.

(** The generation calls of a trace in the order made. *)
Definition generate_calls_in_order (tr : list Event)
  : list (string * string * string) :=
  rev (generate_calls tr).

(** The second generation call goes to the host of the first one. *)
Definition retries_same_host (calls : list (string * string * string)) : Prop :=
  match calls with
  | (first, _, _) :: (second, _, _) :: _ => first = second
  | _ => False
  end.

(* ================================================================= *)
(** * Further readings of requests and responses *)

(** The request of model [m] whose only message is [content], said by the
    assistant. *)
Definition request_with_content (m : option string) (content : MessageContent)
  : AnthropicRequest :=
  request_of m [ {| role := "assistant"; content := content |} ] None.

Definition is_tool_use (block : ResponseBlock) : bool :=
  match block with RToolUse _ _ _ => true | RText _ => false end.

(** The id of a [tool_use] block is not empty. *)
Definition id_present (block : ResponseBlock) : Prop :=
  match block with RToolUse id _ _ => id <> "" | RText _ => True end.

(** The function calls of the parts that hold one and no text, in order. *)
Fixpoint calls_of (ps : list Part) : list FunctionCall :=
  match ps with
  | [] => []
  | part :: rest =>
      match text part, functionCall part with
      | None, Some call => call :: calls_of rest
      | _, _ => calls_of rest
      end
  end.

(** [id] is an id drawn for a tool call: [toolu_] and the hexadecimal digits
    of twelve random bytes. *)
Definition generated_id (env : Env) (id : string) : Prop :=
  exists tr, id = ("toolu_" ++ env_randomBytes env tr 12)%string.

(** [block] is the [tool_use] block of [call]: the name of the call, its
    arguments or the empty object when it has none, and its id, or a drawn
    one when the id is absent or empty. *)
Definition tool_use_of (env : Env) (call : FunctionCall)
  (block : ResponseBlock) : Prop :=
  match block with
  | RToolUse id name input =>
      name = call_name call
      /\ input = match call_args call with
                 | Some args => if truthy args then args else JObj []
                 | None => JObj []
                 end
      /\ match call_id call with
         | Some i => if i =? "" then generated_id env id else id = i
         | None => generated_id env id
         end
  | RText _ => False
  end.

(** The backend response whose only candidate holds [ps] and ended for
    [reason]. *)
Definition response_with (ps : list Part) (reason : option string)
  : GoogleResponse :=
  {| wrapped_response := None;
     own_body :=
       {| candidates :=
            Some [ {| candidate_content := Some {| candidate_parts := Some ps |};
                      finishReason := reason |} ];
          usageMetadata := None |} |}.

Definition paris_call : FunctionCall :=
  {| call_name := Some "get_weather";
     call_args := Some (JObj [ ("location", JStr "Paris") ]);
     call_id := None |}.

(** The function declarations of a backend request. *)
Definition declarations (g : GoogleRequest) : list FunctionDeclaration :=
  match request_tools g with Some ds => ds | None => [] end.

(** The tool names no schema in any of the places read. *)
Definition schemaless (tool : ToolSpec) : Prop :=
  truthy_opt (tool_input_schema tool) = false
  /\ truthy_opt (opt_field (tool_function tool) fn_input_schema) = false
  /\ truthy_opt (opt_field (tool_function tool) fn_parameters) = false
  /\ truthy_opt (opt_field (tool_custom tool) custom_input_schema) = false
  /\ truthy_opt (tool_parameters tool) = false.

(** The family test of [convertAnthropicToGoogle] on a model name. *)
Definition in_claude_family (m : option string) : bool :=
  includes "claude" (toLowerCase (or_str_default m "")).

(** The names that every plain object answers from its prototype. *)
Definition OBJECT_PROTOTYPE_NAMES : list string :=
  [ "constructor"; "hasOwnProperty"; "isPrototypeOf"; "propertyIsEnumerable";
    "toLocaleString"; "toString"; "valueOf"; "__proto__";
    "__defineGetter__"; "__defineSetter__"; "__lookupGetter__";
    "__lookupSetter__" ].

(** [table[anthropicModel]] reads the table itself: the model is absent or
    is none of the names that the prototype of the table answers. *)
Definition own_key (m : option string) : bool :=
  match m with
  | Some s => negb (existsb (String.eqb s) OBJECT_PROTOTYPE_NAMES)
  | None => true
  end.

(* ================================================================= *)
(** * Further readings of a trace, further worlds *)

(** The first endpoint does not answer the discovery call, the second one
    names a project as an object with an id, the third one as a string. *)
Definition second_host_discovers
  : list Event -> string -> string -> FetchResult LoadCodeAssistData :=
  fun _ endpoint _ =>
    if endpoint =? ANTIGRAVITY_ENDPOINT_DAILY
    then FetchError (Err "fetch failed")
    else if endpoint =? ANTIGRAVITY_ENDPOINT_AUTOPUSH
    then Response 200 ""
           (Ok {| cloudaicompanionProject :=
                    Some (ProjectObject (Some "project-of-autopush")) |})
    else Response 200 ""
           (Ok {| cloudaicompanionProject :=
                    Some (ProjectString "project-of-prod") |}).

(** The hosts of a list of generation calls. *)
Definition hosts (calls : list (string * string * string)) : list string :=
  map (fun c => fst (fst c)) calls.

(** The generation calls of a trace with their whole payload, latest
    first. *)
Fixpoint generate_events (tr : list Event) : list (string * string * Payload) :=
  match tr with
  | [] => []
  | CallGenerateContent endpoint token payload :: rest =>
      (endpoint, token, payload) :: generate_events rest
  | _ :: rest => generate_events rest
  end.

(** The hosts of the generation calls of a trace, in the order made. *)
Definition hosts_called (tr : list Event) : list string :=
  map (fun c => fst (fst c)) (rev (generate_events tr)).

(** [st'] comes from [st] by calls none of which is a generation call. *)
Definition no_generation_step (st st' : State) : Prop :=
  exists new, trace st' = new ++ trace st /\ generate_events new = [].

(** Two payloads differ at most in their project. *)
Definition same_but_project (p q : Payload) : Prop :=
  payload_model p = payload_model q
  /\ request p = request q
  /\ userAgent p = userAgent q
  /\ requestId p = requestId q.

(** The answer is a response with status 401. *)
Definition is_401 (r : FetchResult GoogleResponse) : bool :=
  match r with
  | Response status _ _ => (status =? 401)%Z
  | FetchError _ => false
  end.

(** The error that the loop of [sendMessage] records for an answer that makes
    it go on to the next endpoint without a refresh; [None] for a 401 and
    for an answer that it returns. *)
Definition failure (env : Env) (tr : list Event) (endpoint token : string)
  (payload : Payload) : option Error :=
  match env_generateContent env tr endpoint token payload with
  | FetchError e => Some e
  | Response status errorText json =>
      if ok status then
        match json with Throw e => Some e | Ok _ => None end
      else if (status =? 401)%Z then None
      else if (status =? 429)%Z then Some (Err ("Rate limited: " ++ errorText))
      else if (status >=? 400)%Z
      then Some (Err ("API error " ++ show_Z status ++ ": " ++ errorText))
      else Some (env_jsonAfterText env
                   (CallGenerateContent endpoint token payload :: tr))
  end.

(** Every endpoint answers 401, whatever the token. *)
Definition always_unauthorized : Env :=
  world project_per_token
    (fun _ _ _ _ => Response 401 "UNAUTHENTICATED" (Throw (Err "not JSON"))).

(** The endpoints fail in three ways: no answer, out of quota, and a 304
    without body, for which the second read of the body parses the empty
    text. *)
Definition all_hosts_fail : Env :=
  let w :=
    world no_discovery
      (fun _ endpoint _ _ =>
         if endpoint =? ANTIGRAVITY_ENDPOINT_DAILY
         then FetchError (Err "fetch failed")
         else if endpoint =? ANTIGRAVITY_ENDPOINT_AUTOPUSH
         then Response 429 "RESOURCE_EXHAUSTED" (Throw (Err "not JSON"))
         else Response 304 "" (Throw (Err "Unexpected end of JSON input"))) in
  {| env_getToken := env_getToken w;
     env_refreshToken := env_refreshToken w;
     env_loadCodeAssist := env_loadCodeAssist w;
     env_generateContent := env_generateContent w;
     env_jsonAfterText := fun _ => Err "Unexpected end of JSON input";
     env_randomBytes := env_randomBytes w;
     env_mathRandom := env_mathRandom w;
     env_randomUUID := env_randomUUID w |}.

(** The error that each endpoint of [all_hosts_fail] makes the loop record. *)
Definition error_of_host (h : string) : Error :=
  if h =? ANTIGRAVITY_ENDPOINT_DAILY then Err "fetch failed"
  else if h =? ANTIGRAVITY_ENDPOINT_AUTOPUSH
  then Err "Rate limited: RESOURCE_EXHAUSTED"
  else Err "Unexpected end of JSON input".

(** What every response that the client returns looks like, for the model
    that was asked for. *)
Definition response_shape (model : option string) (r : AnthropicResponse)
  : Prop :=
  message_type r = "message"
  /\ message_role r = "assistant"
  /\ message_model r = model
  /\ stop_sequence r = None
  /\ message_content r <> []
  /\ Forall id_present (message_content r)
  /\ In (stop_reason r) [ "end_turn"; "max_tokens"; "tool_use" ]
  /\ exists hex, message_id r = ("msg_" ++ hex)%string.

(* ================================================================= *)
(** * Streaming chunks ([convertStreamingChunk], format-converter.js) *)

(** The texts of the parts that have one, in order. *)
Fixpoint part_texts (ps : list Part) : list string :=
  match ps with
  | [] => []
  | part :: rest =>
      match text part with
      | Some t => t :: part_texts rest
      | None => part_texts rest
      end
  end.

(** [convertStreamingChunk(googleChunk, model, index, isFirst, isLast)]; the
    events pushed, in order. *)
Definition convertStreamingChunk (env : Env) (googleChunk : GoogleResponse)
  (model : option string) (index : nat) (isFirst isLast : bool)
  : M (list StreamEvent) :=
  let response := response_of googleChunk in
  let firstCandidate := firstCandidate_of googleChunk in
  let parts := parts_of googleChunk in
  opening <-
    (if isFirst
     then (hex <- randomBytes env 16 ;;
           ret [ message_start ("msg_" ++ hex)%string model 0%Q;
                 content_block_start 0 (RText "") ])
     else ret []) ;;
  let deltas :=
    map (fun t => content_block_delta 0 (text_delta t)) (part_texts parts) in
  let closing :=
    if isLast then
      let finishReason := finishReason firstCandidate in
      let stopReason :=
        if is_reason finishReason "MAX_TOKENS" then "max_tokens"
        else "end_turn" in
      let usageMetadata := usageMetadata response in
      [ content_block_stop 0;
        message_delta stopReason None
          (if truthy_num (opt_field usageMetadata candidatesTokenCount)
           then match opt_field usageMetadata candidatesTokenCount with
                | Some q => q | None => 0%Q end
           else 0%Q);
        message_stop ]
    else [] in
  ret (opening ++ deltas ++ closing).

(** A chunk with a thought, a text and a tool call, finished for
    [TOOL_USE]. *)
Definition mixed_chunk : GoogleResponse :=
  response_with [ thought_part "pondering"; text_part "Hello";
                  call_part paris_call ] (Some "TOOL_USE").

(* ================================================================= *)
(** * The catalog of models ([listModels], cloudcode-client.js) *)

Record AvailableModel : Type := {
  available_id : string;
  available_name : string;
  available_description : string;
  available_context : Z;
  available_output : Z
}.

Definition AVAILABLE_MODELS : list AvailableModel :=
  [ {| available_id := "claude-sonnet-4-5";
       available_name := "Claude Sonnet 4.5 (Antigravity)";
       available_description := "Claude Sonnet 4.5 via Antigravity Cloud Code";
       available_context := 200000; available_output := 64000 |};
    {| available_id := "claude-sonnet-4-5-thinking";
       available_name := "Claude Sonnet 4.5 Thinking (Antigravity)";
       available_description :=
         "Claude Sonnet 4.5 with extended thinking via Antigravity";
       available_context := 200000; available_output := 64000 |};
    {| available_id := "claude-opus-4-5-thinking";
       available_name := "Claude Opus 4.5 Thinking (Antigravity)";
       available_description :=
         "Claude Opus 4.5 with extended thinking via Antigravity";
       available_context := 200000; available_output := 64000 |} ].

Record ListedModel : Type := {
  listed_id : string;
  listed_object : string;
  listed_created : Z;
  listed_owned_by : string;
  listed_description : string
}.

(** [listModels().data], with [now] for [Date.now()]. *)
Definition listModels (now : Z) : list ListedModel :=
  map (fun m => {| listed_id := available_id m;
                   listed_object := "model";
                   listed_created := (now / 1000)%Z;
                   listed_owned_by := "anthropic";
                   listed_description := available_description m |})
      AVAILABLE_MODELS.

(* ================================================================= *)
(** * The HTTP handler of [POST /v1/messages] and [parseError] (server) *)

(** The double quote. *)
Definition quote : string := chr 34.

(** [c] is [p], a lower-case letter or another character, whatever the case
    of [c]. *)
Definition char_is (p c : ascii) : bool :=
  Ascii.eqb p (if between "A" "Z" c then ascii_of_nat (nat_of_ascii c + 32) else c).

(** [s] starts with [pattern], a text in lower case, whatever the case of the
    letters of [s]; the rest of [s] after it. *)
Fixpoint strip_prefix_ci (pattern s : string) : option string :=
  match pattern, s with
  | EmptyString, _ => Some s
  | String p pattern', String c s' =>
      if char_is p c then strip_prefix_ci pattern' s' else None
  | String _ _, EmptyString => None
  end.

(** [s] starts with [pattern]; the rest of [s] after it. *)
Fixpoint strip_prefix (pattern s : string) : option string :=
  match pattern, s with
  | EmptyString, _ => Some s
  | String p pattern', String c s' =>
      if Ascii.eqb p c then strip_prefix pattern' s' else None
  | String _ _, EmptyString => None
  end.

(** The longest front part of [s] whose characters pass [p], and the rest. *)
Fixpoint span (p : ascii -> bool) (s : string) : string * string :=
  match s with
  | EmptyString => (EmptyString, EmptyString)
  | String c s' =>
      if p c then let (a, b) := span p s' in (String c a, b)
      else (EmptyString, s)
  end.

Definition digit (c : ascii) : bool := between "0" "9" c.

(** [(\d+h\d+m\d+s|\d+s)] with the flag [i], at the start of [s]: the text
    matched.  A run of digits is followed by no digit, so that only the
    longest run can be followed by the letter. *)
Definition match_duration (s : string) : option string :=
  let (d1, r1) := span digit s in
  if d1 =? "" then None
  else
    match r1 with
    | String c1 r2 =>
        if char_is "h" c1 then
          let (d2, r3) := span digit r2 in
          if d2 =? "" then None
          else
            match r3 with
            | String c2 r4 =>
                if char_is "m" c2 then
                  let (d3, r5) := span digit r4 in
                  if d3 =? "" then None
                  else
                    match r5 with
                    | String c3 _ =>
                        if char_is "s" c3
                        then Some (d1 ++ String c1 d2 ++ String c2 d3
                                      ++ String c3 "")%string
                        else None
                    | EmptyString => None
                    end
                else None
            | EmptyString => None
            end
        else if char_is "s" c1 then Some (d1 ++ String c1 "")%string
        else None
    | EmptyString => None
    end.

(** [message.match(/quota will reset after (\d+h\d+m\d+s|\d+s)/i)]: the
    first group of the leftmost match. *)
Fixpoint match_reset (message : string) : option string :=
  match
    match strip_prefix_ci "quota will reset after " message with
    | Some rest => match_duration rest
    | None => None
    end
  with
  | Some d => Some d
  | None =>
      match message with
      | EmptyString => None
      | String _ message' => match_reset message'
      end
  end.

(** The group of the second pattern and the quote that closes it, at the
    start of [s]: one character or more other than the double quote, then a
    double quote. *)
Definition match_quoted (s : string) : option string :=
  let (body, rest) := span (fun c => negb (Ascii.eqb c (ascii_of_nat 34))) s in
  if body =? "" then None
  else match rest with
       | String _ _ => Some body       (* the closing quote *)
       | EmptyString => None
       end.

(** [message.match(...)] for the pattern that reads the value of the
    [message] key: the key between double quotes, a colon, and between double
    quotes one character or more other than the double quote.  The first
    group of the leftmost match. *)
Fixpoint match_message (message : string) : option string :=
  match
    match strip_prefix (quote ++ "message" ++ quote ++ ":" ++ quote) message with
    | Some rest => match_quoted rest
    | None => None
    end
  with
  | Some m => Some m
  | None =>
      match message with
      | EmptyString => None
      | String _ message' => match_message message'
      end
  end.

Record ParsedError : Type := {
  errorType : string;
  statusCode : Z;
  errorMessage : string
}.

Definition parseError (error : Error) : ParsedError :=
  let 'Err message := error in
  if includes "401" message || includes "UNAUTHENTICATED" message then
    {| errorType := "authentication_error"; statusCode := 401;
       errorMessage :=
         "Authentication failed. Make sure Antigravity is running with a valid token." |}
  else if includes "429" message || includes "RESOURCE_EXHAUSTED" message then
    {| errorType := "rate_limit_error"; statusCode := 429;
       errorMessage :=
         match match_reset message with
         | Some d => "Rate limited. Quota will reset after " ++ d ++ "."
         | None => "Rate limited. Please wait and try again."
         end |}
  else if includes "invalid_request_error" message
          || includes "INVALID_ARGUMENT" message then
    {| errorType := "invalid_request_error"; statusCode := 400;
       errorMessage :=
         match match_message message with
         | Some m => m
         | None => message
         end |}
  else if includes "All endpoints failed" message then
    {| errorType := "api_error"; statusCode := 503;
       errorMessage :=
         "Unable to connect to Claude API. Check that Antigravity is running." |}
  else if includes "PERMISSION_DENIED" message then
    {| errorType := "permission_error"; statusCode := 403;
       errorMessage := "Permission denied. Check your Antigravity license." |}
  else
    {| errorType := "api_error"; statusCode := 500; errorMessage := message |}.

(** The body of a request to [POST /v1/messages], with the fields that the
    handler reads.  [body_messages] is [None] when [messages] is missing or
    is not an array; [body_stream] is the truth of [stream]. *)
Record MessagesBody : Type := {
  body_model : option string;
  body_messages : option (list Message);
  body_max_tokens : option Q;
  body_stream : bool;
  body_system : option SystemPrompt;
  body_tools : option (list ToolSpec);
  body_top_p : option Q;
  body_top_k : option Q;
  body_temperature : option Q
}.

(** The [request] object that the handler builds. *)
Definition handler_request (body : MessagesBody) (messages : list Message)
  : AnthropicRequest :=
  messages_request
    {| model := body_model body;
       messages := messages;
       system := body_system body;
       max_tokens := body_max_tokens body;
       temperature := body_temperature body;
       top_p := body_top_p body;
       top_k := body_top_k body;
       stop_sequences := None;
       tools := body_tools body |}.

Inductive ReplyBody : Type :=
| MessageBody (response : AnthropicResponse)
| ErrorBody (type : string) (message : string).   (* { type: 'error', error } *)

Inductive Frame : Type :=
| EventFrame (event : StreamEvent)                (* event: <type>, data *)
| ErrorFrame (type : string) (message : string).  (* event: error *)

(** What the handler sends: a JSON body with its status, or an event stream,
    which has the status 200. *)
Inductive Reply : Type :=
| JsonReply (status : Z) (body : ReplyBody)
| StreamReply (frames : list Frame).

Section Handler.

Variable env : Env.

(** [JSON.stringify] *)
Variable stringify : JSON -> string.

(** [forceRefresh] of token-extractor.js. *)
Variable forceRefresh : M string.

(** The handler of [POST /v1/messages]: the reply and the state after it. *)
Definition post_messages (body : MessagesBody) (st : State) : Reply * State :=
  match body_messages body with
  | None =>
      (JsonReply 400
         (ErrorBody "invalid_request_error"
            "messages is required and must be an array"), st)
  | Some messages =>
      let request := handler_request body messages in
      if body_stream body then
        match sendMessageStream stringify env request st with
        | (Ok events, st') => (StreamReply (map EventFrame events), st')
        | (Throw streamError, st') =>
            let parsed := parseError streamError in
            (StreamReply [ ErrorFrame (errorType parsed) (errorMessage parsed) ],
             st')
        end
      else
        match sendMessage env request st with
        | (Ok response, st') => (JsonReply 200 (MessageBody response), st')
        | (Throw error, st') =>
            let parsed := parseError error in
            if errorType parsed =? "authentication_error" then
              match (_ <- clearProjectCache ;; forceRefresh) st' with
              | (Ok _, st'') =>
                  (JsonReply (statusCode parsed)
                     (ErrorBody (errorType parsed)
                        "Token was expired and has been refreshed. Please retry your request."),
                   st'')
              | (Throw _, st'') =>
                  (JsonReply (statusCode parsed)
                     (ErrorBody (errorType parsed)
                        "Could not refresh token. Make sure Antigravity is running."),
                   st'')
              end
            else
              (JsonReply (statusCode parsed)
                 (ErrorBody (errorType parsed) (errorMessage parsed)), st')
        end
  end.

End Handler.

(** A credential store whose forced refresh is recorded as a refresh. *)
Definition recorded_refresh : M string :=
  fun st => (Ok "token-2", log CallRefreshToken st).

Definition sample_body (stream : bool) : MessagesBody :=
  {| body_model := None;
     body_messages := Some [ {| role := "user"; content := ContentString "hello" |} ];
     body_max_tokens := None;
     body_stream := stream;
     body_system := None;
     body_tools := None;
     body_top_p := None;
     body_top_k := None;
     body_temperature := None |}.

(** Every endpoint answers 401 and the credential cannot be refreshed. *)
Definition refresh_broken : Env :=
  {| env_getToken := fun _ => Ok "token-1";
     env_refreshToken := fun _ => Throw (Err "invalid_grant");
     env_loadCodeAssist := no_discovery;
     env_generateContent := env_generateContent always_unauthorized;
     env_randomBytes := env_randomBytes always_unauthorized;
     env_jsonAfterText := env_jsonAfterText always_unauthorized;
     env_mathRandom := env_mathRandom always_unauthorized;
     env_randomUUID := env_randomUUID always_unauthorized |}.

(* ----------------------------------------------------------------- *)
(** ** Schemas that the sanitizer leaves as they are *)

(** [sanitizeSchema] has nothing to change in [v]. *)
Definition fixed (v : JSON) : Prop := sanitizeSchema v = v.

(** One turn of the loop of [sanitizeSchema] copies the field. *)
Definition field_fixed (kv : string * JSON) : Prop :=
  forall sanitized,
    sanitize_field sanitizeSchema sanitized (fst kv) (snd kv)
    = assign sanitized (fst kv) (snd kv).

(** The fields of an object that the loops have built: no name twice, no
    [__proto__], and [P] of each field. *)
Definition settled (P : string * JSON -> Prop) (fields : list (string * JSON))
  : Prop :=
  NoDup (map fst fields)
  /\ Forall (fun kv => fst kv <> "__proto__" /\ P kv) fields.

(** What the induction on a schema knows of the value of a field, for the
    second run of the sanitizer. *)
Definition deep_fixed (value : JSON) : Prop :=
  fixed (sanitizeSchema value)
  /\ match value with
     | JArr xs => Forall (fun x => fixed (sanitizeSchema x)) xs
     | JObj es => Forall (fun kv => fixed (sanitizeSchema (snd kv))) es
     | _ => True
     end.

(* ================================================================= *)
(** * Properties of the schema sanitizer *)

Lemma sanitizeSchema_obj (es : list (string * JSON)) :
  sanitizeSchema (JObj es) = JObj (sanitize_entries sanitizeSchema es []).
Proof. reflexivity. Qed.

Lemma sanitizeSchema_arr (xs : list JSON) :
  sanitizeSchema (JArr xs) = JObj (sanitize_elements sanitizeSchema 0 xs []).
Proof. reflexivity. Qed.

Lemma forallb_replace_field (P : string * JSON -> bool) k v fs :
  forallb P fs = true -> P (k, v) = true ->
  forallb P (replace_field k v fs) = true.
Proof.
  intros Hfs Hkv. induction fs as [|[k' v'] fs IH]; simpl in *.
  - now rewrite Hkv.
  - apply andb_prop in Hfs as [Hhd Htl].
    destruct (k' =? k); simpl.
    + now rewrite Hkv, Htl.
    + now rewrite Hhd, IH.
Qed.

Lemma forallb_assign (P : string * JSON -> bool) k v fs :
  forallb P fs = true -> P (k, v) = true ->
  forallb P (assign fs k v) = true.
Proof.
  intros Hfs Hkv. unfold assign.
  destruct (k =? "__proto__"); auto using forallb_replace_field.
Qed.

Lemma keywords_clean_obj fs :
  keywords_clean (JObj fs) = forallb field_clean fs.
Proof. reflexivity. Qed.


Lemma sanitize_properties_clean es : forall acc,
  Forall (fun kv => keywords_clean (sanitizeSchema (snd kv)) = true) es ->
  forallb (fun pv => keywords_clean (snd pv)) acc = true ->
  forallb (fun pv => keywords_clean (snd pv))
    (sanitize_properties sanitizeSchema es acc) = true.
Proof.
  induction es as [|[k v] es IH]; intros acc Hes Hacc; simpl; auto.
  inversion Hes; subst. apply IH; auto.
  apply forallb_assign; auto.
Qed.

Lemma sanitize_properties_array_clean xs : forall i acc,
  Forall (fun x => keywords_clean (sanitizeSchema x) = true) xs ->
  forallb (fun pv => keywords_clean (snd pv)) acc = true ->
  forallb (fun pv => keywords_clean (snd pv))
    (sanitize_properties_array sanitizeSchema i xs acc) = true.
Proof.
  induction xs as [|x xs IH]; intros i acc Hxs Hacc; simpl; auto.
  inversion Hxs; subst. apply IH; auto.
  apply forallb_assign; auto.
Qed.

Lemma forallb_map_clean xs :
  Forall (fun x => keywords_clean (sanitizeSchema x) = true) xs ->
  forallb keywords_clean (map sanitizeSchema xs) = true.
Proof.
  induction 1; simpl; auto. now rewrite H, IHForall.
Qed.

Lemma sanitize_field_clean sanitized key value :
  value_hyp value ->
  forallb field_clean sanitized = true ->
  forallb field_clean (sanitize_field sanitizeSchema sanitized key value) = true.
Proof.
  intros [Hv Hsub] Hacc. unfold sanitize_field.
  destruct (unsupported key) eqn:Hu; auto.
  destruct (key =? "properties") eqn:Hp; destruct (key =? "items") eqn:Hi;
    destruct value as [|b|q|s|xs|es]; simpl;
    repeat match goal with
           | |- context [if ?c then _ else _] => destruct c
           end;
    apply forallb_assign; auto;
    unfold field_clean; simpl; rewrite ?Hu, ?Hp, ?Hi; simpl;
    auto using sanitize_properties_array_clean, sanitize_properties_clean,
      forallb_map_clean.
Qed.

Lemma sanitize_entries_clean es : forall acc,
  Forall (fun kv => value_hyp (snd kv)) es ->
  forallb field_clean acc = true ->
  forallb field_clean (sanitize_entries sanitizeSchema es acc) = true.
Proof.
  induction es as [|[k v] es IH]; intros acc Hes Hacc; simpl; auto.
  inversion Hes; subst. apply IH; auto using sanitize_field_clean.
Qed.

Lemma sanitize_elements_clean xs : forall i acc,
  Forall value_hyp xs ->
  forallb field_clean acc = true ->
  forallb field_clean (sanitize_elements sanitizeSchema i xs acc) = true.
Proof.
  induction xs as [|x xs IH]; intros i acc Hxs Hacc; simpl; auto.
  inversion Hxs; subst. apply IH; auto using sanitize_field_clean.
Qed.

Lemma value_hyp_all (schema : JSON) : value_hyp schema.
Proof.
  induction schema as [| b | q | s | xs IH | es IH] using JSON_ind;
    try (split; [reflexivity | exact I]).
  - split.
    + rewrite sanitizeSchema_arr, keywords_clean_obj.
      now apply sanitize_elements_clean.
    + eapply Forall_impl; [|exact IH]. now intros x [Hx _].
  - split.
    + rewrite sanitizeSchema_obj, keywords_clean_obj.
      now apply sanitize_entries_clean.
    + eapply Forall_impl; [|exact IH]. now intros kv [Hx _].
Qed.

(** C2, as the code has it: whatever the schema, no schema object of
    [sanitizeSchema schema] has a denylisted keyword among its keys: not the
    result itself, not a value of a [properties] map, not an element of an
    [items] array, not an object held by another field, at any depth.  The
    names of the properties in a [properties] map are not keys of a schema
    object, and what an array under a key other than [items] holds is not
    a schema object: the statement does not reach them. *)
Theorem sanitizeSchema_keywords_clean (schema : JSON) :
  keywords_clean (sanitizeSchema schema) = true.
Proof. apply value_hyp_all. Qed.

(** C2, as stated, fails: a property that is named [format] keeps its name
    in the result, and a schema inside an [examples] array keeps its
    [default] keyword. *)
Lemma sanitizeSchema_keeps_keyword_names :
  sanitizeSchema schema_with_format_property = schema_with_format_property
  /\ mentions_unsupported (sanitizeSchema schema_with_format_property) = true
  /\ sanitizeSchema schema_with_examples = schema_with_examples
  /\ mentions_unsupported (sanitizeSchema schema_with_examples) = true.
Proof. repeat split; reflexivity. Qed.

(* ================================================================= *)
(** * Properties of tool names *)

Lemma take_length n : forall s, String.length (take n s) <= n.
Proof.
  induction n as [|n IH]; intros [|c s]; simpl; try lia.
  specialize (IH s). lia.
Qed.

Lemma take_nonempty n c s : take (S n) (String c s) <> "".
Proof. simpl. discriminate. Qed.

Lemma all_chars_take p n : forall s,
  all_chars p s = true -> all_chars p (take n s) = true.
Proof.
  induction n as [|n IH]; intros [|c s]; simpl; auto.
  intros H. apply andb_prop in H as [Hc Hs]. now rewrite Hc, IH.
Qed.

Lemma name_char_underscore : name_char "_" = true.
Proof. reflexivity. Qed.

Lemma all_chars_replaced s :
  all_chars name_char
    (map_chars (fun c => if name_char c then c else "_"%char) s) = true.
Proof.
  induction s as [|c s IH]; simpl; auto.
  rewrite IH, andb_true_r.
  destruct (name_char c) eqn:Hc; auto.
Qed.

Lemma map_chars_allowed s :
  all_chars name_char s = true ->
  map_chars (fun c => if name_char c then c else "_"%char) s = s.
Proof.
  induction s as [|c s IH]; simpl; auto.
  intros H. apply andb_prop in H as [Hc Hs]. now rewrite Hc, IH.
Qed.

Lemma map_chars_nonempty f s : s <> "" -> map_chars f s <> "".
Proof. destruct s; simpl; [congruence | discriminate]. Qed.

Lemma sanitize_name_constrained name :
  name <> "" -> name_constrained (sanitize_name name).
Proof.
  intros Hne. unfold sanitize_name. repeat split.
  - destruct name as [|c s]; [congruence|]. simpl. discriminate.
  - apply take_length.
  - apply all_chars_take, all_chars_replaced.
Qed.

Lemma or_str_default_nonempty a d : d <> "" -> or_str_default a d <> "".
Proof.
  intros Hd. destruct a as [s|]; simpl; auto.
  destruct (s =? "") eqn:E; auto.
  apply String.eqb_neq in E. exact E.
Qed.

Lemma all_chars_app p s t :
  all_chars p (s ++ t) = all_chars p s && all_chars p t.
Proof.
  induction s as [|c s IH]; simpl; auto. now rewrite IH, andb_assoc.
Qed.

Lemma string_of_uint_digits d :
  all_chars (between "0" "9") (NilEmpty.string_of_uint d) = true.
Proof. induction d; simpl; auto. Qed.

Lemma all_chars_weaken (p q : ascii -> bool) s :
  (forall c, p c = true -> q c = true) ->
  all_chars p s = true -> all_chars q s = true.
Proof.
  intros Hpq. induction s as [|c s IH]; simpl; auto.
  intros H. apply andb_prop in H as [Hc Hs]. now rewrite (Hpq c Hc), IH.
Qed.

Lemma placeholder_allowed idx :
  all_chars name_char ("tool-" ++ show_nat idx) = true.
Proof.
  rewrite all_chars_app. simpl.
  apply all_chars_weaken with (p := between "0" "9").
  - intros c Hc. unfold name_char. rewrite Hc.
    now rewrite orb_true_r.
  - apply string_of_uint_digits.
Qed.

Lemma functionDeclaration_name idx tool :
  name_constrained (decl_name (functionDeclaration idx tool)).
Proof.
  unfold functionDeclaration; simpl.
  apply sanitize_name_constrained, or_str_default_nonempty.
  simpl. discriminate.
Qed.

Lemma or_str_falsy a b : truthy_str a = false -> or_str a b = b.
Proof.
  destruct a as [s|]; simpl; auto.
  destruct (s =? ""); simpl; auto. discriminate.
Qed.

Lemma or_str_default_falsy a d : truthy_str a = false -> or_str_default a d = d.
Proof.
  destruct a as [s|]; simpl; auto.
  destruct (s =? ""); simpl; auto. discriminate.
Qed.

Lemma functionDeclaration_nameless idx tool :
  nameless tool ->
  decl_name (functionDeclaration idx tool) = take 64 ("tool-" ++ show_nat idx).
Proof.
  intros (H1 & H2 & H3). unfold functionDeclaration; simpl.
  rewrite (or_str_falsy _ _ H1), (or_str_falsy _ _ H2),
    (or_str_default_falsy _ _ H3).
  unfold sanitize_name. now rewrite map_chars_allowed by apply placeholder_allowed.
Qed.

Lemma functionDeclarations_length ts : forall i,
  List.length (functionDeclarations i ts) = List.length ts.
Proof. induction ts; intros i; simpl; auto. Qed.

Lemma functionDeclarations_nth ts : forall i k,
  nth_error (functionDeclarations i ts) k
  = option_map (functionDeclaration (i + k)) (nth_error ts k).
Proof.
  induction ts as [|t ts IH]; intros i [|k]; simpl; auto.
  - now rewrite Nat.add_0_r.
  - rewrite IH. now replace (S i + k) with (i + S k) by lia.
Qed.

Lemma functionDeclarations_names ts : forall i,
  Forall (fun d => name_constrained (decl_name d)) (functionDeclarations i ts).
Proof.
  induction ts; intros i; simpl; constructor; auto using functionDeclaration_name.
Qed.

(** C7: every tool of a request gets one declaration, in order, and the name
    of every declaration is not empty, has at most 64 characters, and has
    only letters, digits, underscores and hyphens.  A tool with no name in
    any of the places read is declared as [tool-<index>]. *)
Theorem tool_names_constrained (req : AnthropicRequest) (ts : list ToolSpec) :
  tools req = Some ts -> ts <> [] ->
  exists decls,
    request_tools (convertAnthropicToGoogle req) = Some decls
    /\ List.length decls = List.length ts
    /\ Forall (fun d => name_constrained (decl_name d)) decls
    /\ forall idx tool,
         nth_error ts idx = Some tool -> nameless tool ->
         option_map decl_name (nth_error decls idx)
         = Some (take 64 ("tool-" ++ show_nat idx)).
Proof.
  intros Hts Hne. exists (functionDeclarations 0 ts). repeat split.
  - unfold convertAnthropicToGoogle; simpl. rewrite Hts.
    destruct ts; [congruence | reflexivity].
  - apply functionDeclarations_length.
  - apply functionDeclarations_names.
  - intros idx tool Hnth Hnameless.
    rewrite functionDeclarations_nth, Hnth. cbn [option_map Nat.add].
    f_equal. now apply functionDeclaration_nameless.
Qed.

Lemma tool_names_constrained_witness :
  exists decls,
    request_tools (convertAnthropicToGoogle (request_of None [] (Some two_tools)))
    = Some decls
    /\ List.length decls = 2
    /\ Forall (fun d => name_constrained (decl_name d)) decls
    /\ forall idx tool,
         nth_error two_tools idx = Some tool -> nameless tool ->
         option_map decl_name (nth_error decls idx)
         = Some (take 64 ("tool-" ++ show_nat idx)).
Proof.
  apply (tool_names_constrained (request_of None [] (Some two_tools)) two_tools).
  - reflexivity.
  - discriminate.
Defined.

Example tool_names_example :
  map decl_name (functionDeclarations 0 two_tools) = [ "get_weather_"; "tool-1" ].
Proof. reflexivity. Qed.

(* ================================================================= *)
(** * Properties of the response converter *)

Section ResponseConverter.

Variable env : Env.

(** The loop never throws; it appends one block for every usable part, in
    order, and counts the tool calls among them. *)
Lemma convert_parts_total parts : forall acc n st,
  exists blocks n' st',
    convert_parts env parts acc n st = (Ok (acc ++ blocks, n'), st')
    /\ List.length blocks = List.length (filter usable parts).
Proof.
  induction parts as [|part rest IH]; intros acc n st.
  - exists [], n, st. simpl. now rewrite app_nil_r.
  - simpl. unfold usable at 1.
    destruct (text part) as [t|].
    + destruct (thought part); simpl.
      * apply IH.
      * destruct (IH (acc ++ [RText t]) n st) as (bs & n' & st' & E & L).
        exists (RText t :: bs), n', st'. split.
        -- rewrite E. now rewrite <- app_assoc.
        -- simpl. now rewrite L.
    + destruct (functionCall part) as [call|]; [|apply IH].
      unfold bind.
      destruct (truthy_str (call_id call)); simpl.
      * match goal with
        | |- context [convert_parts env rest (acc ++ [?b]) ?m ?s] =>
            destruct (IH (acc ++ [b]) m s) as (bs & n' & st' & E & L);
            exists (b :: bs), n', st'
        end.
        split; [rewrite E; now rewrite <- app_assoc | simpl; now rewrite L].
      * match goal with
        | |- context [convert_parts env rest (acc ++ [?b]) ?m ?s] =>
            destruct (IH (acc ++ [b]) m s) as (bs & n' & st' & E & L);
            exists (b :: bs), n', st'
        end.
        split; [rewrite E; now rewrite <- app_assoc | simpl; now rewrite L].
Qed.

Lemma thought_text_not_usable parts :
  Forall thought_text parts -> filter usable parts = [].
Proof.
  induction 1 as [|p ps [[t Ht] Hth] _ IH]; simpl; auto.
  unfold usable. now rewrite Ht, Hth.
Qed.

(** The content of the response that is returned. *)
Lemma convertGoogleToAnthropic_content googleResponse model st :
  exists blocks r st',
    convertGoogleToAnthropic env googleResponse model st = (Ok r, st')
    /\ List.length blocks
       = List.length (filter usable (parts_of googleResponse))
    /\ message_content r
       = match blocks with [] => [RText ""] | _ => blocks end.
Proof.
  unfold convertGoogleToAnthropic, bind.
  destruct (convert_parts_total (parts_of googleResponse) [] 0 st)
    as (bs & n' & st' & E & L).
  rewrite E. simpl. exists bs. eexists. eexists. split; [reflexivity|].
  split; [exact L | reflexivity].
Qed.

(** C8: every backend response is converted, and the content of the result
    is never empty.  When no part of the backend response is usable, as
    when every part is a thought-marked text, the content is the single
    empty text block. *)
Theorem response_content_nonempty (googleResponse : GoogleResponse)
  (model : option string) (st : State) :
  exists r st',
    convertGoogleToAnthropic env googleResponse model st = (Ok r, st')
    /\ message_content r <> []
    /\ (filter usable (parts_of googleResponse) = [] ->
        message_content r = [RText ""])
    /\ (Forall thought_text (parts_of googleResponse) ->
        message_content r = [RText ""]).
Proof.
  destruct (convertGoogleToAnthropic_content googleResponse model st)
    as (bs & r & st' & E & L & C).
  exists r, st'. split; [exact E|].
  assert (Hempty : filter usable (parts_of googleResponse) = [] ->
                   message_content r = [RText ""]).
  { intros H0. rewrite H0 in L. destruct bs; [exact C | discriminate]. }
  repeat split.
  - rewrite C. destruct bs; discriminate.
  - exact Hempty.
  - intros H. apply Hempty. now apply thought_text_not_usable.
Qed.

End ResponseConverter.

Lemma response_content_nonempty_witness :
  exists r st',
    convertGoogleToAnthropic (world no_discovery no_generation)
      (response_with_parts [thought_part "pondering"; thought_part "more"])
      (Some "claude-sonnet-4-5") initial_state = (Ok r, st')
    /\ message_content r <> []
    /\ message_content r = [RText ""].
Proof.
  destruct (response_content_nonempty (world no_discovery no_generation)
              (response_with_parts [thought_part "pondering"; thought_part "more"])
              (Some "claude-sonnet-4-5") initial_state)
    as (r & st' & E & Hne & Hnone & Hthought).
  exists r, st'. split; [exact E | split; [exact Hne |]].
  apply Hthought. repeat constructor; eexists; reflexivity.
Defined.

(* ================================================================= *)
(** * Round trip of a tool call *)

Lemma truthy_str_Some s : s <> "" -> truthy_str (Some s) = true.
Proof.
  intros H. simpl. destruct (s =? "") eqn:E; auto.
  apply String.eqb_eq in E. congruence.
Qed.

(** C5: a [tool_use] block with a name, an object as input and an id goes to
    the backend as one function-call part with that name and that input, and
    the part comes back as one [tool_use] block with the same name and the
    same input.  When the model of the request is in the Claude-compatible
    family and the id is not the empty string, the block that comes back has
    the id of the block that went out. *)
Theorem tool_use_round_trip (env : Env) (m : option string)
  (id name : string) (fields : list (string * JSON))
  (model' : option string) (st : State) :
  let block := BToolUse (Some id) (Some name) (Some (JObj fields)) in
  exists call r st' id',
    contents (convertAnthropicToGoogle (request_with_block m block))
    = [ {| content_role := "model"; parts := [ call_part call ] |} ]
    /\ call_name call = Some name
    /\ call_args call = Some (JObj fields)
    /\ convertGoogleToAnthropic env (response_with_parts [ call_part call ])
         model' st
       = (Ok r, st')
    /\ message_content r = [ RToolUse id' (Some name) (JObj fields) ]
    /\ (isClaudeModel (request_with_block m block) = true ->
        id <> "" -> id' = id).
Proof.
  intros block. subst block.
  unfold convertAnthropicToGoogle, request_with_block; simpl.
  set (claude := isClaudeModel _).
  destruct claude, (id =? "") eqn:Hid; simpl.
  all: eexists; eexists; eexists; eexists.
  all: split; [reflexivity|].
  all: split; [reflexivity|]; split; [reflexivity|].
  all: unfold convertGoogleToAnthropic, bind; simpl; rewrite ?Hid; simpl.
  all: split; [reflexivity|]; split; [reflexivity|].
  all: try discriminate.
  - intros _ Hne. apply String.eqb_eq in Hid. contradiction.
  - reflexivity.
Qed.

Lemma tool_use_round_trip_witness :
  exists call r st' id',
    contents (convertAnthropicToGoogle
                (request_with_block (Some "claude-sonnet-4-5") weather_call))
    = [ {| content_role := "model"; parts := [ call_part call ] |} ]
    /\ convertGoogleToAnthropic (world no_discovery no_generation)
         (response_with_parts [ call_part call ]) (Some "claude-sonnet-4-5")
         initial_state
       = (Ok r, st')
    /\ message_content r
       = [ RToolUse id' (Some "get_weather")
             (JObj [ ("location", JStr "Paris"); ("days", JNum (3 # 1)) ]) ]
    /\ id' = "toolu_01A09q90qw90lq917835lq9".
Proof.
  destruct (tool_use_round_trip (world no_discovery no_generation)
              (Some "claude-sonnet-4-5") "toolu_01A09q90qw90lq917835lq9"
              "get_weather"
              [ ("location", JStr "Paris"); ("days", JNum (3 # 1)) ]
              (Some "claude-sonnet-4-5") initial_state)
    as (call & r & st' & id' & Hc & _ & _ & Hr & Hm & Hid).
  exists call, r, st', id'. split; [exact Hc|]. split; [exact Hr|].
  split; [exact Hm|]. apply Hid; [reflexivity | discriminate].
Defined.

(* ================================================================= *)
(** * The Claude-compatible family *)

Lemma lower_char_cases (c : ascii) :
  let l := if between "A" "Z" c then ascii_of_nat (nat_of_ascii c + 32) else c in
  (between "A" "Z" c = false /\ l = c)
  \/ (between "A" "Z" c = true /\ between "a" "z" l = true /\ c = upper_of l).
Proof.
  destruct c as [[] [] [] [] [] [] [] []]; vm_compute;
    first [ left; split; reflexivity | right; repeat split; reflexivity ].
Qed.

Lemma lower_of_upper (c : ascii) :
  between "a" "z" c = true ->
  between "A" "Z" (upper_of c) = true
  /\ ascii_of_nat (nat_of_ascii (upper_of c) + 32) = c.
Proof.
  destruct c as [[] [] [] [] [] [] [] []]; vm_compute;
    first [ discriminate | split; reflexivity ].
Qed.

Lemma lower_letter_not_upper (c : ascii) :
  between "a" "z" c = true -> between "A" "Z" c = false.
Proof.
  destruct c as [[] [] [] [] [] [] [] []]; vm_compute;
    first [ discriminate | reflexivity ].
Qed.

Lemma toLowerCase_app s t :
  toLowerCase (s ++ t) = (toLowerCase s ++ toLowerCase t)%string.
Proof.
  unfold toLowerCase. induction s as [|c s IH]; simpl; auto. now rewrite IH.
Qed.

Lemma toLowerCase_split s : forall a b,
  toLowerCase s = (a ++ b)%string ->
  exists s1 s2, s = (s1 ++ s2)%string /\ toLowerCase s1 = a /\ toLowerCase s2 = b.
Proof.
  unfold toLowerCase.
  induction s as [|c s IH]; intros [|x a] b H; simpl in *.
  - exists "", "". auto.
  - discriminate.
  - exists "", (String c s). auto.
  - injection H as Hx Hs. destruct (IH a b Hs) as (s1 & s2 & E & H1 & H2).
    exists (String c s1), s2. simpl. subst. auto.
Qed.

Lemma same_ignoring_case_lower pattern :
  all_chars (between "a" "z") pattern = true ->
  forall s, same_ignoring_case s pattern <-> toLowerCase s = pattern.
Proof.
  unfold toLowerCase.
  induction pattern as [|p pattern IH]; simpl; intros Hp s.
  - split.
    + inversion 1; reflexivity.
    + destruct s; simpl; [constructor | discriminate].
  - apply andb_prop in Hp as [Hp Hrest]. specialize (IH Hrest). split.
    + inversion 1; subst; simpl.
      * rewrite (lower_letter_not_upper p Hp). f_equal. now apply IH.
      * destruct (lower_of_upper p Hp) as [Hu Hl]. rewrite Hu, Hl.
        f_equal. now apply IH.
    + destruct s as [|c s]; simpl; [discriminate|].
      intros H. injection H as Hc Hs. apply IH in Hs.
      destruct (lower_char_cases c) as [[Hn Hl] | (Hu & Hl & Hc')]; simpl in *.
      * rewrite Hn in Hc. subst. now constructor.
      * rewrite Hu in Hc, Hl, Hc'. rewrite Hc in Hc', Hl. rewrite Hc'.
        now constructor.
Qed.

Lemma prefix_app t : forall s,
  prefix t s = true <-> exists after, s = (t ++ after)%string.
Proof.
  induction t as [|c t IH]; intros s; simpl.
  - split; [exists s; reflexivity | now destruct s].
  - destruct s as [|c' s].
    + split; [discriminate | intros [a Ha]; discriminate].
    + simpl. destruct (ascii_dec c c') as [->|Hne].
      * rewrite IH. split; intros [a Ha]; exists a; [now subst | now injection Ha].
      * split; [discriminate | intros [a Ha]; injection Ha; congruence].
Qed.

Lemma includes_app t : forall s,
  includes t s = true <-> exists before after, s = (before ++ t ++ after)%string.
Proof.
  induction s as [|c s IH]; cbn [includes].
  - rewrite orb_false_r, prefix_app. split.
    + intros [a Ha]. exists "", a. exact Ha.
    + intros (b & a & H). destruct b; simpl in H; [now exists a | discriminate].
  - rewrite orb_true_iff, prefix_app, IH. split.
    + intros [[a Ha] | (b & a & H)].
      * exists "", a. exact Ha.
      * exists (String c b), a. simpl. now rewrite H.
    + intros (b & a & H). destruct b as [|c' b]; simpl in H.
      * left. now exists a.
      * right. injection H as _ H. now exists b, a.
Qed.

Lemma or_str_default_empty s : or_str_default (Some s) "" = s.
Proof.
  simpl. destruct (s =? "") eqn:E; auto.
  apply String.eqb_eq in E. now subst.
Qed.

Lemma claude_lower : all_chars (between "a" "z") "claude" = true.
Proof. reflexivity. Qed.

(** The test of the code is the containment of the specification. *)
Lemma isClaudeModel_family (req : AnthropicRequest) :
  isClaudeModel req = true <-> claude_family (model req).
Proof.
  unfold isClaudeModel, claude_family.
  destruct (model req) as [s|].
  - rewrite or_str_default_empty, includes_app. split.
    + intros (b & a & H).
      apply toLowerCase_split in H as (s1 & s2 & -> & _ & H2).
      apply toLowerCase_split in H2 as (mid & s3 & -> & Hmid & _).
      exists (s1 ++ mid ++ s3)%string. split; [reflexivity|].
      exists s1, mid, s3. split; [reflexivity|].
      now apply (same_ignoring_case_lower "claude" claude_lower).
    + intros (s' & Hs & before & mid & after & -> & Hmid).
      injection Hs as ->.
      apply (same_ignoring_case_lower "claude" claude_lower) in Hmid.
      exists (toLowerCase before), (toLowerCase after).
      now rewrite !toLowerCase_app, Hmid.
  - simpl. split; [discriminate | intros (s & Hs & _); discriminate].
Qed.

Lemma contents_convertAnthropicToGoogle (req : AnthropicRequest) :
  contents (convertAnthropicToGoogle req)
  = map (content_for (isClaudeModel req)) (messages req).
Proof. reflexivity. Qed.

Lemma part_id_of_block (claude : bool) (block : ContentBlock) (part : Part) :
  In part (block_parts claude block) ->
  part_id part = if claude then block_id block else None.
Proof.
  destruct block as [t | src | src | id name input | tid c | th | | ty];
    simpl; try tauto.
  - intros [<- | []]. now destruct claude.
  - unfold media_parts.
    destruct (source_is src "base64"); [intros [<- | []]; now destruct claude|].
    destruct (source_is src "url"); [intros [<- | []]; now destruct claude|].
    intros [].
  - unfold media_parts.
    destruct (source_is src "base64"); [intros [<- | []]; now destruct claude|].
    destruct (source_is src "url"); [intros [<- | []]; now destruct claude|].
    intros [].
  - intros [<- | []]. destruct claude, (truthy_str id); reflexivity.
  - intros [<- | []]. destruct claude, (truthy_str tid); reflexivity.
  - destruct claude; simpl; [intros [] | intros [<- | []]; reflexivity].
Qed.

Lemma block_parts_insensitive (block : ContentBlock) :
  family_sensitive block = false ->
  block_parts true block = block_parts false block.
Proof.
  destruct block; simpl; try reflexivity; try discriminate.
  - intros ->. reflexivity.
  - intros ->. reflexivity.
Qed.

(** C10: the family flag of a request is set exactly when the model string
    of the request is there and contains [claude] in any case of letters;
    a request without a model has the flag unset.  The contents sent to the
    backend are those of the messages under that flag, also in the payload
    that carries the mapped model name, so that two requests with the same
    messages whose model strings agree on containing [claude] have the same
    contents.  Under the flag a function-call or function-response part
    carries the id of its block and a thinking block gives no part; without
    it no part carries an id and a thinking block gives a thought-marked
    text; no other block is converted differently. *)
Theorem claude_family_decides (req : AnthropicRequest) :
  (isClaudeModel req = true <-> claude_family (model req))
  /\ (model req = None -> isClaudeModel req = false)
  /\ contents (convertAnthropicToGoogle req)
     = map (content_for (isClaudeModel req)) (messages req)
  /\ (forall env project st,
        exists payload st',
          buildCloudCodeRequest env req project st = (Ok payload, st')
          /\ payload_model payload = mapModelName (model req)
          /\ contents (request payload)
             = map (content_for (isClaudeModel req)) (messages req))
  /\ (forall req',
        messages req' = messages req ->
        (claude_family (model req') <-> claude_family (model req)) ->
        contents (convertAnthropicToGoogle req')
        = contents (convertAnthropicToGoogle req))
  /\ (forall claude block part,
        In part (block_parts claude block) ->
        part_id part = if claude then block_id block else None)
  /\ (forall thinking,
        block_parts true (BThinking thinking) = []
        /\ block_parts false (BThinking thinking) = [thought_part thinking])
  /\ (forall block,
        family_sensitive block = false ->
        block_parts true block = block_parts false block).
Proof.
  split; [apply isClaudeModel_family|].
  split.
  { intros H. unfold isClaudeModel. now rewrite H. }
  split; [reflexivity|].
  split.
  { intros env project st. eexists. eexists.
    unfold buildCloudCodeRequest, bind; simpl.
    split; [reflexivity|]. split; reflexivity. }
  split.
  { intros req' Hm Hfam.
    rewrite !contents_convertAnthropicToGoogle, Hm.
    replace (isClaudeModel req') with (isClaudeModel req); [reflexivity|].
    pose proof (isClaudeModel_family req) as H.
    pose proof (isClaudeModel_family req') as H'.
    destruct (isClaudeModel req), (isClaudeModel req'); auto.
    - symmetry. apply H'. apply Hfam. now apply H.
    - apply H. apply Hfam. now apply H'. }
  split; [apply part_id_of_block|].
  split; [intros; split; reflexivity|].
  apply block_parts_insensitive.
Qed.

(** The handler of [POST /v1/messages] gives every request a model before the
    converter sees it: a body without a model is sent on with the default
    model, which is in the family. *)
Remark messages_request_default_model (body : AnthropicRequest) :
  model body = None ->
  model (messages_request body) = Some "claude-3-5-sonnet-20241022"
  /\ isClaudeModel (messages_request body) = true.
Proof.
  intros H. unfold isClaudeModel, messages_request; simpl. rewrite H.
  split; reflexivity.
Qed.

Lemma claude_family_decides_witness :
  isClaudeModel (request_with_block (Some "My-CLAUDE-x") weather_call) = true
  /\ isClaudeModel (request_with_block None weather_call) = false.
Proof.
  split.
  - apply (proj1 (claude_family_decides
                    (request_with_block (Some "My-CLAUDE-x") weather_call))).
    exists "My-CLAUDE-x". split; [reflexivity|].
    exists "My-", "CLAUDE", "-x". split; [reflexivity|].
    apply (same_upper "c"); [reflexivity|].
    apply (same_upper "l"); [reflexivity|].
    apply (same_upper "a"); [reflexivity|].
    apply (same_upper "u"); [reflexivity|].
    apply (same_upper "d"); [reflexivity|].
    apply (same_upper "e"); [reflexivity|].
    constructor.
  - apply (proj1 (proj2 (claude_family_decides
                           (request_with_block None weather_call)))).
    reflexivity.
Defined.

(* ================================================================= *)
(** * Properties of the stream synthesizer *)

Lemma text_deltas_lt blockIndex text i :
  i < String.length text ->
  text_deltas blockIndex text i
  = content_block_delta blockIndex
      (text_delta (slice i (i + STREAMING_CHUNK_SIZE) text))
    :: text_deltas blockIndex text (i + STREAMING_CHUNK_SIZE).
Proof.
  intros H. rewrite text_deltas_equation_1.
  destruct (lt_dec i (String.length text)); [reflexivity | contradiction].
Qed.

Lemma text_deltas_ge blockIndex text i :
  String.length text <= i -> text_deltas blockIndex text i = [].
Proof.
  intros H. rewrite text_deltas_equation_1.
  destruct (lt_dec i (String.length text)); [lia | reflexivity].
Qed.

Example text_deltas_example :
  text_deltas 0 "The weather in Paris is mild today, with light rain." 0
  = [ content_block_delta 0 (text_delta "The weather in Paris");
      content_block_delta 0 (text_delta " is mild today, with");
      content_block_delta 0 (text_delta " light rain.") ].
Proof. reflexivity. Qed.

Lemma take_drop n : forall s, (take n s ++ drop n s)%string = s.
Proof.
  induction n as [|n IH]; intros [|c s]; simpl; auto. now rewrite IH.
Qed.

Lemma drop_add n : forall m s, drop (n + m) s = drop m (drop n s).
Proof.
  induction n as [|n IH]; intros m s; simpl; auto.
  destruct s as [|c s]; simpl; auto. now destruct m.
Qed.

Lemma drop_all n : forall s, String.length s <= n -> drop n s = "".
Proof.
  induction n as [|n IH]; intros [|c s]; simpl; auto; try lia.
  intros H. apply IH. lia.
Qed.

Lemma append_empty_r s : (s ++ "")%string = s.
Proof. induction s as [|c s IH]; simpl; auto. now rewrite IH. Qed.

Lemma concat_empty_cons t ts :
  String.concat "" (t :: ts) = (t ++ String.concat "" ts)%string.
Proof. destruct ts; simpl; auto. now rewrite append_empty_r. Qed.

Lemma ceil_div_zero c : 0 < c -> ceil_div 0 c = 0.
Proof. intros H. unfold ceil_div. apply Nat.div_small. lia. Qed.

Lemma ceil_div_step l c : 0 < c -> 0 < l -> ceil_div l c = S (ceil_div (l - c) c).
Proof.
  intros Hc Hl. unfold ceil_div.
  destruct (le_lt_dec c l) as [Hle | Hlt].
  - replace (l + c - 1) with ((l - c + c - 1) + 1 * c) by lia.
    rewrite Nat.div_add by lia. lia.
  - replace (l - c) with 0 by lia. simpl.
    rewrite (Nat.div_small (c - 1) c) by lia.
    symmetry. apply Nat.div_unique with (r := l - 1). lia. lia.
Qed.

(** [ceil_div l c] is the least number of chunks of [c] characters that hold
    [l] characters. *)
Lemma ceil_div_least l c :
  0 < c ->
  l <= ceil_div l c * c /\ forall n, l <= n * c -> ceil_div l c <= n.
Proof.
  intros Hc. unfold ceil_div. split.
  - pose proof (Nat.div_mod_eq (l + c - 1) c) as E.
    pose proof (Nat.mod_upper_bound (l + c - 1) c) as B. nia.
  - intros n Hn.
    assert (H : (l + c - 1) / c < S n); [|lia].
    apply Nat.Div0.div_lt_upper_bound. nia.
Qed.

(** The loop yields one text delta of its block for every chunk, and the
    chunks are the text from [i] on, cut every [STREAMING_CHUNK_SIZE]
    characters. *)
Lemma text_deltas_chunks blockIndex text : forall n i,
  String.length text - i <= n ->
  exists ts,
    text_deltas blockIndex text i = map (text_event blockIndex) ts
    /\ String.concat "" ts = drop i text
    /\ List.length ts
       = ceil_div (String.length text - i) STREAMING_CHUNK_SIZE.
Proof.
  assert (Hc : 0 < STREAMING_CHUNK_SIZE) by (unfold STREAMING_CHUNK_SIZE; lia).
  induction n as [|n IH]; intros i Hn.
  - exists []. rewrite text_deltas_ge by lia.
    rewrite drop_all by lia.
    replace (String.length text - i) with 0 by lia.
    now rewrite ceil_div_zero.
  - destruct (le_lt_dec (String.length text) i) as [Hge | Hlt].
    + exists []. rewrite text_deltas_ge by lia.
      rewrite drop_all by lia.
      replace (String.length text - i) with 0 by lia.
      now rewrite ceil_div_zero.
    + destruct (IH (i + STREAMING_CHUNK_SIZE)) as (ts & E & Hcat & Hlen);
        [lia|].
      exists (slice i (i + STREAMING_CHUNK_SIZE) text :: ts).
      rewrite text_deltas_lt by exact Hlt. rewrite E. repeat split.
      * rewrite concat_empty_cons, Hcat. unfold slice.
        replace (i + STREAMING_CHUNK_SIZE - i) with STREAMING_CHUNK_SIZE by lia.
        rewrite drop_add. apply take_drop.
      * cbn [List.length]. rewrite Hlen.
        rewrite (ceil_div_step (String.length text - i)) by lia.
        do 2 f_equal. lia.
Qed.

Lemma starts_app l1 l2 : starts (l1 ++ l2) = starts l1 ++ starts l2.
Proof.
  induction l1 as [|e l1 IH]; simpl; auto. destruct e; simpl; now rewrite ?IH.
Qed.

Lemma stops_app l1 l2 : stops (l1 ++ l2) = stops l1 ++ stops l2.
Proof.
  induction l1 as [|e l1 IH]; simpl; auto. destruct e; simpl; now rewrite ?IH.
Qed.

Lemma deltas_at_app k l1 l2 :
  deltas_at k (l1 ++ l2) = deltas_at k l1 ++ deltas_at k l2.
Proof.
  induction l1 as [|e l1 IH]; simpl; auto.
  destruct e; simpl; rewrite ?IH; auto.
  destruct (index =? k)%nat; simpl; now rewrite ?IH.
Qed.

Lemma starts_deltas k ds : starts (map (content_block_delta k) ds) = [].
Proof. induction ds; simpl; auto. Qed.

Lemma stops_deltas k ds : stops (map (content_block_delta k) ds) = [].
Proof. induction ds; simpl; auto. Qed.

Lemma message_start_deltas k ds :
  filter is_message_start (map (content_block_delta k) ds) = [].
Proof. induction ds; simpl; auto. Qed.

Lemma message_stop_deltas k ds :
  filter is_message_stop (map (content_block_delta k) ds) = [].
Proof. induction ds; simpl; auto. Qed.

Lemma deltas_at_deltas k' k ds :
  deltas_at k' (map (content_block_delta k) ds)
  = if (k =? k')%nat then ds else [].
Proof.
  induction ds as [|d ds IH]; simpl.
  - now destruct (k =? k')%nat.
  - rewrite IH. now destruct (k =? k')%nat.
Qed.

Lemma delta_texts_text ts : delta_texts (map text_delta ts) = Some ts.
Proof. induction ts as [|t ts IH]; simpl; auto. now rewrite IH. Qed.

Section StreamProperties.

Variable stringify : JSON -> string.

(** The events of a block are a start, deltas and a stop with the index of
    the block; a text block has one text delta for every chunk of its
    text, a tool call has one delta with its whole input. *)
Lemma block_events_bracket k block :
  exists ds,
    block_events stringify k block = bracket k (start_of block) ds
    /\ match block with
       | RText text =>
           exists ts,
             ds = map text_delta ts
             /\ String.concat "" ts = text
             /\ List.length ts
                = ceil_div (String.length text) STREAMING_CHUNK_SIZE
       | RToolUse _ _ input => ds = [ input_json_delta (stringify input) ]
       end.
Proof.
  destruct block as [text | id name input].
  - destruct (text_deltas_chunks k text (String.length text) 0)
      as (ts & E & Hcat & Hlen); [lia|].
    exists (map text_delta ts). split.
    + unfold block_events, bracket. rewrite E, map_map. reflexivity.
    + exists ts. rewrite Nat.sub_0_r in Hlen. auto.
  - exists [ input_json_delta (stringify input) ]. split; reflexivity.
Qed.

Lemma starts_bracket k b ds : starts (bracket k b ds) = [(k, b)].
Proof.
  unfold bracket. cbn [starts]. now rewrite starts_app, starts_deltas.
Qed.

Lemma stops_bracket k b ds : stops (bracket k b ds) = [k].
Proof.
  unfold bracket. cbn [stops]. now rewrite stops_app, stops_deltas.
Qed.

Lemma deltas_at_bracket k' k b ds :
  deltas_at k' (bracket k b ds) = if (k =? k')%nat then ds else [].
Proof.
  unfold bracket. cbn [deltas_at].
  rewrite deltas_at_app, deltas_at_deltas. simpl.
  destruct (k =? k')%nat; auto using app_nil_r.
Qed.

Lemma message_start_bracket k b ds :
  filter is_message_start (bracket k b ds) = [].
Proof.
  unfold bracket. cbn [filter is_message_start].
  now rewrite filter_app, message_start_deltas.
Qed.

Lemma message_stop_bracket k b ds :
  filter is_message_stop (bracket k b ds) = [].
Proof.
  unfold bracket. cbn [filter is_message_stop].
  now rewrite filter_app, message_stop_deltas.
Qed.

(** A start in the events of a block is their first event, and the stop of
    the block comes after it. *)
Lemma bracket_start_then_stop k b ds pre post i cb :
  bracket k b ds = pre ++ content_block_start i cb :: post ->
  In (content_block_stop i) post.
Proof.
  unfold bracket. destruct pre as [|e pre]; simpl; intros H.
  - injection H as -> -> <-. apply in_or_app. right. now left.
  - injection H as _ H. exfalso.
    assert (Hs : starts (map (content_block_delta k) ds
                         ++ [content_block_stop k]) = []).
    { now rewrite starts_app, starts_deltas. }
    rewrite H, starts_app in Hs. simpl in Hs.
    destruct (starts pre); discriminate.
Qed.

Lemma starts_content_events content : forall j,
  starts (content_events stringify j content)
  = numbered j (map start_of content).
Proof.
  induction content as [|b rest IH]; intros j; simpl; auto.
  destruct (block_events_bracket j b) as (ds & -> & _).
  now rewrite starts_app, starts_bracket, IH.
Qed.

Lemma stops_content_events content : forall j,
  stops (content_events stringify j content) = seq j (List.length content).
Proof.
  induction content as [|b rest IH]; intros j; simpl; auto.
  destruct (block_events_bracket j b) as (ds & -> & _).
  now rewrite stops_app, stops_bracket, IH.
Qed.

Lemma message_start_content_events content : forall j,
  filter is_message_start (content_events stringify j content) = [].
Proof.
  induction content as [|b rest IH]; intros j; simpl; auto.
  destruct (block_events_bracket j b) as (ds & -> & _).
  now rewrite filter_app, message_start_bracket, IH.
Qed.

Lemma message_stop_content_events content : forall j,
  filter is_message_stop (content_events stringify j content) = [].
Proof.
  induction content as [|b rest IH]; intros j; simpl; auto.
  destruct (block_events_bracket j b) as (ds & -> & _).
  now rewrite filter_app, message_stop_bracket, IH.
Qed.

Lemma content_events_start_then_stop content : forall j pre post i cb,
  content_events stringify j content
  = pre ++ content_block_start i cb :: post ->
  In (content_block_stop i) post.
Proof.
  induction content as [|b rest IH]; intros j pre post i cb H; simpl in H.
  - destruct pre; discriminate.
  - destruct (block_events_bracket j b) as (ds & E & _). rewrite E in H.
    apply app_eq_app in H as [m [[H1 H2] | [H1 H2]]].
    + destruct m as [|e m]; simpl in H2.
      * now apply (IH (S j) [] post i cb).
      * injection H2 as <- ->.
        apply in_or_app. left.
        now apply (bracket_start_then_stop j (start_of b) ds pre m i cb).
    + now apply (IH (S j) m post i cb).
Qed.

Lemma deltas_at_before content : forall j k,
  k < j -> deltas_at k (content_events stringify j content) = [].
Proof.
  induction content as [|b rest IH]; intros j k Hk; simpl; auto.
  destruct (block_events_bracket j b) as (ds & -> & _).
  rewrite deltas_at_app, deltas_at_bracket, IH by lia.
  destruct (Nat.eqb_spec j k); [lia | reflexivity].
Qed.

Lemma deltas_at_content_events content : forall j n b,
  nth_error content n = Some b ->
  deltas_at (j + n) (content_events stringify j content)
  = deltas_of_block stringify (j + n) b.
Proof.
  induction content as [|b' rest IH]; intros j n b Hn.
  - destruct n; discriminate.
  - simpl. rewrite deltas_at_app. destruct n as [|n]; simpl in Hn.
    + injection Hn as ->. rewrite Nat.add_0_r.
      rewrite deltas_at_before by lia. now rewrite app_nil_r.
    + destruct (block_events_bracket j b') as (ds & -> & _).
      rewrite deltas_at_bracket.
      destruct (Nat.eqb_spec j (j + S n)); [lia|]. simpl.
      replace (j + S n) with (S j + n) by lia. now apply IH.
Qed.

(** C3: the stream of a response opens with its only [message_start] and
    closes with its only [message_stop]; the [content_block_start] events
    are those of the content blocks in their order, text and tool calls
    alike, numbered 0, 1, 2, ...; the [content_block_stop] events carry
    the same numbers in the same order; and after every
    [content_block_start] comes a [content_block_stop] with its index. *)
Theorem stream_well_formed (fullResponse : AnthropicResponse) :
  let events := stream_events stringify fullResponse in
  let n := List.length (message_content fullResponse) in
  (exists rest,
      events = message_start (message_id fullResponse)
                 (message_model fullResponse)
                 (input_tokens (usage fullResponse)) :: rest)
  /\ List.length (filter is_message_start events) = 1
  /\ (exists front, events = front ++ [message_stop])
  /\ List.length (filter is_message_stop events) = 1
  /\ starts events = numbered 0 (map start_of (message_content fullResponse))
  /\ map fst (starts events) = seq 0 n
  /\ stops events = seq 0 n
  /\ (forall pre post i cb,
        events = pre ++ content_block_start i cb :: post ->
        In (content_block_stop i) post).
Proof.
  intros events n. subst events n. unfold stream_events.
  set (content := message_content fullResponse).
  assert (Hstarts : starts (content_events stringify 0 content
                            ++ [message_delta (stop_reason fullResponse)
                                  (stop_sequence fullResponse)
                                  (output_tokens (usage fullResponse));
                                message_stop])
                    = numbered 0 (map start_of content)).
  { rewrite starts_app, starts_content_events. simpl. apply app_nil_r. }
  split; [eexists; reflexivity|].
  split.
  { cbn [filter is_message_start].
    rewrite filter_app, message_start_content_events. reflexivity. }
  split.
  { eexists (_ :: _ ++ [_]). cbn [app]. rewrite <- app_assoc. reflexivity. }
  split.
  { cbn [filter is_message_stop].
    rewrite filter_app, message_stop_content_events. reflexivity. }
  split; [cbn [starts]; exact Hstarts|].
  split.
  { cbn [starts]. rewrite Hstarts. clear Hstarts.
    generalize 0. induction content as [|b rest IH]; intros j; simpl; auto.
    now rewrite IH. }
  split.
  { cbn [stops]. rewrite stops_app, stops_content_events. simpl.
    apply app_nil_r. }
  intros pre post i cb H.
  destruct pre as [|e pre]; [discriminate|].
  simpl in H. injection H as _ H.
  apply app_eq_app in H as [m [[H1 H2] | [H1 H2]]].
  - destruct m as [|e' m]; [discriminate|].
    simpl in H2. injection H2 as <- ->.
    apply in_or_app. left.
    now apply (content_events_start_then_stop content 0 pre m i cb).
  - exfalso.
    assert (Hs : starts (m ++ content_block_start i cb :: post) = []).
    { now rewrite <- H2. }
    rewrite starts_app in Hs. simpl in Hs.
    destruct (starts m); discriminate.
Qed.

(** C4: the deltas that the stream carries for a text block are text
    deltas, as many as the length of the text divided by
    [STREAMING_CHUNK_SIZE] and rounded up, and their texts put together in
    the order of the stream are the text of the block. *)
Theorem text_block_chunks (fullResponse : AnthropicResponse) (k : nat)
  (text : string) :
  nth_error (message_content fullResponse) k = Some (RText text) ->
  exists ts,
    deltas_at k (stream_events stringify fullResponse) = map text_delta ts
    /\ List.length ts = ceil_div (String.length text) STREAMING_CHUNK_SIZE
    /\ String.concat "" ts = text.
Proof.
  intros Hk. unfold stream_events. cbn [deltas_at].
  rewrite deltas_at_app. cbn [deltas_at]. rewrite app_nil_r.
  pose proof (deltas_at_content_events _ 0 k (RText text) Hk) as E.
  cbn [Nat.add] in E. rewrite E. unfold deltas_of_block.
  destruct (block_events_bracket k (RText text))
    as (ds & -> & ts & -> & Hcat & Hlen).
  exists ts. rewrite deltas_at_bracket, Nat.eqb_refl. auto.
Qed.

End StreamProperties.

(** [sendMessageStream] yields those events when [sendMessage] returns, and
    throws what [sendMessage] throws before any event. *)
Lemma sendMessageStream_events (stringify : JSON -> string) (env : Env)
  (req : AnthropicRequest) (st : State) :
  sendMessageStream stringify env req st
  = match sendMessage env req st with
    | (Ok fullResponse, st') => (Ok (stream_events stringify fullResponse), st')
    | (Throw e, st') => (Throw e, st')
    end.
Proof. reflexivity. Qed.

Lemma stream_well_formed_witness :
  In (content_block_stop 1)
     (skipn 7 (stream_events sample_stringify (response_of_blocks sample_blocks))).
Proof.
  destruct (stream_well_formed sample_stringify (response_of_blocks sample_blocks))
    as (_ & _ & _ & _ & _ & _ & _ & H).
  apply (H (firstn 6 (stream_events sample_stringify
                        (response_of_blocks sample_blocks)))
           (skipn 7 (stream_events sample_stringify
                       (response_of_blocks sample_blocks)))
           1 (RToolUse "toolu_01" (Some "get_weather") (JObj []))).
  reflexivity.
Defined.

Lemma text_block_chunks_witness :
  exists ts,
    deltas_at 0 (stream_events sample_stringify (response_of_blocks sample_blocks))
    = map text_delta ts
    /\ List.length ts = 3
    /\ String.concat "" ts
       = "The weather in Paris is mild today, with light rain.".
Proof.
  apply (text_block_chunks sample_stringify (response_of_blocks sample_blocks) 0
           "The weather in Paris is mild today, with light rain.").
  reflexivity.
Defined.

Example stream_example :
  stream_events sample_stringify (response_of_blocks sample_blocks)
  = [ message_start "msg_0123456789abcdef0123456789abcdef"
        (Some "claude-sonnet-4-5") 0;
      content_block_start 0 (RText "");
      content_block_delta 0 (text_delta "The weather in Paris");
      content_block_delta 0 (text_delta " is mild today, with");
      content_block_delta 0 (text_delta " light rain.");
      content_block_stop 0;
      content_block_start 1 (RToolUse "toolu_01" (Some "get_weather") (JObj []));
      content_block_delta 1 (input_json_delta "{}");
      content_block_stop 1;
      content_block_start 2 (RText "");
      content_block_stop 2;
      message_delta "end_turn" None 0;
      message_stop ].
Proof. reflexivity. Qed.

(* ================================================================= *)
(** * Properties of the project resolver *)

Section ProjectResolver.

Variable env : Env.

Lemma discovered_nonempty data p : discovered data = Some p -> p <> "".
Proof.
  unfold discovered.
  destruct (cloudaicompanionProject data) as [[s | [id|] | ] | ];
    simpl; try discriminate.
  - destruct (s =? "") eqn:E; [discriminate|].
    intros H. injection H as <-. now apply String.eqb_neq.
  - destruct (id =? "") eqn:E; simpl; [discriminate|].
    intros H. injection H as <-. now apply String.eqb_neq.
Qed.

Lemma DEFAULT_PROJECT_ID_nonempty : DEFAULT_PROJECT_ID <> "".
Proof. discriminate. Qed.

(** The loop always ends with a project that is cached and not empty. *)
Lemma getProject_from_caches token endpoints : forall st,
  exists p st',
    getProject_from env token endpoints st = (Ok p, st')
    /\ cachedProject st' = Some p /\ p <> "".
Proof.
  induction endpoints as [|endpoint rest IH]; intros st.
  - eexists. eexists. split; [reflexivity|].
    split; [reflexivity | apply DEFAULT_PROJECT_ID_nonempty].
  - simpl. unfold bind, fetch_loadCodeAssist.
    destruct (env_loadCodeAssist env (trace st) endpoint token)
      as [e | status txt [data | e]]; try apply IH.
    + destruct (ok status); simpl; try apply IH.
      destruct (discovered data) as [p|] eqn:Hd; try apply IH.
      eexists. eexists. split; [reflexivity|].
      split; [reflexivity | now apply discovered_nonempty with data].
    + destruct (ok status); simpl; apply IH.
Qed.

(** A cached project is returned without any call. *)
Lemma getProject_cached token st p :
  cachedProject st = Some p -> p <> "" -> getProject env token st = (Ok p, st).
Proof.
  intros Hc Hp. unfold getProject. rewrite Hc.
  rewrite (truthy_str_Some p Hp). now rewrite or_str_default_empty.
Qed.

Lemma getProject_caches token st :
  exists p st',
    getProject env token st = (Ok p, st')
    /\ cachedProject st' = Some p /\ p <> "".
Proof.
  unfold getProject.
  destruct (truthy_str (cachedProject st)) eqn:Ht.
  - destruct (cachedProject st) as [p|] eqn:Hc; [|discriminate].
    exists p, st. rewrite or_str_default_empty.
    repeat split; auto. simpl in Ht.
    destruct (p =? "") eqn:E; [discriminate | now apply String.eqb_neq].
  - apply getProject_from_caches.
Qed.

(** When no endpoint yields a project, the loop asks every endpoint and
    ends with the default. *)
Lemma getProject_from_default token endpoints :
  (forall tr endpoint,
      yields (env_loadCodeAssist env tr endpoint token) = None) ->
  forall st,
    getProject_from env token endpoints st
    = (Ok DEFAULT_PROJECT_ID,
       {| cachedProject := Some DEFAULT_PROJECT_ID;
          trace := discovery_calls token endpoints ++ trace st |}).
Proof.
  intros Hnone. unfold discovery_calls.
  induction endpoints as [|endpoint rest IH]; intros st; [reflexivity|].
  simpl. unfold bind, fetch_loadCodeAssist.
  specialize (Hnone (trace st) endpoint). unfold yields in Hnone.
  assert (Hrest : getProject_from env token rest
                    (log (CallLoadCodeAssist endpoint token) st)
                  = (Ok DEFAULT_PROJECT_ID,
                     {| cachedProject := Some DEFAULT_PROJECT_ID;
                        trace := (rev (map (fun e => CallLoadCodeAssist e token)
                                         rest)
                                  ++ [CallLoadCodeAssist endpoint token])
                                 ++ trace st |})).
  { rewrite IH. simpl. now rewrite <- app_assoc. }
  destruct (env_loadCodeAssist env (trace st) endpoint token)
    as [e | status txt [data | e]]; auto.
  - destruct (ok status); simpl; auto. now rewrite Hnone.
  - destruct (ok status); simpl; auto.
Qed.

(** C9: when no endpoint yields a project in the discovery call, the
    resolver asks each of them once, returns the default project without
    failing and caches it.  Whatever the endpoints answer, the project
    that a call returns is cached, and every later call returns it without
    any call to the network, until [clearProjectCache], which empties the
    cache whatever it holds; the next call then asks the endpoints
    again. *)
Theorem project_resolver_default (token : string) (st : State) :
  (forall tr endpoint tok,
      yields (env_loadCodeAssist env tr endpoint tok) = None) ->
  truthy_str (cachedProject st) = false ->
  (exists st',
      getProject env token st = (Ok DEFAULT_PROJECT_ID, st')
      /\ cachedProject st' = Some DEFAULT_PROJECT_ID
      /\ trace st'
         = discovery_calls token ANTIGRAVITY_ENDPOINT_FALLBACKS ++ trace st
      /\ (forall token', getProject env token' st'
                         = (Ok DEFAULT_PROJECT_ID, st'))
      /\ exists st'',
           clearProjectCache st' = (Ok tt, st'')
           /\ getProject env token st''
              = (Ok DEFAULT_PROJECT_ID,
                 {| cachedProject := Some DEFAULT_PROJECT_ID;
                    trace := discovery_calls token
                               ANTIGRAVITY_ENDPOINT_FALLBACKS ++ trace st' |}))
  /\ (forall token0 st0,
        exists p st1,
          getProject env token0 st0 = (Ok p, st1)
          /\ cachedProject st1 = Some p
          /\ forall token', getProject env token' st1 = (Ok p, st1))
  /\ (forall st0,
        clearProjectCache st0
        = (Ok tt, {| cachedProject := None; trace := trace st0 |})).
Proof.
  intros Hnone Hcache. split; [|split].
  - eexists. unfold getProject at 1. rewrite Hcache.
    rewrite getProject_from_default by (intros; apply Hnone).
    split; [reflexivity|]. split; [reflexivity|]. split; [reflexivity|].
    split.
    + intros token'. apply getProject_cached;
        [reflexivity | apply DEFAULT_PROJECT_ID_nonempty].
    + eexists. split; [reflexivity|].
      unfold getProject. cbn [cachedProject truthy_str].
      now rewrite getProject_from_default by (intros; apply Hnone).
  - intros token0 st0.
    destruct (getProject_caches token0 st0) as (p & st1 & E & Hc & Hp).
    exists p, st1. repeat split; auto.
    intros token'. now apply getProject_cached.
  - reflexivity.
Qed.

End ProjectResolver.

Lemma project_resolver_default_witness :
  exists st',
    getProject (world no_discovery no_generation) "token-1" initial_state
    = (Ok DEFAULT_PROJECT_ID, st')
    /\ cachedProject st' = Some DEFAULT_PROJECT_ID
    /\ trace st'
       = [ CallLoadCodeAssist ANTIGRAVITY_ENDPOINT_PROD "token-1";
           CallLoadCodeAssist ANTIGRAVITY_ENDPOINT_AUTOPUSH "token-1";
           CallLoadCodeAssist ANTIGRAVITY_ENDPOINT_DAILY "token-1" ]
    /\ getProject (world no_discovery no_generation) "token-2" st'
       = (Ok DEFAULT_PROJECT_ID, st').
Proof.
  destruct (project_resolver_default (world no_discovery no_generation)
              "token-1" initial_state) as [(st' & E & Hc & Ht & Hagain & _) _].
  - reflexivity.
  - reflexivity.
  - exists st'. repeat split; auto.
Defined.

(* ================================================================= *)
(** * Properties of the endpoint dispatcher *)

Lemma refresh_count_quiet new old :
  forallb quiet new = true -> refresh_count (new ++ old) = refresh_count old.
Proof.
  induction new as [|e new IH]; simpl; auto.
  intros H. apply andb_prop in H as [He Hn]. destruct e; simpl in *; auto.
  discriminate.
Qed.

Lemma generate_calls_quiet new old :
  forallb quiet new = true -> generate_calls (new ++ old) = generate_calls old.
Proof.
  induction new as [|e new IH]; simpl; auto.
  intros H. apply andb_prop in H as [He Hn]. destruct e; simpl in *; auto.
  discriminate.
Qed.

Lemma quiet_step_refl st : quiet_step st st.
Proof. now exists []. Qed.

Lemma quiet_step_trans st1 st2 st3 :
  quiet_step st1 st2 -> quiet_step st2 st3 -> quiet_step st1 st3.
Proof.
  intros (n1 & E1 & Q1) (n2 & E2 & Q2). exists (n2 ++ n1). split.
  - now rewrite E2, E1, app_assoc.
  - now rewrite forallb_app, Q2, Q1.
Qed.

Lemma quiet_step_log e st : quiet e = true -> quiet_step st (log e st).
Proof. intros H. exists [e]. simpl. now rewrite H. Qed.

Lemma quiet_step_refresh_count st st' :
  quiet_step st st' -> refresh_count (trace st') = refresh_count (trace st).
Proof. intros (new & -> & Q). now apply refresh_count_quiet. Qed.

Lemma quiet_step_generate_calls st st' :
  quiet_step st st' -> generate_calls (trace st') = generate_calls (trace st).
Proof. intros (new & -> & Q). now apply generate_calls_quiet. Qed.

Section Dispatcher.

Variable env : Env.

Lemma convert_parts_quiet parts : forall acc n st,
  exists out st',
    convert_parts env parts acc n st = (Ok out, st')
    /\ quiet_step st st' /\ cachedProject st' = cachedProject st.
Proof.
  induction parts as [|part rest IH]; intros acc n st; simpl.
  - exists (acc, n), st. auto using quiet_step_refl.
  - destruct (text part) as [t|].
    + destruct (thought part); apply IH.
    + destruct (functionCall part) as [call|]; [|apply IH].
      unfold bind. destruct (truthy_str (call_id call)); simpl.
      * apply IH.
      * match goal with
        | |- context [convert_parts env rest ?a ?m ?s] =>
            destruct (IH a m s) as (out & st' & E & Q & C)
        end.
        exists out, st'. split; [exact E|]. split; [|exact C].
        eapply quiet_step_trans; [|exact Q].
        now apply quiet_step_log.
Qed.

(** The response converter never throws and makes no call but for random
    bytes. *)
Lemma convertGoogleToAnthropic_quiet data model st :
  exists r st',
    convertGoogleToAnthropic env data model st = (Ok r, st')
    /\ quiet_step st st' /\ cachedProject st' = cachedProject st.
Proof.
  unfold convertGoogleToAnthropic, bind.
  destruct (convert_parts_quiet (parts_of data) [] 0 st)
    as ([bs n] & st1 & E & Q & C).
  rewrite E. simpl. eexists. eexists. split; [reflexivity|].
  split; [|exact C].
  eapply quiet_step_trans; [exact Q|]. now apply quiet_step_log.
Qed.

Lemma getProject_from_quiet token endpoints : forall st,
  quiet_step st (snd (getProject_from env token endpoints st)).
Proof.
  induction endpoints as [|endpoint rest IH]; intros st; simpl.
  - now exists [].
  - unfold bind, fetch_loadCodeAssist.
    assert (Hlog : quiet_step st (log (CallLoadCodeAssist endpoint token) st))
      by now apply quiet_step_log.
    assert (Hrest : quiet_step st
                      (snd (getProject_from env token rest
                              (log (CallLoadCodeAssist endpoint token) st))))
      by (eapply quiet_step_trans; [exact Hlog | apply IH]).
    destruct (env_loadCodeAssist env (trace st) endpoint token)
      as [e | status txt [data | e]]; auto.
    + destruct (ok status); simpl; auto.
      destruct (discovered data); auto.
    + destruct (ok status); simpl; auto.
Qed.

Lemma getProject_quiet token st :
  quiet_step st (snd (getProject env token st)).
Proof.
  unfold getProject. destruct (truthy_str (cachedProject st)).
  - apply quiet_step_refl.
  - apply getProject_from_quiet.
Qed.

(** What a refresh that succeeds has done: one forced refresh, the new
    token read, the cache emptied, the project resolved again and
    cached. *)
Lemma refreshAndGetProject_ok st token' project' st2 :
  refreshAndGetProject env st = (Ok (token', project'), st2) ->
  env_refreshToken env (trace st) = Ok tt
  /\ env_getToken env (CallRefreshToken :: trace st) = Ok token'
  /\ getProject env token'
       {| cachedProject := None;
          trace := CallGetToken :: CallRefreshToken :: trace st |}
     = (Ok project', st2)
  /\ cachedProject st2 = Some project'
  /\ refresh_count (trace st2) = S (refresh_count (trace st))
  /\ generate_calls (trace st2) = generate_calls (trace st).
Proof.
  unfold refreshAndGetProject, bind, refreshToken, getToken,
    clearProjectCache, set_cachedProject. simpl.
  destruct (env_refreshToken env (trace st)) as [[]|e]; [|discriminate].
  destruct (env_getToken env (CallRefreshToken :: trace st)) as [tok|e];
    [|discriminate].
  set (st0 := {| cachedProject := None;
                 trace := CallGetToken :: CallRefreshToken :: trace st |}).
  pose proof (getProject_quiet tok st0) as Q.
  destruct (getProject_caches env tok st0) as (p & st' & E & Hc & _).
  rewrite E in *. simpl in Q. unfold ret. intros H. injection H as <- <- <-.
  repeat split; auto.
  - now rewrite (quiet_step_refresh_count _ _ Q).
  - now rewrite (quiet_step_generate_calls _ _ Q).
Qed.

Lemma sendMessage_from_429 req h rest token payload lastError st txt j :
  env_generateContent env (trace st) h token payload = Response 429 txt j ->
  sendMessage_from env req (h :: rest) token payload lastError st
  = sendMessage_from env req rest token payload
      (Some (Err ("Rate limited: " ++ txt)))
      (log (CallGenerateContent h token payload) st).
Proof.
  intros H. cbn [sendMessage_from]. unfold fetch_generateContent.
  rewrite H. reflexivity.
Qed.

Lemma sendMessage_from_401 req h rest token payload lastError st txt j
  token' project' st2 :
  env_generateContent env (trace st) h token payload = Response 401 txt j ->
  refreshAndGetProject env (log (CallGenerateContent h token payload) st)
  = (Ok (token', project'), st2) ->
  sendMessage_from env req (h :: rest) token payload lastError st
  = sendMessage_from env req rest token' (set_project payload project')
      lastError st2.
Proof.
  intros H R. cbn [sendMessage_from]. unfold fetch_generateContent.
  rewrite H. cbv beta iota. 
  change (negb (ok 401)) with true. change (401 =? 401)%Z with true.
  cbv iota. now rewrite R.
Qed.

Lemma sendMessage_from_success req h rest token payload lastError st status
  txt data :
  env_generateContent env (trace st) h token payload
  = Response status txt (Ok data) ->
  ok status = true ->
  sendMessage_from env req (h :: rest) token payload lastError st
  = convertGoogleToAnthropic env data (model req)
      (log (CallGenerateContent h token payload) st).
Proof.
  intros H Hok. cbn [sendMessage_from]. unfold fetch_generateContent.
  rewrite H. cbv beta iota. rewrite Hok. cbn [negb].
  destruct (convertGoogleToAnthropic_quiet data (model req)
              (log (CallGenerateContent h token payload) st))
    as (r & st' & E & _).
  now rewrite E.
Qed.

(** [sendMessage] is its loop over the configured endpoints, entered with the
    token read first, a payload for the resolved project, which is cached,
    and no error; nothing before the loop refreshes the credential or calls
    the generation endpoint. *)
Lemma sendMessage_dispatch req st token :
  env_getToken env (trace st) = Ok token ->
  exists payload st0,
    sendMessage env req st
    = sendMessage_from env req ANTIGRAVITY_ENDPOINT_FALLBACKS token payload
        None st0
    /\ cachedProject st0 = Some (project payload)
    /\ request payload
       = {| contents := contents (convertAnthropicToGoogle req);
            generationConfig := generationConfig (convertAnthropicToGoogle req);
            systemInstruction := systemInstruction (convertAnthropicToGoogle req);
            request_tools := request_tools (convertAnthropicToGoogle req);
            sessionId := sessionId (request payload) |}
    /\ refresh_count (trace st0) = refresh_count (trace st)
    /\ generate_calls (trace st0) = generate_calls (trace st).
Proof.
  intros Htoken. unfold sendMessage, bind, try_catch, getToken at 1.
  rewrite Htoken.
  pose proof (getProject_quiet token (log CallGetToken st)) as Q.
  destruct (getProject_caches env token (log CallGetToken st))
    as (p & st1 & E & Hc & _).
  rewrite E in *. cbn [snd] in Q. unfold ret at 1.
  unfold buildCloudCodeRequest, bind, mathRandom, randomUUID, ret.
  cbv beta iota.
  eexists. eexists. split; [reflexivity|].
  assert (Q' : quiet_step st (log CallRandomUUID (log CallMathRandom st1))).
  { apply quiet_step_trans with (log CallGetToken st);
      [now apply quiet_step_log|].
    apply quiet_step_trans with st1; [exact Q|].
    apply quiet_step_trans with (log CallMathRandom st1);
      now apply quiet_step_log. }
  split; [exact Hc|]. split; [reflexivity|]. split.
  - exact (quiet_step_refresh_count _ _ Q').
  - exact (quiet_step_generate_calls _ _ Q').
Qed.

End Dispatcher.

(** C6: when the first two of three hosts answer 429 and the third one
    answers with success, the dispatcher returns the conversion of the
    answer of the third host.  Each host is called once, in order, with the
    same token and payload; no credential is refreshed and the cached
    project is left as it is. *)
Theorem rate_limited_hosts_fall_through (env : Env) (req : AnthropicRequest)
  (h1 h2 h3 : string) (rest : list string) (token : string)
  (payload : Payload) (lastError : option Error) (st : State)
  (txt1 txt2 txt3 : string) (j1 j2 : Result GoogleResponse) (status : Z)
  (data : GoogleResponse) :
  let st1 := log (CallGenerateContent h1 token payload) st in
  let st2 := log (CallGenerateContent h2 token payload) st1 in
  let st3 := log (CallGenerateContent h3 token payload) st2 in
  env_generateContent env (trace st) h1 token payload = Response 429 txt1 j1 ->
  env_generateContent env (trace st1) h2 token payload = Response 429 txt2 j2 ->
  env_generateContent env (trace st2) h3 token payload
  = Response status txt3 (Ok data) ->
  ok status = true ->
  exists r st',
    sendMessage_from env req (h1 :: h2 :: h3 :: rest) token payload lastError st
    = (Ok r, st')
    /\ convertGoogleToAnthropic env data (model req) st3 = (Ok r, st')
    /\ refresh_count (trace st') = refresh_count (trace st)
    /\ generate_calls (trace st')
       = [ (h3, token, project payload); (h2, token, project payload);
           (h1, token, project payload) ] ++ generate_calls (trace st)
    /\ cachedProject st' = cachedProject st.
Proof.
  intros st1 st2 st3 H1 H2 H3 Hok.
  rewrite (sendMessage_from_429 env req h1 _ token payload lastError st txt1 j1 H1).
  fold st1.
  rewrite (sendMessage_from_429 env req h2 _ token payload _ st1 txt2 j2 H2).
  fold st2.
  rewrite (sendMessage_from_success env req h3 _ token payload _ st2 status
             txt3 data H3 Hok).
  fold st3.
  destruct (convertGoogleToAnthropic_quiet env data (model req) st3)
    as (r & st' & E & Q & C).
  exists r, st'. split; [exact E|]. split; [exact E|].
  split; [|split].
  - now rewrite (quiet_step_refresh_count _ _ Q).
  - now rewrite (quiet_step_generate_calls _ _ Q).
  - exact C.
Qed.

Lemma rate_limited_hosts_fall_through_witness :
  exists r st',
    sendMessage_from rate_limited_twice sample_request
      ANTIGRAVITY_ENDPOINT_FALLBACKS "token-1" sample_payload None initial_state
    = (Ok r, st')
    /\ convertGoogleToAnthropic rate_limited_twice
         (answer ANTIGRAVITY_ENDPOINT_PROD) (model sample_request)
         (log (CallGenerateContent ANTIGRAVITY_ENDPOINT_PROD "token-1"
                 sample_payload)
            (log (CallGenerateContent ANTIGRAVITY_ENDPOINT_AUTOPUSH "token-1"
                    sample_payload)
               (log (CallGenerateContent ANTIGRAVITY_ENDPOINT_DAILY "token-1"
                       sample_payload) initial_state)))
       = (Ok r, st')
    /\ refresh_count (trace st') = 0.
Proof.
  destruct (rate_limited_hosts_fall_through rate_limited_twice sample_request
              ANTIGRAVITY_ENDPOINT_DAILY ANTIGRAVITY_ENDPOINT_AUTOPUSH
              ANTIGRAVITY_ENDPOINT_PROD [] "token-1" sample_payload None
              initial_state "RESOURCE_EXHAUSTED" "RESOURCE_EXHAUSTED" ""
              (Throw (Err "not JSON")) (Throw (Err "not JSON")) 200%Z
              (answer ANTIGRAVITY_ENDPOINT_PROD))
    as (r & st' & E & Ec & Hr & _); try reflexivity.
  exists r, st'. split; [exact E|]. split; [exact Ec | exact Hr].
Defined.

(** The whole of [sendMessage] in that world. *)
Example sendMessage_rate_limited :
  exists r st',
    sendMessage rate_limited_twice sample_request initial_state = (Ok r, st')
    /\ message_content r = [ RText ANTIGRAVITY_ENDPOINT_PROD ]
    /\ generate_calls_in_order (trace st')
       = [ (ANTIGRAVITY_ENDPOINT_DAILY, "token-1", DEFAULT_PROJECT_ID);
           (ANTIGRAVITY_ENDPOINT_AUTOPUSH, "token-1", DEFAULT_PROJECT_ID);
           (ANTIGRAVITY_ENDPOINT_PROD, "token-1", DEFAULT_PROJECT_ID) ]
    /\ refresh_count (trace st') = 0.
Proof.
  eexists. eexists. split; [vm_compute; reflexivity|].
  repeat split; reflexivity.
Qed.

(** C1, as the code has it: when a host answers 401 and the refresh
    succeeds, the dispatcher has forced one refresh of the credential, read
    the new token, emptied the project cache, resolved the project again and
    written it into the payload; it then goes on with the next host, which
    gets the new token and the updated payload, and does not call the first
    host again.  When that next host answers with success, its answer is
    converted and returned: one refresh has been made, each of the two hosts
    has been called once, and the payload of the call that succeeded carries
    the project resolved after the refresh, which is also the cached one. *)
Theorem unauthorized_host_refreshes_then_next_host (env : Env)
  (req : AnthropicRequest) (h next : string) (rest : list string)
  (token : string) (payload : Payload) (lastError : option Error) (st : State)
  (txt : string) (j : Result GoogleResponse)
  (token' project' : string) (st2 : State) :
  let st1 := log (CallGenerateContent h token payload) st in
  let payload' := set_project payload project' in
  let st3 := log (CallGenerateContent next token' payload') st2 in
  env_generateContent env (trace st) h token payload = Response 401 txt j ->
  refreshAndGetProject env st1 = (Ok (token', project'), st2) ->
  (env_refreshToken env (trace st1) = Ok tt
   /\ env_getToken env (CallRefreshToken :: trace st1) = Ok token'
   /\ getProject env token'
        {| cachedProject := None;
           trace := CallGetToken :: CallRefreshToken :: trace st1 |}
      = (Ok project', st2)
   /\ project payload' = project'
   /\ cachedProject st2 = Some project'
   /\ refresh_count (trace st2) = S (refresh_count (trace st))
   /\ generate_calls (trace st2)
      = (h, token, project payload) :: generate_calls (trace st))
  /\ sendMessage_from env req (h :: next :: rest) token payload lastError st
     = sendMessage_from env req (next :: rest) token' payload' lastError st2
  /\ (forall status txt' data,
        env_generateContent env (trace st2) next token' payload'
        = Response status txt' (Ok data) ->
        ok status = true ->
        exists r st',
          sendMessage_from env req (h :: next :: rest) token payload lastError st
          = (Ok r, st')
          /\ convertGoogleToAnthropic env data (model req) st3 = (Ok r, st')
          /\ cachedProject st' = Some project'
          /\ refresh_count (trace st') = S (refresh_count (trace st))
          /\ generate_calls (trace st')
             = [ (next, token', project'); (h, token, project payload) ]
               ++ generate_calls (trace st)).
Proof.
  intros st1 payload' st3 H401 Hrefresh.
  destruct (refreshAndGetProject_ok env st1 token' project' st2 Hrefresh)
    as (Hr & Ht & Hp & Hc & Hn & Hg).
  pose proof (sendMessage_from_401 env req h (next :: rest) token payload
                lastError st txt j token' project' st2 H401 Hrefresh) as Hstep.
  fold payload' in Hstep.
  split; [|split].
  - repeat split; auto.
  - exact Hstep.
  - intros status txt' data Hnext Hok. rewrite Hstep.
    rewrite (sendMessage_from_success env req next _ token' payload' _ st2
               status txt' data Hnext Hok).
    fold st3.
    destruct (convertGoogleToAnthropic_quiet env data (model req) st3)
      as (r & st' & E & Q & C).
    exists r, st'. split; [exact E|]. split; [exact E|]. split; [|split].
    + rewrite C. exact Hc.
    + rewrite (quiet_step_refresh_count _ _ Q). exact Hn.
    + rewrite (quiet_step_generate_calls _ _ Q). simpl. now rewrite Hg.
Qed.

Lemma unauthorized_host_refreshes_then_next_host_witness :
  exists r st',
    sendMessage_from expired_token sample_request
      ANTIGRAVITY_ENDPOINT_FALLBACKS "token-1" sample_payload None initial_state
    = (Ok r, st')
    /\ cachedProject st' = Some "project-of-token-2"
    /\ refresh_count (trace st') = 1
    /\ generate_calls (trace st')
       = [ (ANTIGRAVITY_ENDPOINT_AUTOPUSH, "token-2", "project-of-token-2");
           (ANTIGRAVITY_ENDPOINT_DAILY, "token-1", "project-of-token-1") ].
Proof.
  destruct (unauthorized_host_refreshes_then_next_host expired_token
              sample_request ANTIGRAVITY_ENDPOINT_DAILY
              ANTIGRAVITY_ENDPOINT_AUTOPUSH [ANTIGRAVITY_ENDPOINT_PROD]
              "token-1" sample_payload None initial_state
              "UNAUTHENTICATED" (Throw (Err "not JSON"))
              "token-2" "project-of-token-2"
              {| cachedProject := Some "project-of-token-2";
                 trace := [ CallLoadCodeAssist ANTIGRAVITY_ENDPOINT_DAILY
                              "token-2";
                            CallGetToken; CallRefreshToken;
                            CallGenerateContent ANTIGRAVITY_ENDPOINT_DAILY
                              "token-1" sample_payload ] |})
    as (_ & _ & Hnext); try reflexivity.
  destruct (Hnext 200%Z ""
              (answer (ANTIGRAVITY_ENDPOINT_AUTOPUSH ++ " project-of-token-2")))
    as (r & st' & E & _ & Hc & Hn & Hg); try reflexivity.
  exists r, st'. split; [exact E|]. split; [exact Hc|]. split; [exact Hn|].
  exact Hg.
Defined.

(** C1, as stated, fails: in a world where every host rejects the first
    token with 401 and accepts the refreshed one, the first host is called
    once, and the call made after the refresh goes to the second host,
    whose answer is returned; the first host would have accepted the new
    token. *)
Lemma same_host_not_retried :
  exists r st',
    sendMessage expired_token sample_request initial_state = (Ok r, st')
    /\ generate_calls_in_order (trace st')
       = [ (ANTIGRAVITY_ENDPOINT_DAILY, "token-1", "project-of-token-1");
           (ANTIGRAVITY_ENDPOINT_AUTOPUSH, "token-2", "project-of-token-2") ]
    /\ ~ retries_same_host (generate_calls_in_order (trace st'))
    /\ message_content r
       = [ RText (ANTIGRAVITY_ENDPOINT_AUTOPUSH ++ " project-of-token-2") ]
    /\ refresh_count (trace st') = 1
    /\ (forall tr payload,
          env_generateContent expired_token tr ANTIGRAVITY_ENDPOINT_DAILY
            "token-2" payload
          = Response 200 ""
              (Ok (answer (ANTIGRAVITY_ENDPOINT_DAILY ++ " " ++ project payload)))).
Proof.
  eexists. eexists. split; [vm_compute; reflexivity|].
  split; [reflexivity|]. split; [|split; [reflexivity|split; reflexivity]].
  vm_compute. discriminate.
Qed.

(* ================================================================= *)
(** * More on the content converter *)

(** X1: the parts of a message are never empty, whatever the content and the
    family; a sequence of blocks none of which gives a part (thinking blocks
    for the Claude family, redacted thinking, blocks of an unknown type,
    images and documents whose source is neither base64 nor url) is sent as
    the single empty text part. *)
Theorem convertContentToParts_nonempty (content : MessageContent)
  (claude : bool) :
  convertContentToParts content claude <> []
  /\ forall blocks,
       content = ContentBlocks blocks ->
       (forall b, In b blocks -> block_parts claude b = []) ->
       convertContentToParts content claude = [ text_part "" ].
Proof.
  split.
  - destruct content as [s | blocks | rendered]; simpl; try discriminate.
    destruct (flat_map (block_parts claude) blocks); discriminate.
  - intros blocks -> Hnone. simpl.
    replace (flat_map (block_parts claude) blocks) with (@nil Part);
      [reflexivity|].
    induction blocks as [|b rest IH]; simpl; auto.
    rewrite (Hnone b) by now left. simpl.
    apply IH. intros b' Hb'. apply Hnone. now right.
Qed.

Example dropped_blocks_example :
  convertContentToParts
    (ContentBlocks [ BThinking "hm"; BRedactedThinking; BOther "server_tool_use";
                     BImage None ]) true
  = [ text_part "" ].
Proof. reflexivity. Qed.

Section MoreResponseConverter.

Variable env : Env.

Lemma convert_parts_texts texts : forall acc n st,
  convert_parts env (map text_part texts) acc n st
  = (Ok (acc ++ map RText texts, n), st).
Proof.
  induction texts as [|t rest IH]; intros acc n st; simpl.
  - now rewrite app_nil_r.
  - rewrite IH. now rewrite <- app_assoc.
Qed.

Lemma flat_map_texts claude texts :
  flat_map (block_parts claude) (map BText texts) = map text_part texts.
Proof. induction texts as [|t rest IH]; simpl; auto. now rewrite IH. Qed.

(** X2: a message made of text blocks goes to the backend as one text part
    for every block, in order, and these parts come back as text blocks with
    the same texts in the same order, for every model; no random id is drawn
    for them.  A message without any block comes back as one empty text, and
    a message that is a plain string comes back as one text block with that
    string. *)
Theorem text_round_trip (m model' : option string) (texts : list string)
  (s : string) (st : State) :
  (exists ps r st',
      contents (convertAnthropicToGoogle
                  (request_with_content m (ContentBlocks (map BText texts))))
      = [ {| content_role := "model"; parts := ps |} ]
      /\ convertGoogleToAnthropic env (response_with_parts ps) model' st
         = (Ok r, st')
      /\ message_content r
         = match texts with [] => [ RText "" ] | _ => map RText texts end
      /\ trace st' = CallRandomBytes 16 :: trace st)
  /\ (exists r st',
        contents (convertAnthropicToGoogle
                    (request_with_content m (ContentString s)))
        = [ {| content_role := "model"; parts := [ text_part s ] |} ]
        /\ convertGoogleToAnthropic env (response_with_parts [ text_part s ])
             model' st
           = (Ok r, st')
        /\ message_content r = [ RText s ]).
Proof.
  split.
  - exists (match texts with [] => [ text_part "" ] | _ => map text_part texts end).
    destruct texts as [|t rest].
    + eexists. eexists. split; [reflexivity|].
      unfold convertGoogleToAnthropic, bind; simpl.
      split; [reflexivity|]. split; reflexivity.
    + eexists. eexists. split.
      * unfold convertAnthropicToGoogle, request_with_content; simpl.
        now rewrite flat_map_texts.
      * pose proof (convert_parts_texts (t :: rest) [] 0 st) as H.
        unfold convertGoogleToAnthropic, bind. simpl in H |- *. rewrite H.
        simpl. split; [reflexivity|]. split; reflexivity.
  - eexists. eexists. split; [reflexivity|].
    unfold convertGoogleToAnthropic, bind; simpl.
    split; reflexivity.
Qed.

Lemma filter_tool_use_app l1 l2 :
  List.length (filter is_tool_use (l1 ++ l2))
  = List.length (filter is_tool_use l1) + List.length (filter is_tool_use l2).
Proof. now rewrite filter_app, length_app. Qed.

(** The loop keeps the ids of the tool calls present and its counter equal
    to the number of tool calls pushed. *)
Lemma convert_parts_invariant parts : forall acc n st out st',
  convert_parts env parts acc n st = (Ok out, st') ->
  Forall id_present acc ->
  n = List.length (filter is_tool_use acc) ->
  Forall id_present (fst out)
  /\ snd out = List.length (filter is_tool_use (fst out)).
Proof.
  induction parts as [|part rest IH]; intros acc n st out st' E Hacc Hn.
  - simpl in E. injection E as <- <-. auto.
  - simpl in E. destruct (text part) as [t|].
    + destruct (thought part); [now apply (IH _ _ _ _ _ E)|].
      apply (IH _ _ _ _ _ E).
      * apply Forall_app. split; [exact Hacc | repeat constructor].
      * rewrite filter_tool_use_app. simpl. lia.
    + destruct (functionCall part) as [call|]; [|now apply (IH _ _ _ _ _ E)].
      unfold bind in E.
      destruct (truthy_str (call_id call)) eqn:Hid; simpl in E.
      * apply (IH _ _ _ _ _ E).
        -- apply Forall_app. split; [exact Hacc|]. repeat constructor. simpl.
           destruct (call_id call) as [i|]; [|discriminate]. simpl in *.
           destruct (i =? "") eqn:Ei; [discriminate|].
           now apply String.eqb_neq.
        -- rewrite filter_tool_use_app. simpl. lia.
      * apply (IH _ _ _ _ _ E).
        -- apply Forall_app. split; [exact Hacc|]. repeat constructor. simpl.
           discriminate.
        -- rewrite filter_tool_use_app. simpl. lia.
Qed.

Lemma existsb_filter_length {A} (p : A -> bool) l :
  existsb p l = (0 <? List.length (filter p l))%nat.
Proof.
  induction l as [|x l IH]; simpl; auto.
  destruct (p x); simpl; auto.
Qed.

Lemma is_reason_eq f r : is_reason f r = true <-> f = Some r.
Proof.
  destruct f as [s|]; simpl.
  - rewrite String.eqb_eq. split; congruence.
  - split; discriminate.
Qed.

(** What the converter returns, with the state of its loop. *)
Lemma convertGoogleToAnthropic_loop googleResponse model st :
  exists blocks n st1 r st',
    convert_parts env (parts_of googleResponse) [] 0 st = (Ok (blocks, n), st1)
    /\ convertGoogleToAnthropic env googleResponse model st = (Ok r, st')
    /\ Forall id_present blocks
    /\ n = List.length (filter is_tool_use blocks)
    /\ message_content r = match blocks with [] => [RText ""] | _ => blocks end
    /\ stop_reason r
       = (let f := finishReason (firstCandidate_of googleResponse) in
          if is_reason f "STOP" then "end_turn"
          else if is_reason f "MAX_TOKENS" then "max_tokens"
          else if is_reason f "TOOL_USE" || (0 <? n)%nat then "tool_use"
          else "end_turn").
Proof.
  destruct (convert_parts_total env (parts_of googleResponse) [] 0 st)
    as (bs & n & st1 & E & _). simpl in E.
  destruct (convert_parts_invariant _ _ _ _ _ _ E (Forall_nil _) eq_refl)
    as [Hids Hn]. simpl in Hids, Hn.
  exists bs, n, st1. unfold convertGoogleToAnthropic, bind. rewrite E. simpl.
  eexists. eexists. split; [reflexivity|]. split; [reflexivity|].
  repeat split; auto.
Qed.

(** X3: the stop reason of a converted response is [end_turn] when the
    backend finished with STOP, also when the response holds tool calls, and
    [max_tokens] when it finished with MAX_TOKENS.  For every other finish
    reason, and for none, it is [tool_use] exactly when the backend finished
    with TOOL_USE or the content has a [tool_use] block, and [end_turn]
    otherwise. *)
Theorem stop_reason_cases (googleResponse : GoogleResponse)
  (model : option string) (st : State) :
  exists r st',
    convertGoogleToAnthropic env googleResponse model st = (Ok r, st')
    /\ let f := finishReason (firstCandidate_of googleResponse) in
       (f = Some "STOP" -> stop_reason r = "end_turn")
       /\ (f = Some "MAX_TOKENS" -> stop_reason r = "max_tokens")
       /\ (f <> Some "STOP" -> f <> Some "MAX_TOKENS" ->
           (stop_reason r = "tool_use"
            <-> f = Some "TOOL_USE"
                \/ existsb is_tool_use (message_content r) = true)
           /\ (stop_reason r = "tool_use" \/ stop_reason r = "end_turn")).
Proof.
  destruct (convertGoogleToAnthropic_loop googleResponse model st)
    as (bs & n & st1 & r & st' & _ & E & _ & Hn & Hc & Hs).
  exists r, st'. split; [exact E|]. cbv zeta in *.
  set (f := finishReason (firstCandidate_of googleResponse)) in *.
  assert (Htool : existsb is_tool_use (message_content r) = (0 <? n)%nat).
  { rewrite Hc, Hn. destruct bs; [reflexivity|]. apply existsb_filter_length. }
  split; [|split].
  - intros Hf. rewrite Hs. apply is_reason_eq in Hf. now rewrite Hf.
  - intros Hf. rewrite Hs. rewrite Hf. reflexivity.
  - intros Hstop Hmax. rewrite Hs, Htool.
    destruct (is_reason f "STOP") eqn:E1;
      [apply is_reason_eq in E1; contradiction|].
    destruct (is_reason f "MAX_TOKENS") eqn:E2;
      [apply is_reason_eq in E2; contradiction|].
    destruct (is_reason f "TOOL_USE") eqn:E3; simpl.
    + apply is_reason_eq in E3. split; [|now left]. split; auto.
    + destruct (0 <? n)%nat; simpl.
      * split; [|now left]. split; auto.
      * split; [|now right]. split; [discriminate|].
        intros [Hf | Hf]; [|discriminate].
        apply is_reason_eq in Hf. congruence.
Qed.

(** A response that finished with STOP and holds a tool call. *)
Example stop_with_tool_call :
  exists r st',
    convertGoogleToAnthropic env
      (response_with [ call_part paris_call ] (Some "STOP")) None initial_state
    = (Ok r, st')
    /\ stop_reason r = "end_turn"
    /\ existsb is_tool_use (message_content r) = true.
Proof.
  eexists. eexists. unfold convertGoogleToAnthropic, bind; simpl.
  split; [reflexivity|]. split; reflexivity.
Qed.

Lemma convert_parts_tool_uses ps : forall acc n st out st',
  convert_parts env ps acc n st = (Ok out, st') ->
  exists new,
    fst out = (acc ++ new)%list
    /\ Forall2 (tool_use_of env) (calls_of ps) (filter is_tool_use new).
Proof.
  induction ps as [|p rest IH]; intros acc n st out st' E;
    cbn [convert_parts calls_of] in *.
  - injection E as <- <-. exists []. simpl. rewrite app_nil_r.
    split; [reflexivity | constructor].
  - destruct (text p) as [t|].
    + destruct (thought p).
      * now apply IH in E.
      * apply IH in E as (new & Hout & Hall).
        exists (RText t :: new). rewrite Hout, <- app_assoc.
        split; [reflexivity | exact Hall].
    + destruct (functionCall p) as [call|]; [|now apply IH in E].
      unfold bind in E.
      assert (Hid : exists id st1,
                 (if truthy_str (call_id call)
                  then ret (or_str_default (call_id call) "")
                  else (fun st0 =>
                          match randomBytes env 12 st0 with
                          | (Ok hex, st2) => ret ("toolu_" ++ hex)%string st2
                          | (Throw e, st2) => (Throw e, st2)
                          end)) st = (Ok id, st1)
                 /\ match call_id call with
                    | Some i => if i =? "" then generated_id env id else id = i
                    | None => generated_id env id
                    end).
      { destruct (call_id call) as [i|]; simpl.
        - destruct (i =? "") eqn:Ei; simpl.
          + eexists. eexists. split; [reflexivity|]. now eexists.
          + eexists. eexists. split; [reflexivity|]. reflexivity.
        - eexists. eexists. split; [reflexivity|]. now eexists. }
      destruct Hid as (id & st1 & Eid & Hid). rewrite Eid in E.
      apply IH in E as (new & Hout & Hall).
      exists (RToolUse id (call_name call)
                (or_json_default (call_args call) (JObj [])) :: new).
      rewrite Hout, <- app_assoc. split; [reflexivity|].
      cbn [filter is_tool_use]. constructor; [|exact Hall].
      cbn [tool_use_of]. split; [reflexivity|]. split; [|exact Hid].
      destruct (call_args call) as [args|]; reflexivity.
Qed.

(** X4: the [tool_use] blocks of a converted response are, in order, the
    function calls of the parts that hold one and no text: each block has
    the name of its call, the arguments of the call or the empty object when
    it has none, and the id of the call when the backend gave one, a drawn
    [toolu_...] id when the id is absent or is the empty string.  So every
    [tool_use] block has an id that is not empty. *)
Theorem tool_use_ids_present (googleResponse : GoogleResponse)
  (model : option string) (st : State) :
  exists r st',
    convertGoogleToAnthropic env googleResponse model st = (Ok r, st')
    /\ Forall2 (tool_use_of env) (calls_of (parts_of googleResponse))
         (filter is_tool_use (message_content r))
    /\ Forall id_present (message_content r).
Proof.
  destruct (convertGoogleToAnthropic_loop googleResponse model st)
    as (bs & n & st1 & r & st' & Eloop & E & Hids & Hn & Hc & _).
  exists r, st'. split; [exact E|]. split.
  - apply convert_parts_tool_uses in Eloop as (new & Hout & Hall).
    simpl in Hout. subst new. rewrite Hc.
    destruct bs; [exact Hall | exact Hall].
  - rewrite Hc. destruct bs; [repeat constructor | exact Hids].
Qed.

(** A call with an id, a call without one and a call whose id is the empty
    string. *)
Example tool_use_ids_example :
  exists r st' id2 id3,
    convertGoogleToAnthropic (world no_discovery no_generation)
      (response_with
         [ call_part {| call_name := Some "get_weather"; call_args := None;
                        call_id := Some "call-1" |};
           call_part paris_call;
           call_part {| call_name := None;
                        call_args := Some (JObj []);
                        call_id := Some "" |} ] None) None initial_state
    = (Ok r, st')
    /\ message_content r
       = [ RToolUse "call-1" (Some "get_weather") (JObj []);
           RToolUse id2 (Some "get_weather")
             (JObj [ ("location", JStr "Paris") ]);
           RToolUse id3 None (JObj []) ]
    /\ id2 = "toolu_0123456789abcdef01234567"
    /\ id3 = "toolu_0123456789abcdef01234567".
Proof.
  eexists. eexists. eexists. eexists.
  unfold convertGoogleToAnthropic, bind; simpl.
  split; [reflexivity|]. split; [reflexivity|]. split; reflexivity.
Qed.

End MoreResponseConverter.

(* ================================================================= *)
(** * More on the request builder *)

Lemma or_json_falsy a b : truthy_opt a = false -> or_json a b = b.
Proof. intros H. unfold or_json. now rewrite H. Qed.

Lemma or_json_default_falsy a d : truthy_opt a = false -> or_json_default a d = d.
Proof.
  destruct a as [v|]; simpl; auto. now intros ->.
Qed.

Lemma functionDeclarations_clean ts : forall i,
  Forall (fun d => keywords_clean (decl_parameters d) = true)
    (functionDeclarations i ts).
Proof.
  induction ts as [|t ts IH]; intros i; simpl; constructor; auto.
  apply value_hyp_all.
Qed.

(** X5: the parameters of every function declaration that a request sends
    to the backend have gone through the sanitizer: no schema object of them
    has a denylisted keyword among its keys, wherever the tool kept its
    schema.  A tool that names no schema in any of the five places read is
    declared with the parameters [{ type: 'object' }]. *)
Theorem tool_parameters_clean (req : AnthropicRequest) :
  Forall (fun d => keywords_clean (decl_parameters d) = true)
    (declarations (convertAnthropicToGoogle req))
  /\ (forall idx tool,
        schemaless tool ->
        decl_parameters (functionDeclaration idx tool)
        = JObj [ ("type", JStr "object") ]).
Proof.
  split.
  - unfold declarations, convertAnthropicToGoogle; simpl.
    destruct (tools req) as [[|t ts]|]; try constructor.
    + apply value_hyp_all.
    + apply functionDeclarations_clean.
  - intros idx tool (H1 & H2 & H3 & H4 & H5).
    unfold functionDeclaration; simpl.
    rewrite (or_json_falsy _ _ H1), (or_json_falsy _ _ H2),
      (or_json_falsy _ _ H3), (or_json_falsy _ _ H4),
      (or_json_default_falsy _ _ H5).
    reflexivity.
Qed.

Lemma lookup_model_own s v :
  lookup_model s MODEL_MAPPINGS = Some v -> own_key (Some v) = true.
Proof.
  unfold MODEL_MAPPINGS. cbn [lookup_model].
  repeat match goal with
         | |- context [?k =? s] =>
             destruct (String.eqb_spec k s);
             [intros H; injection H as <-; reflexivity|]
         end.
  discriminate.
Qed.

Lemma lookup_model_fixed s v :
  lookup_model s MODEL_MAPPINGS = Some v ->
  v <> "" /\ lookup_model v MODEL_MAPPINGS = Some v
  /\ in_claude_family (Some s) = true /\ in_claude_family (Some v) = true.
Proof.
  unfold MODEL_MAPPINGS. cbn [lookup_model].
  repeat match goal with
         | |- context [?k =? s] =>
             destruct (String.eqb_spec k s);
             [subst s; intros H; injection H as <-;
              repeat split; (reflexivity || discriminate)|]
         end.
  discriminate.
Qed.

(** X6: for a model name that the table is asked about itself, not a name
    such as [constructor] that its prototype answers: mapping the name twice
    gives what mapping it once gives, the mapped name is again such a name,
    a name that the table does not hold and an absent name pass through
    unchanged, and a name and its mapped name are in the Claude-compatible
    family together or not at all. *)
Theorem mapModelName_idempotent (m : option string) :
  own_key m = true ->
  mapModelName (mapModelName m) = mapModelName m
  /\ own_key (mapModelName m) = true
  /\ in_claude_family (mapModelName m) = in_claude_family m
  /\ (forall s, m = Some s -> lookup_model s MODEL_MAPPINGS = None ->
      mapModelName m = m)
  /\ (m = None -> mapModelName m = None).
Proof.
  intros Hown.
  assert (Hmap : forall s,
             mapModelName (Some s)
             = match lookup_model s MODEL_MAPPINGS with
               | Some v => Some v
               | None => Some s
               end).
  { intros s. unfold mapModelName, mapModelName_with.
    destruct (lookup_model s MODEL_MAPPINGS) as [v|] eqn:E; [|reflexivity].
    destruct (lookup_model_fixed s v E) as (Hv & _).
    simpl. destruct (v =? "") eqn:Ev; [|reflexivity].
    apply String.eqb_eq in Ev. contradiction. }
  split; [|split; [|split; [|split]]].
  - destruct m as [s|]; [|reflexivity].
    rewrite Hmap. destruct (lookup_model s MODEL_MAPPINGS) as [v|] eqn:E.
    + destruct (lookup_model_fixed s v E) as (_ & Hfix & _).
      rewrite Hmap. now rewrite Hfix.
    + rewrite Hmap. now rewrite E.
  - destruct m as [s|]; [|reflexivity].
    rewrite Hmap. destruct (lookup_model s MODEL_MAPPINGS) as [v|] eqn:E;
      [|exact Hown].
    now apply lookup_model_own in E.
  - destruct m as [s|]; [|reflexivity].
    rewrite Hmap. destruct (lookup_model s MODEL_MAPPINGS) as [v|] eqn:E;
      [|reflexivity].
    destruct (lookup_model_fixed s v E) as (_ & _ & Hs & Hv).
    now rewrite Hs, Hv.
  - intros s -> E. rewrite Hmap. now rewrite E.
  - intros ->. reflexivity.
Qed.

Lemma mapModelName_idempotent_witness :
  mapModelName (mapModelName (Some "claude-3-opus-20240229"))
  = mapModelName (Some "claude-3-opus-20240229")
  /\ mapModelName (Some "claude-3-opus-20240229")
     = Some "claude-opus-4-5-thinking".
Proof.
  destruct (mapModelName_idempotent (Some "claude-3-opus-20240229") eq_refl)
    as (H & _).
  split; [exact H | reflexivity].
Defined.

(* ================================================================= *)
(** * More on the stream synthesizer *)

Lemma last_in_tail {A} (l pre post : list A) (x y : A) :
  l ++ [x] = pre ++ y :: post -> x <> y -> In x post.
Proof.
  intros E Hxy. destruct (exists_last (l := y :: post)) as (post' & z & Hz);
    [discriminate|].
  rewrite Hz, app_assoc in E. apply app_inj_tail in E as [_ ->].
  destruct post' as [|y' post']; simpl in Hz.
  - injection Hz as ->. contradiction.
  - injection Hz as _ ->. apply in_or_app. right. now left.
Qed.

Section MoreStream.

Variable stringify : JSON -> string.

(** A delta in the events of a block has the index of the block, comes after
    its start and before its stop. *)
Lemma bracket_delta_between k b ds pre post k' d :
  bracket k b ds = pre ++ content_block_delta k' d :: post ->
  k' = k
  /\ In (content_block_start k b) pre
  /\ In (content_block_stop k) post.
Proof.
  unfold bracket. intros E.
  destruct pre as [|e pre]; [discriminate|].
  simpl in E. injection E as <- E.
  assert (Hin : In (content_block_delta k' d)
                  (map (content_block_delta k) ds ++ [content_block_stop k])).
  { rewrite E. apply in_or_app. right. now left. }
  apply in_app_or in Hin as [Hin | [Hin | []]]; [|discriminate].
  apply in_map_iff in Hin as (d0 & Hd0 & _). injection Hd0 as -> _.
  split; [reflexivity|]. split; [now left|].
  apply (last_in_tail _ _ _ _ _ E). discriminate.
Qed.

Lemma content_events_delta_between content : forall j pre post k d,
  content_events stringify j content = pre ++ content_block_delta k d :: post ->
  (exists cb, In (content_block_start k cb) pre)
  /\ In (content_block_stop k) post.
Proof.
  induction content as [|b rest IH]; intros j pre post k d H; simpl in H.
  - destruct pre; discriminate.
  - destruct (block_events_bracket stringify j b) as (ds & E & _).
    rewrite E in H.
    apply app_eq_app in H as [m [[H1 H2] | [H1 H2]]].
    + destruct m as [|e m]; simpl in H2.
      * destruct (IH (S j) [] post k d (eq_sym H2)) as [[cb []] _].
      * injection H2 as <- ->.
        destruct (bracket_delta_between j (start_of b) ds pre m k d H1)
          as (-> & Hs & He).
        split; [now exists (start_of b)|].
        apply in_or_app. now left.
    + destruct (IH (S j) m post k d H2) as [[cb Hs] He].
      split; [|exact He]. exists cb. rewrite H1.
      apply in_or_app. now right.
Qed.

(** X7: in the stream of a response every [content_block_delta] comes after
    a [content_block_start] with its index and before a
    [content_block_stop] with its index. *)
Theorem delta_between_start_and_stop (fullResponse : AnthropicResponse)
  (pre post : list StreamEvent) (k : nat) (d : Delta) :
  stream_events stringify fullResponse
  = pre ++ content_block_delta k d :: post ->
  (exists cb, In (content_block_start k cb) pre)
  /\ In (content_block_stop k) post.
Proof.
  unfold stream_events. intros H.
  destruct pre as [|e pre]; [discriminate|].
  simpl in H. injection H as _ H.
  apply app_eq_app in H as [m [[H1 H2] | [H1 H2]]].
  - destruct m as [|e' m]; [discriminate|].
    simpl in H2. injection H2 as <- ->.
    destruct (content_events_delta_between _ 0 pre m k d H1) as [[cb Hs] He].
    split.
    + exists cb. now right.
    + apply in_or_app. now left.
  - exfalso.
    destruct m as [|e1 [|e2 [|e3 m]]]; simpl in H2; discriminate.
Qed.

(** X8: the stream carries exactly one delta for a [tool_use] block: an
    [input_json_delta] with the whole serialized input, whatever its size. *)
Theorem tool_use_single_delta (fullResponse : AnthropicResponse) (k : nat)
  (id : string) (name : option string) (input : JSON) :
  nth_error (message_content fullResponse) k = Some (RToolUse id name input) ->
  deltas_at k (stream_events stringify fullResponse)
  = [ input_json_delta (stringify input) ].
Proof.
  intros Hk. unfold stream_events. cbn [deltas_at].
  rewrite deltas_at_app. cbn [deltas_at]. rewrite app_nil_r.
  pose proof (deltas_at_content_events stringify _ 0 k _ Hk) as E.
  cbn [Nat.add] in E. rewrite E. unfold deltas_of_block. simpl.
  now rewrite Nat.eqb_refl.
Qed.

End MoreStream.

Lemma delta_between_start_and_stop_witness :
  (exists cb,
      In (content_block_start 0 cb)
         (firstn 3 (stream_events sample_stringify
                      (response_of_blocks sample_blocks))))
  /\ In (content_block_stop 0)
        (skipn 4 (stream_events sample_stringify
                    (response_of_blocks sample_blocks))).
Proof.
  apply (delta_between_start_and_stop sample_stringify
           (response_of_blocks sample_blocks)
           (firstn 3 (stream_events sample_stringify
                        (response_of_blocks sample_blocks)))
           (skipn 4 (stream_events sample_stringify
                       (response_of_blocks sample_blocks)))
           0 (text_delta " is mild today, with")).
  reflexivity.
Defined.

Lemma tool_use_single_delta_witness :
  deltas_at 1 (stream_events sample_stringify (response_of_blocks sample_blocks))
  = [ input_json_delta "{}" ].
Proof.
  apply (tool_use_single_delta sample_stringify
           (response_of_blocks sample_blocks) 1 "toolu_01" (Some "get_weather")
           (JObj [ ("location", JStr "Paris") ])).
  reflexivity.
Defined.

(* ================================================================= *)
(** * More on the project resolver *)

Lemma discovery_calls_snoc token before h :
  discovery_calls token (before ++ [h])
  = CallLoadCodeAssist h token :: discovery_calls token before.
Proof. unfold discovery_calls. now rewrite map_app, rev_app_distr. Qed.

Lemma getProject_from_first (env : Env) token before : forall h after p st,
  (forall tr e, In e before ->
                yields (env_loadCodeAssist env tr e token) = None) ->
  (forall tr, yields (env_loadCodeAssist env tr h token) = Some p) ->
  getProject_from env token (before ++ h :: after) st
  = (Ok p, {| cachedProject := Some p;
              trace := discovery_calls token (before ++ [h]) ++ trace st |}).
Proof.
  induction before as [|e before IH]; intros h after p st Hnone Hsome.
  - simpl. unfold bind, fetch_loadCodeAssist.
    specialize (Hsome (trace st)). unfold yields in Hsome.
    destruct (env_loadCodeAssist env (trace st) h token)
      as [err | status txt [data | err]]; try discriminate.
    + destruct (ok status); [|discriminate]. simpl. now rewrite Hsome.
    + destruct (ok status); discriminate.
  - cbn [app getProject_from]. unfold bind at 1, fetch_loadCodeAssist.
    pose proof (Hnone (trace st) e (or_introl eq_refl)) as He.
    unfold yields in He.
    assert (Hrest : getProject_from env token (before ++ h :: after)
                      (log (CallLoadCodeAssist e token) st)
                    = (Ok p, {| cachedProject := Some p;
                                trace := discovery_calls token
                                           ((e :: before) ++ [h]) ++ trace st |})).
    { rewrite (IH h after p _
                 (fun tr e' H => Hnone tr e' (or_intror H)) Hsome).
      f_equal. f_equal. unfold discovery_calls. cbn [app log trace].
      simpl. rewrite !map_app, !rev_app_distr. simpl.
      now rewrite <- !app_assoc. }
    destruct (env_loadCodeAssist env (trace st) e token)
      as [err | status txt [data | err]]; auto.
    + destruct (ok status); simpl; auto. now rewrite He.
    + destruct (ok status); simpl; auto.
Qed.

(** X9: with an empty cache the resolver asks the endpoints in their order
    of priority and stops at the first one that yields a project, as a
    string or as an object with an id: it returns and caches that project,
    and the endpoints after it are not asked. *)
Theorem getProject_first_discovery (env : Env) (token : string) (st : State)
  (before after : list string) (h p : string) :
  ANTIGRAVITY_ENDPOINT_FALLBACKS = before ++ h :: after ->
  truthy_str (cachedProject st) = false ->
  (forall tr e, In e before ->
                yields (env_loadCodeAssist env tr e token) = None) ->
  (forall tr, yields (env_loadCodeAssist env tr h token) = Some p) ->
  getProject env token st
  = (Ok p, {| cachedProject := Some p;
              trace := discovery_calls token (before ++ [h]) ++ trace st |}).
Proof.
  intros Hlist Hcache Hnone Hsome. unfold getProject.
  rewrite Hcache, Hlist. now apply getProject_from_first.
Qed.

Lemma getProject_first_discovery_witness :
  getProject (world second_host_discovers no_generation) "token-1" initial_state
  = (Ok "project-of-autopush",
     {| cachedProject := Some "project-of-autopush";
        trace := [ CallLoadCodeAssist ANTIGRAVITY_ENDPOINT_AUTOPUSH "token-1";
                   CallLoadCodeAssist ANTIGRAVITY_ENDPOINT_DAILY "token-1" ] |}).
Proof.
  apply (getProject_first_discovery
           (world second_host_discovers no_generation) "token-1" initial_state
           [ANTIGRAVITY_ENDPOINT_DAILY] [ANTIGRAVITY_ENDPOINT_PROD]
           ANTIGRAVITY_ENDPOINT_AUTOPUSH "project-of-autopush").
  - reflexivity.
  - reflexivity.
  - intros tr e [<- | []]. reflexivity.
  - intros tr. reflexivity.
Defined.

(* ================================================================= *)
(** * More on the endpoint dispatcher *)

Lemma generate_events_app a b :
  generate_events (a ++ b) = generate_events a ++ generate_events b.
Proof.
  induction a as [|e a IH]; simpl; auto. destruct e; simpl; now rewrite ?IH.
Qed.

Lemma refresh_count_app a b :
  refresh_count (a ++ b) = refresh_count a + refresh_count b.
Proof.
  induction a as [|e a IH]; simpl; auto. destruct e; simpl; now rewrite ?IH.
Qed.

Lemma quiet_generate_events new :
  forallb quiet new = true -> generate_events new = [].
Proof.
  induction new as [|e new IH]; simpl; auto.
  intros H. apply andb_prop in H as [He Hn]. destruct e; simpl in *; auto.
  discriminate.
Qed.

Lemma quiet_no_generation st st' : quiet_step st st' -> no_generation_step st st'.
Proof.
  intros (new & E & Q). exists new. split; [exact E|].
  now apply quiet_generate_events.
Qed.

Lemma no_generation_refl st : no_generation_step st st.
Proof. now exists []. Qed.

Lemma no_generation_trans st1 st2 st3 :
  no_generation_step st1 st2 -> no_generation_step st2 st3 ->
  no_generation_step st1 st3.
Proof.
  intros (n1 & E1 & Q1) (n2 & E2 & Q2). exists (n2 ++ n1). split.
  - now rewrite E2, E1, app_assoc.
  - now rewrite generate_events_app, Q2, Q1.
Qed.

Lemma no_generation_events st st' :
  no_generation_step st st' ->
  generate_events (trace st') = generate_events (trace st).
Proof. intros (new & -> & Q). now rewrite generate_events_app, Q. Qed.

Section MoreDispatcher.

Variable env : Env.

(** Whatever comes of it, a refresh makes no generation call. *)
Lemma refreshAndGetProject_no_generation st :
  no_generation_step st (snd (refreshAndGetProject env st)).
Proof.
  unfold refreshAndGetProject, bind, refreshToken, getToken,
    clearProjectCache, set_cachedProject.
  destruct (env_refreshToken env (trace st)) as [[]|e]; simpl.
  2: { now exists [CallRefreshToken]. }
  destruct (env_getToken env (CallRefreshToken :: trace st)) as [tok|e]; simpl.
  2: { now exists [CallGetToken; CallRefreshToken]. }
  set (st0 := {| cachedProject := None;
                 trace := CallGetToken :: CallRefreshToken :: trace st |}).
  pose proof (getProject_quiet env tok st0) as Q.
  destruct (getProject env tok st0) as [[p|e] st1]; simpl in *.
  - apply no_generation_trans with st0;
      [now exists [CallGetToken; CallRefreshToken]
      | now apply quiet_no_generation].
  - apply no_generation_trans with st0;
      [now exists [CallGetToken; CallRefreshToken]
      | now apply quiet_no_generation].
Qed.

(** The three kinds of answer. *)
Lemma answer_cases (tr : list Event) (h token : string) (payload : Payload) :
  let r := env_generateContent env tr h token payload in
  (exists e, failure env tr h token payload = Some e /\ is_401 r = false)
  \/ is_401 r = true
  \/ (exists status txt data,
        r = Response status txt (Ok data) /\ ok status = true).
Proof.
  unfold failure. cbv zeta.
  destruct (env_generateContent env tr h token payload)
    as [e | status txt json]; simpl.
  - left. now exists e.
  - destruct (ok status) eqn:Hok.
    + destruct json as [data | e].
      * right. right. now exists status, txt, data.
      * left. exists e. split; [reflexivity|].
        unfold ok in Hok. destruct (Z.eqb_spec status 401); [|reflexivity].
        subst. discriminate.
    + destruct (status =? 401)%Z eqn:H401; [now right; left|].
      left. destruct (status =? 429)%Z; [eexists; split; reflexivity|].
      destruct (status >=? 400)%Z; eexists; split; reflexivity.
Qed.

Lemma sendMessage_from_failure req h rest token payload lastError st e :
  failure env (trace st) h token payload = Some e ->
  sendMessage_from env req (h :: rest) token payload lastError st
  = sendMessage_from env req rest token payload (Some e)
      (log (CallGenerateContent h token payload) st).
Proof.
  intros H. cbn [sendMessage_from]. unfold fetch_generateContent.
  unfold failure in H.
  destruct (env_generateContent env (trace st) h token payload)
    as [e' | status txt json].
  - now injection H as ->.
  - cbv beta iota. destruct (ok status); cbn [negb].
    + destruct json as [data | e']; [discriminate | now injection H as ->].
    + destruct (status =? 401)%Z; [discriminate|].
      destruct (status =? 429)%Z; [now injection H as <-|].
      destruct (status >=? 400)%Z; now injection H as <-.
Qed.

Lemma sendMessage_from_unauthorized req h rest token payload lastError st :
  is_401 (env_generateContent env (trace st) h token payload) = true ->
  sendMessage_from env req (h :: rest) token payload lastError st
  = match refreshAndGetProject env
            (log (CallGenerateContent h token payload) st) with
    | (Ok (token', project'), st2) =>
        sendMessage_from env req rest token' (set_project payload project')
          lastError st2
    | (Throw e, st2) =>
        sendMessage_from env req rest token payload (Some e) st2
    end.
Proof.
  intros H. cbn [sendMessage_from]. unfold fetch_generateContent.
  unfold is_401 in H.
  destruct (env_generateContent env (trace st) h token payload)
    as [e' | status txt json]; [discriminate|].
  cbv beta iota. apply Z.eqb_eq in H. subst status.
  change (negb (ok 401)) with true. change (401 =? 401)%Z with true.
  cbv iota.
  destruct (refreshAndGetProject env
              (log (CallGenerateContent h token payload) st))
    as [[[t' p']|e] st2]; reflexivity.
Qed.

Lemma same_but_project_refl p : same_but_project p p.
Proof. repeat split. Qed.

Lemma same_but_project_set p q x :
  same_but_project p q -> same_but_project (set_project p x) q.
Proof. intros (H1 & H2 & H3 & H4). repeat split; assumption. Qed.

Lemma same_but_project_trans p q r :
  same_but_project p q -> same_but_project q r -> same_but_project p r.
Proof.
  intros (H1 & H2 & H3 & H4) (K1 & K2 & K3 & K4).
  repeat split; congruence.
Qed.

(** The calls of the loop: one for each endpoint of a front part of the
    list, in order; the whole list when the loop throws. *)
Lemma sendMessage_from_calls req endpoints :
  forall token payload lastError st,
  exists new rest,
    generate_events (trace (snd (sendMessage_from env req endpoints token
                                   payload lastError st)))
    = new ++ generate_events (trace st)
    /\ endpoints = map (fun c => fst (fst c)) (rev new) ++ rest
    /\ (forall e, fst (sendMessage_from env req endpoints token payload
                        lastError st) = Throw e -> rest = [])
    /\ (forall r, fst (sendMessage_from env req endpoints token payload
                        lastError st) = Ok r -> new <> [])
    /\ Forall (fun c => same_but_project (snd c) payload) new.
Proof.
  induction endpoints as [|h rest IH]; intros token payload lastError st.
  - exists [], []. simpl. repeat split; auto. discriminate.
  - set (st1 := log (CallGenerateContent h token payload) st).
    assert (Hcont : forall token2 payload2 lastError2 st2,
               no_generation_step st1 st2 ->
               same_but_project payload2 payload ->
               sendMessage_from env req (h :: rest) token payload lastError st
               = sendMessage_from env req rest token2 payload2 lastError2 st2 ->
               exists new rest0,
                 generate_events
                   (trace (snd (sendMessage_from env req (h :: rest) token
                                  payload lastError st)))
                 = new ++ generate_events (trace st)
                 /\ h :: rest = map (fun c => fst (fst c)) (rev new) ++ rest0
                 /\ (forall e, fst (sendMessage_from env req (h :: rest) token
                                     payload lastError st) = Throw e ->
                               rest0 = [])
                 /\ (forall r, fst (sendMessage_from env req (h :: rest) token
                                     payload lastError st) = Ok r ->
                               new <> [])
                 /\ Forall (fun c => same_but_project (snd c) payload) new).
    { intros token2 payload2 lastError2 st2 Hstep Hsame ->.
      destruct (IH token2 payload2 lastError2 st2)
        as (new & rest0 & Hev & Hlist & Hthrow & _ & Hall).
      exists (new ++ [(h, token, payload)]), rest0.
      rewrite Hev, (no_generation_events _ _ Hstep). subst st1.
      cbn [log trace generate_events]. repeat split.
      - now rewrite <- app_assoc.
      - rewrite rev_app_distr. simpl. now rewrite <- Hlist.
      - exact Hthrow.
      - intros _ _ H. now destruct new.
      - apply Forall_app. split.
        + eapply Forall_impl; [|exact Hall]. intros c Hc.
          now apply same_but_project_trans with payload2.
        + repeat constructor. }
    destruct (answer_cases (trace st) h token payload)
      as [(e & Hf & _) | [H401 | (status & txt & data & Hr & Hok)]].
    + apply (Hcont token payload (Some e) st1);
        [apply no_generation_refl | apply same_but_project_refl
        | now apply sendMessage_from_failure].
    + pose proof (sendMessage_from_unauthorized req h rest token payload
                    lastError st H401) as Hstep. fold st1 in Hstep.
      pose proof (refreshAndGetProject_no_generation st1) as Hng.
      destruct (refreshAndGetProject env st1) as [[[t' p']|e] st2];
        simpl in Hng.
      * apply (Hcont t' (set_project payload p') lastError st2); auto.
        apply same_but_project_set, same_but_project_refl.
      * apply (Hcont token payload (Some e) st2); auto.
        apply same_but_project_refl.
    + rewrite (sendMessage_from_success env req h rest token payload lastError
                 st status txt data Hr Hok). fold st1.
      destruct (convertGoogleToAnthropic_quiet env data (model req) st1)
        as (r & st' & E & Q & _).
      rewrite E. exists [(h, token, payload)], rest. simpl.
      rewrite (no_generation_events _ _ (quiet_no_generation _ _ Q)).
      repeat split; auto; try discriminate.
      repeat constructor.
Qed.

(** X10: whatever the endpoints answer, the dispatcher calls them in their
    order of priority and never calls one of them twice: the hosts called
    are a front part of the list of endpoints.  When it returns a response,
    it has made at least one call; when it throws, it has called every
    endpoint. *)
Theorem dispatcher_calls_in_order (req : AnthropicRequest)
  (endpoints : list string) (token : string) (payload : Payload)
  (lastError : option Error) (st : State) :
  let run := sendMessage_from env req endpoints token payload lastError st in
  exists called rest,
    hosts_called (trace (snd run)) = hosts_called (trace st) ++ called
    /\ endpoints = called ++ rest
    /\ (forall e, fst run = Throw e -> rest = [])
    /\ (forall r, fst run = Ok r -> called <> []).
Proof.
  intros run. subst run.
  destruct (sendMessage_from_calls req endpoints token payload lastError st)
    as (new & rest & Hev & Hlist & Hthrow & Hok & _).
  exists (map (fun c => fst (fst c)) (rev new)), rest.
  unfold hosts_called. rewrite Hev, rev_app_distr, map_app.
  repeat split; auto.
  intros r Hr H. apply (Hok r Hr).
  destruct new as [|c new]; [reflexivity|].
  simpl in H. rewrite map_app in H. now destruct (map _ (rev new)).
Qed.

(** X11: every generation call of one dispatch carries the model, the
    request, with its session id, the user agent and the request id of the
    payload that the dispatch started with; only the project of the payload
    changes from one call to the next. *)
Theorem dispatcher_payload_stable (req : AnthropicRequest)
  (endpoints : list string) (token : string) (payload : Payload)
  (lastError : option Error) (st : State) :
  exists new,
    generate_events (trace (snd (sendMessage_from env req endpoints token
                                   payload lastError st)))
    = new ++ generate_events (trace st)
    /\ Forall (fun c => same_but_project (snd c) payload) new.
Proof.
  destruct (sendMessage_from_calls req endpoints token payload lastError st)
    as (new & rest & Hev & _ & _ & _ & Hall).
  now exists new.
Qed.

(** What [sendMessage] does before its loop, when the token is there. *)
Lemma sendMessage_preamble req st token :
  env_getToken env (trace st) = Ok token ->
  exists payload st0,
    sendMessage env req st
    = sendMessage_from env req ANTIGRAVITY_ENDPOINT_FALLBACKS token payload
        None st0
    /\ quiet_step st st0
    /\ cachedProject st0 = Some (project payload).
Proof.
  intros Htoken. unfold sendMessage, bind, try_catch, getToken at 1.
  rewrite Htoken.
  pose proof (getProject_quiet env token (log CallGetToken st)) as Q.
  destruct (getProject_caches env token (log CallGetToken st))
    as (p & st1 & E & Hc & _).
  rewrite E in *. cbn [snd] in Q. unfold ret at 1.
  unfold buildCloudCodeRequest, bind, mathRandom, randomUUID, ret.
  cbv beta iota.
  eexists. eexists. split; [reflexivity|]. split; [|exact Hc].
  apply quiet_step_trans with (log CallGetToken st);
    [now apply quiet_step_log|].
  apply quiet_step_trans with st1; [exact Q|].
  apply quiet_step_trans with (log CallMathRandom st1);
    now apply quiet_step_log.
Qed.

(** Without a 401 the loop refreshes nothing and leaves the cache alone. *)
Lemma sendMessage_from_keeps req endpoints :
  (forall tr h tok p, is_401 (env_generateContent env tr h tok p) = false) ->
  forall token payload lastError st,
    refresh_count
      (trace (snd (sendMessage_from env req endpoints token payload
                     lastError st)))
    = refresh_count (trace st)
    /\ cachedProject
         (snd (sendMessage_from env req endpoints token payload lastError st))
       = cachedProject st.
Proof.
  intros Hno.
  induction endpoints as [|h rest IH]; intros token payload lastError st.
  - split; reflexivity.
  - destruct (answer_cases (trace st) h token payload)
      as [(e & Hf & _) | [H401 | (status & txt & data & Hr & Hok)]].
    + rewrite (sendMessage_from_failure req h rest token payload lastError st e
                 Hf).
      destruct (IH token payload (Some e)
                  (log (CallGenerateContent h token payload) st)) as [H1 H2].
      rewrite H1, H2. split; reflexivity.
    + rewrite Hno in H401. discriminate.
    + rewrite (sendMessage_from_success env req h rest token payload lastError
                 st status txt data Hr Hok).
      destruct (convertGoogleToAnthropic_quiet env data (model req)
                  (log (CallGenerateContent h token payload) st))
        as (r & st' & E & Q & C).
      rewrite E. simpl. rewrite (quiet_step_refresh_count _ _ Q), C.
      split; reflexivity.
Qed.

(** X12: as long as no generation call is answered with 401, [sendMessage]
    never refreshes the credential, whatever else happens: hosts out of
    quota, server errors, transport errors, a credential store that fails,
    discovery that fails. *)
Theorem no_refresh_without_401 (req : AnthropicRequest) (st : State) :
  (forall tr h tok p, is_401 (env_generateContent env tr h tok p) = false) ->
  refresh_count (trace (snd (sendMessage env req st)))
  = refresh_count (trace st).
Proof.
  intros Hno.
  destruct (env_getToken env (trace st)) as [token|e] eqn:Htoken.
  - destruct (sendMessage_preamble req st token Htoken)
      as (payload & st0 & -> & Q & _).
    destruct (sendMessage_from_keeps req ANTIGRAVITY_ENDPOINT_FALLBACKS Hno
                token payload None st0) as [H _].
    now rewrite H, (quiet_step_refresh_count _ _ Q).
  - unfold sendMessage, bind, getToken. now rewrite Htoken.
Qed.

(** A refresh succeeds when the credential store answers. *)
Lemma refreshAndGetProject_succeeds st :
  (forall tr, env_refreshToken env tr = Ok tt) ->
  (forall tr, exists tok, env_getToken env tr = Ok tok) ->
  exists token' project' st2,
    refreshAndGetProject env st = (Ok (token', project'), st2).
Proof.
  intros Hr Ht.
  unfold refreshAndGetProject, bind, refreshToken, getToken,
    clearProjectCache, set_cachedProject.
  rewrite Hr. simpl.
  destruct (Ht (CallRefreshToken :: trace st)) as [tok ->]. simpl.
  match goal with
  | |- context [getProject env tok ?s] =>
      destruct (getProject_caches env tok s) as (p & st' & -> & _)
  end.
  now exists tok, p, st'.
Qed.

Lemma sendMessage_from_all_401 req endpoints :
  (forall tr h tok p, is_401 (env_generateContent env tr h tok p) = true) ->
  (forall tr, env_refreshToken env tr = Ok tt) ->
  (forall tr, exists tok, env_getToken env tr = Ok tok) ->
  forall token payload lastError st,
  exists st',
    sendMessage_from env req endpoints token payload lastError st
    = (Throw (final_error lastError), st')
    /\ refresh_count (trace st')
       = refresh_count (trace st) + List.length endpoints.
Proof.
  intros H401 Hr Ht.
  induction endpoints as [|h rest IH]; intros token payload lastError st.
  - exists st. simpl. split; [reflexivity | lia].
  - rewrite (sendMessage_from_unauthorized req h rest token payload lastError
               st (H401 _ _ _ _)).
    set (st1 := log (CallGenerateContent h token payload) st).
    destruct (refreshAndGetProject_succeeds st1 Hr Ht) as (t' & p' & st2 & E).
    rewrite E.
    destruct (refreshAndGetProject_ok env st1 t' p' st2 E)
      as (_ & _ & _ & _ & Hn & _).
    destruct (IH t' (set_project payload p') lastError st2) as (st' & E' & Hc).
    exists st'. split; [exact E'|]. rewrite Hc, Hn. subst st1. simpl. lia.
Qed.

Lemma sendMessage_all_401 (req : AnthropicRequest) (st : State) :
  (forall tr h tok p, is_401 (env_generateContent env tr h tok p) = true) ->
  (forall tr, env_refreshToken env tr = Ok tt) ->
  (forall tr, exists tok, env_getToken env tr = Ok tok) ->
  exists st',
    sendMessage env req st = (Throw (Err "All endpoints failed"), st')
    /\ refresh_count (trace st') = refresh_count (trace st) + 3
    /\ hosts_called (trace st')
       = hosts_called (trace st) ++ ANTIGRAVITY_ENDPOINT_FALLBACKS.
Proof.
  intros H401 Hr Ht.
  destruct (Ht (trace st)) as [token Htoken].
  destruct (sendMessage_preamble req st token Htoken)
    as (payload & st0 & E & Q & _).
  destruct (sendMessage_from_all_401 req ANTIGRAVITY_ENDPOINT_FALLBACKS H401 Hr
              Ht token payload None st0) as (st' & E' & Hc).
  exists st'. rewrite E. split; [exact E'|]. split.
  - rewrite Hc, (quiet_step_refresh_count _ _ Q). reflexivity.
  - destruct (sendMessage_from_calls req ANTIGRAVITY_ENDPOINT_FALLBACKS
                token payload None st0) as (new & rest & Hev & Hl & Hthrow & _).
    rewrite E' in Hev, Hthrow. simpl in Hev, Hthrow.
    rewrite (Hthrow _ eq_refl), app_nil_r in Hl.
    unfold hosts_called.
    rewrite Hev, (no_generation_events _ _ (quiet_no_generation _ _ Q)).
    rewrite rev_app_distr, map_app. now rewrite <- Hl.
Qed.

(** X13: when every endpoint answers 401 although each refresh succeeds,
    [sendMessage] refreshes the credential once for each endpoint, the last
    time without any call after it, and throws the error
    [All endpoints failed]: a 401 records no error of its own. *)
Theorem all_unauthorized_exhausts (req : AnthropicRequest) (st : State) :
  (forall tr h tok p, is_401 (env_generateContent env tr h tok p) = true) ->
  (forall tr, env_refreshToken env tr = Ok tt) ->
  (forall tr, exists tok, env_getToken env tr = Ok tok) ->
  exists st',
    sendMessage env req st = (Throw (Err "All endpoints failed"), st')
    /\ refresh_count (trace st') = refresh_count (trace st) + 3
    /\ hosts_called (trace st')
       = hosts_called (trace st) ++ ANTIGRAVITY_ENDPOINT_FALLBACKS.
Proof. exact (sendMessage_all_401 req st). Qed.

Lemma last_cons_default {A} (x : A) l d : last (x :: l) d = last l x.
Proof.
  revert x d. induction l as [|y l IH]; intros x d; [reflexivity|].
  change (last (x :: y :: l) d) with (last (y :: l) d).
  now rewrite (IH y d), (IH y x).
Qed.

Lemma sendMessage_from_all_fail req endpoints (err : string -> Error) :
  (forall tr h tok p, In h endpoints ->
     failure env tr h tok p = Some (err h)) ->
  forall token payload lastError st,
  exists st',
    sendMessage_from env req endpoints token payload lastError st
    = (Throw (last (map err endpoints) (final_error lastError)), st')
    /\ refresh_count (trace st') = refresh_count (trace st)
    /\ cachedProject st' = cachedProject st.
Proof.
  induction endpoints as [|h rest IH]; intros Hfail token payload lastError st.
  - exists st. repeat split.
  - rewrite (sendMessage_from_failure req h rest token payload lastError st
               (err h) (Hfail _ _ _ _ (or_introl eq_refl))).
    destruct (IH (fun tr h' tok p H => Hfail tr h' tok p (or_intror H))
                token payload (Some (err h))
                (log (CallGenerateContent h token payload) st))
      as (st' & E & Hc & Hp).
    exists st'. rewrite E. cbn [map]. rewrite last_cons_default.
    repeat split; auto.
Qed.

(** X14: when every endpoint fails otherwise than by a 401 (no answer, 429,
    another status from 400 on, a status below 400 that is not ok, for
    which the body is read a second time and the error of that read is
    recorded, a body that is not JSON), [sendMessage]
    calls each endpoint once and throws the error recorded for the last
    endpoint of the list, without a refresh: the errors of the endpoints
    before it are lost. *)
Theorem all_hosts_failing_throws_last (req : AnthropicRequest) (st : State)
  (token : string) (err : string -> Error) :
  env_getToken env (trace st) = Ok token ->
  (forall tr h tok p, In h ANTIGRAVITY_ENDPOINT_FALLBACKS ->
     failure env tr h tok p = Some (err h)) ->
  exists st',
    sendMessage env req st = (Throw (err ANTIGRAVITY_ENDPOINT_PROD), st')
    /\ refresh_count (trace st') = refresh_count (trace st)
    /\ hosts_called (trace st')
       = hosts_called (trace st) ++ ANTIGRAVITY_ENDPOINT_FALLBACKS.
Proof.
  intros Htoken Hfail.
  destruct (sendMessage_preamble req st token Htoken)
    as (payload & st0 & E & Q & _).
  destruct (sendMessage_from_all_fail req ANTIGRAVITY_ENDPOINT_FALLBACKS err
              Hfail token payload None st0) as (st' & E' & Hc & _).
  exists st'. rewrite E. split; [exact E'|]. split.
  - now rewrite Hc, (quiet_step_refresh_count _ _ Q).
  - destruct (sendMessage_from_calls req ANTIGRAVITY_ENDPOINT_FALLBACKS
                token payload None st0) as (new & rest & Hev & Hl & Hthrow & _).
    rewrite E' in Hev, Hthrow. simpl in Hev, Hthrow.
    rewrite (Hthrow _ eq_refl), app_nil_r in Hl.
    unfold hosts_called.
    rewrite Hev, (no_generation_events _ _ (quiet_no_generation _ _ Q)).
    rewrite rev_app_distr, map_app. now rewrite <- Hl.
Qed.

Lemma converted_response_shape data model st r st' :
  convertGoogleToAnthropic env data model st = (Ok r, st') ->
  response_shape model r.
Proof.
  intros E.
  destruct (convertGoogleToAnthropic_loop env data model st)
    as (bs & n & st1 & r0 & st0 & Eloop & E0 & Hids & _ & Hc & Hs).
  rewrite E in E0. injection E0 as <- <-.
  unfold convertGoogleToAnthropic, bind in E. rewrite Eloop in E.
  simpl in E. injection E as <- _. simpl in *.
  repeat split; auto.
  - destruct bs; discriminate.
  - destruct bs; [repeat constructor | exact Hids].
  - destruct (is_reason _ "STOP"); [now left|].
    destruct (is_reason _ "MAX_TOKENS"); [now right; left|].
    destruct (_ || _); [now right; right; left | now left].
  - eexists. reflexivity.
Qed.

Lemma sendMessage_from_shape req endpoints :
  forall token payload lastError st r st',
    sendMessage_from env req endpoints token payload lastError st = (Ok r, st') ->
    response_shape (model req) r.
Proof.
  induction endpoints as [|h rest IH];
    intros token payload lastError st r st' E; [discriminate|].
  destruct (answer_cases (trace st) h token payload)
    as [(e & Hf & _) | [H401 | (status & txt & data & Hr & Hok)]].
  - rewrite (sendMessage_from_failure req h rest token payload lastError st e
               Hf) in E.
    exact (IH _ _ _ _ _ _ E).
  - rewrite (sendMessage_from_unauthorized req h rest token payload lastError
               st H401) in E.
    destruct (refreshAndGetProject env _) as [[[t' p']|e] st2];
      exact (IH _ _ _ _ _ _ E).
  - rewrite (sendMessage_from_success env req h rest token payload lastError
               st status txt data Hr Hok) in E.
    exact (converted_response_shape _ _ _ _ _ E).
Qed.

Lemma sendMessage_returns_shape (req : AnthropicRequest) (st st' : State)
  (r : AnthropicResponse) :
  sendMessage env req st = (Ok r, st') -> response_shape (model req) r.
Proof.
  intros E.
  destruct (env_getToken env (trace st)) as [token|e] eqn:Htoken.
  - destruct (sendMessage_preamble req st token Htoken)
      as (payload & st0 & E0 & _).
    rewrite E0 in E. exact (sendMessage_from_shape _ _ _ _ _ _ _ _ E).
  - unfold sendMessage, bind, getToken in E. rewrite Htoken in E.
    discriminate.
Qed.

(** X15: whenever [sendMessage] returns, whichever endpoint answered and
    after whatever failures, the response is a message of the assistant for
    the model that the request named, not the mapped one, its content is
    not empty, every tool call in it has an id, its stop reason is one of
    [end_turn], [max_tokens] and [tool_use], and its id is a generated
    [msg_...]. *)
Theorem sendMessage_result_shape (req : AnthropicRequest) (st st' : State)
  (r : AnthropicResponse) :
  sendMessage env req st = (Ok r, st') -> response_shape (model req) r.
Proof. exact (sendMessage_returns_shape req st st' r). Qed.

End MoreDispatcher.

Lemma no_refresh_without_401_witness :
  refresh_count
    (trace (snd (sendMessage rate_limited_twice sample_request initial_state)))
  = 0.
Proof.
  apply (no_refresh_without_401 rate_limited_twice sample_request initial_state).
  intros tr h tok p. simpl.
  destruct (h =? ANTIGRAVITY_ENDPOINT_PROD); reflexivity.
Defined.

Lemma all_unauthorized_exhausts_witness :
  exists st',
    sendMessage always_unauthorized sample_request initial_state
    = (Throw (Err "All endpoints failed"), st')
    /\ refresh_count (trace st') = 3
    /\ hosts_called (trace st') = ANTIGRAVITY_ENDPOINT_FALLBACKS.
Proof.
  apply (all_unauthorized_exhausts always_unauthorized sample_request
           initial_state).
  - intros tr h tok p. reflexivity.
  - intros tr. reflexivity.
  - intros tr. eexists. reflexivity.
Defined.

Lemma all_hosts_failing_throws_last_witness :
  exists st',
    sendMessage all_hosts_fail sample_request initial_state
    = (Throw (Err "Unexpected end of JSON input"), st')
    /\ refresh_count (trace st') = 0
    /\ hosts_called (trace st') = ANTIGRAVITY_ENDPOINT_FALLBACKS.
Proof.
  apply (all_hosts_failing_throws_last all_hosts_fail sample_request
           initial_state "token-1" error_of_host).
  - reflexivity.
  - intros tr h tok p [<- | [<- | [<- | []]]]; reflexivity.
Defined.

Lemma sendMessage_result_shape_witness :
  exists r st',
    sendMessage rate_limited_twice sample_request initial_state = (Ok r, st')
    /\ response_shape (Some "claude-sonnet-4-5") r.
Proof.
  eexists. eexists. split; [vm_compute; reflexivity|].
  eapply (sendMessage_result_shape rate_limited_twice sample_request
            initial_state).
  vm_compute. reflexivity.
Defined.

(* ================================================================= *)
(** * Streaming chunks *)

Lemma starts_texts k ts : starts (map (fun t => content_block_delta k (text_delta t)) ts) = [].
Proof. induction ts; simpl; auto. Qed.

Lemma stops_texts k ts : stops (map (fun t => content_block_delta k (text_delta t)) ts) = [].
Proof. induction ts; simpl; auto. Qed.

Lemma deltas_at_texts k' k ts :
  deltas_at k' (map (fun t => content_block_delta k (text_delta t)) ts)
  = if (k =? k')%nat then map text_delta ts else [].
Proof.
  induction ts as [|t ts IH]; simpl.
  - now destruct (k =? k')%nat.
  - rewrite IH. now destruct (k =? k')%nat.
Qed.

(** X16: the events of a chunk are two opening events when it is the first
    one, then one text delta with index 0 for every part that has a text,
    in order, thought-marked or not, then three closing events when it is
    the last one, and nothing else: a part that holds a function call and
    no text gives no event.  A chunk that is neither the first nor the last
    gives its text deltas only and draws no random id.  The [index]
    argument is not used: the result is the same for every value of it. *)
Theorem streaming_chunk_deltas (env : Env) (googleChunk : GoogleResponse)
  (model : option string) (index : nat) (isFirst isLast : bool) (st : State) :
  exists opening closing st',
    convertStreamingChunk env googleChunk model index isFirst isLast st
    = (Ok (opening
           ++ map (fun t => content_block_delta 0 (text_delta t))
                (part_texts (parts_of googleChunk))
           ++ closing), st')
    /\ List.length opening = (if isFirst then 2 else 0)
    /\ List.length closing = (if isLast then 3 else 0)
    /\ (forall k, deltas_at k opening = [] /\ deltas_at k closing = [])
    /\ (isFirst = false -> st' = st)
    /\ (part_texts (parts_of googleChunk) = [] ->
        isFirst = false -> isLast = false ->
        convertStreamingChunk env googleChunk model index isFirst isLast st
        = (Ok [], st))
    /\ (forall index',
          convertStreamingChunk env googleChunk model index' isFirst isLast st
          = convertStreamingChunk env googleChunk model index isFirst isLast
              st).
Proof.
  unfold convertStreamingChunk, bind.
  destruct isFirst; simpl.
  - eexists [_; _]. eexists. eexists. split; [reflexivity|].
    split; [reflexivity|]. split; [destruct isLast; reflexivity|].
    split; [intros k; destruct isLast; split; reflexivity|].
    split; [discriminate|]. split; [discriminate | reflexivity].
  - exists []. eexists. eexists. split; [reflexivity|].
    split; [reflexivity|]. split; [destruct isLast; reflexivity|].
    split; [intros k; destruct isLast; split; reflexivity|].
    split; [reflexivity|]. split; [|reflexivity].
    intros -> _ ->. reflexivity.
Qed.

Example streaming_chunk_example :
  exists events st',
    convertStreamingChunk (world no_discovery no_generation) mixed_chunk None 7
      true true initial_state = (Ok events, st')
    /\ deltas_at 0 events = [ text_delta "pondering"; text_delta "Hello" ]
    /\ deltas_at 7 events = []
    /\ In (message_delta "end_turn" None 0) events.
Proof.
  eexists. eexists. split; [vm_compute; reflexivity|].
  simpl. repeat split; auto 10.
Qed.

(** X17: a chunk converted as the first and the last one gives a stream of
    its own: its only [message_start] first, one text block opened and
    closed with index 0, its only [message_stop] last.  The stop reason it
    reports is [max_tokens] when the backend finished with MAX_TOKENS and
    [end_turn] in every other case, also when the chunk holds a function
    call or finished with TOOL_USE. *)
Theorem streaming_single_chunk (env : Env) (googleChunk : GoogleResponse)
  (model : option string) (index : nat) (st : State) :
  exists events st' id reason out,
    convertStreamingChunk env googleChunk model index true true st
    = (Ok events, st')
    /\ events
       = message_start id model 0
         :: bracket 0 (RText "")
              (map text_delta (part_texts (parts_of googleChunk)))
         ++ [ message_delta reason None out; message_stop ]
    /\ starts events = [ (0, RText "") ]
    /\ stops events = [ 0 ]
    /\ List.length (filter is_message_start events) = 1
    /\ List.length (filter is_message_stop events) = 1
    /\ reason
       = (if is_reason (finishReason (firstCandidate_of googleChunk))
               "MAX_TOKENS"
          then "max_tokens" else "end_turn").
Proof.
  unfold convertStreamingChunk, bind. simpl.
  eexists. eexists. eexists. eexists. eexists.
  split; [reflexivity|].
  assert (E : forall (a b c d e : StreamEvent) ts,
             [a; b] ++ map (fun t => content_block_delta 0 (text_delta t)) ts
               ++ [c; d; e]
             = a :: (b :: map (content_block_delta 0) (map text_delta ts)
                        ++ [c]) ++ [d; e]).
  { intros. simpl. rewrite map_map, <- app_assoc. reflexivity. }
  split; [apply E|].
  cbn [app starts stops filter is_message_start is_message_stop].
  rewrite starts_app, stops_app, !filter_app, starts_texts, stops_texts.
  rewrite <- (map_map text_delta (content_block_delta 0)).
  rewrite message_start_deltas, message_stop_deltas.
  repeat split; reflexivity.
Qed.

Example match_reset_examples :
  match_reset "You have exhausted your capacity. Your Quota will reset after 2h15m30s."
  = Some "2h15m30s"
  /\ match_reset "quota will reset after 45S, retry then" = Some "45S"
  /\ match_reset "quota will reset after 2h15m" = None
  /\ match_reset "quota will reset after soon" = None.
Proof. repeat split; reflexivity. Qed.

Example match_message_example :
  match_message
    ("{" ++ quote ++ "error" ++ quote ++ ":{" ++ quote ++ "message" ++ quote
     ++ ":" ++ quote ++ "max_tokens too large" ++ quote ++ "}}")
  = Some "max_tokens too large".
Proof. reflexivity. Qed.

(* ================================================================= *)
(** * The catalog of models *)

(** X18: every name that the mapping table maps a model to is the id of a
    model that [listModels] lists, and every listed id is mapped to itself
    and is in the Claude-compatible family, whatever the time of the
    call. *)
Theorem mapped_models_listed (now : Z) :
  (forall s v, lookup_model s MODEL_MAPPINGS = Some v ->
               In v (map listed_id (listModels now)))
  /\ (forall m, In m (listModels now) ->
                mapModelName (Some (listed_id m)) = Some (listed_id m)
                /\ in_claude_family (Some (listed_id m)) = true).
Proof.
  split.
  - intros s v. unfold MODEL_MAPPINGS. cbn [lookup_model].
    repeat match goal with
           | |- context [?k =? s] =>
               destruct (String.eqb_spec k s);
               [intros H; injection H as <-; simpl; tauto|]
           end.
    discriminate.
  - intros m [<- | [<- | [<- | []]]]; split; reflexivity.
Qed.

(* ================================================================= *)
(** * The handler of POST /v1/messages *)

Lemma parseError_cases (e : Error) :
  In (statusCode (parseError e), errorType (parseError e))
     [ (401, "authentication_error"); (429, "rate_limit_error");
       (400, "invalid_request_error"); (503, "api_error");
       (403, "permission_error"); (500, "api_error") ]%Z.
Proof.
  destruct e as [message]. unfold parseError.
  repeat match goal with
         | |- context [if ?c then _ else _] => destruct c
         end; simpl; tauto.
Qed.

Section HandlerProperties.

Variable env : Env.
Variable stringify : JSON -> string.
Variable forceRefresh : M string.

(** X19: the handler answers a body whose [messages] is missing or is not an
    array with 400 and [invalid_request_error], and makes no call at all.
    For a request that is not streamed it answers 200 with the response
    exactly when [sendMessage] returns one, which is a message for the model
    of the body, or for the default model when the body names none; when
    [sendMessage] throws, the status and the type of the error sent are one
    of 401 authentication, 429 rate limit, 400 invalid request, 503 and 500
    api, 403 permission, and only an authentication error makes the handler
    touch the cache or the credential. *)
Theorem post_messages_json (body : MessagesBody) (st : State) :
  (body_messages body = None ->
   post_messages env stringify forceRefresh body st
   = (JsonReply 400
        (ErrorBody "invalid_request_error"
           "messages is required and must be an array"), st))
  /\ (forall messages,
        body_messages body = Some messages -> body_stream body = false ->
        (forall r st',
            sendMessage env (handler_request body messages) st = (Ok r, st') ->
            post_messages env stringify forceRefresh body st
            = (JsonReply 200 (MessageBody r), st')
            /\ response_shape
                 (Some (or_str_default (body_model body)
                          "claude-3-5-sonnet-20241022")) r)
        /\ (forall e st',
              sendMessage env (handler_request body messages) st
              = (Throw e, st') ->
              exists status type message st'',
                post_messages env stringify forceRefresh body st
                = (JsonReply status (ErrorBody type message), st'')
                /\ In (status, type)
                     [ (401, "authentication_error"); (429, "rate_limit_error");
                       (400, "invalid_request_error"); (503, "api_error");
                       (403, "permission_error"); (500, "api_error") ]%Z
                /\ (type <> "authentication_error" -> st'' = st'))).
Proof.
  split.
  - intros H. unfold post_messages. now rewrite H.
  - intros messages Hm Hs. split.
    + intros r st' E. unfold post_messages. rewrite Hm, Hs, E.
      split; [reflexivity|].
      apply (sendMessage_returns_shape env _ _ _ _ E).
    + intros e st' E. unfold post_messages. rewrite Hm, Hs, E.
      pose proof (parseError_cases e) as Hcases.
      destruct (errorType (parseError e) =? "authentication_error") eqn:Hauth.
      * apply String.eqb_eq in Hauth.
        destruct ((_ <- clearProjectCache ;; forceRefresh) st')
          as [[tok|e'] st''];
          eexists; eexists; eexists; eexists;
          (split; [reflexivity|]); (split; [exact Hcases|]);
          intros Hne; contradiction.
      * eexists. eexists. eexists. eexists.
        split; [reflexivity|]. split; [exact Hcases|]. reflexivity.
Qed.

(** X20: a streamed request is answered by a stream in every case.  When
    [sendMessage] returns, the frames are the events of its response, from
    [message_start] to [message_stop]; when it throws, the stream is one
    [error] frame and nothing else.  On this path the handler leaves the
    cache and the credential alone, also after an authentication error. *)
Theorem post_messages_stream (body : MessagesBody) (messages : list Message)
  (st : State) :
  body_messages body = Some messages ->
  body_stream body = true ->
  let run := sendMessage env (handler_request body messages) st in
  exists frames,
    post_messages env stringify forceRefresh body st
    = (StreamReply frames, snd run)
    /\ ((exists r middle,
            fst run = Ok r
            /\ frames = map EventFrame (stream_events stringify r)
            /\ frames
               = EventFrame (message_start (message_id r) (message_model r)
                               (input_tokens (usage r)))
                 :: middle ++ [ EventFrame message_stop ])
        \/ (exists e,
              fst run = Throw e
              /\ frames = [ ErrorFrame (errorType (parseError e))
                              (errorMessage (parseError e)) ])).
Proof.
  intros Hm Hs run. subst run. unfold post_messages.
  rewrite Hm, Hs, sendMessageStream_events.
  destruct (sendMessage env (handler_request body messages) st)
    as [[r|e] st']; simpl.
  - eexists. split; [reflexivity|]. left. eexists r, _.
    split; [reflexivity|]. split; [reflexivity|].
    unfold stream_events. cbn [map]. f_equal.
    rewrite map_app. cbn [map].
    change [EventFrame (message_delta (stop_reason r) (stop_sequence r)
                          (output_tokens (usage r)));
            EventFrame message_stop]
      with ([EventFrame (message_delta (stop_reason r) (stop_sequence r)
                           (output_tokens (usage r)))]
            ++ [EventFrame message_stop]).
    rewrite app_assoc. reflexivity.
  - eexists. split; [reflexivity|]. right. now exists e.
Qed.

(** X21: when every endpoint answers 401 although the refreshes of the
    dispatcher succeed, a request that is not streamed is answered with 503
    and [api_error], not with 401: the error thrown is
    [All endpoints failed], and the handler does not force a refresh of its
    own. *)
Theorem post_messages_all_unauthorized (body : MessagesBody)
  (messages : list Message) (st : State) :
  body_messages body = Some messages ->
  body_stream body = false ->
  (forall tr h tok p, is_401 (env_generateContent env tr h tok p) = true) ->
  (forall tr, env_refreshToken env tr = Ok tt) ->
  (forall tr, exists tok, env_getToken env tr = Ok tok) ->
  post_messages env stringify forceRefresh body st
  = (JsonReply 503
       (ErrorBody "api_error"
          "Unable to connect to Claude API. Check that Antigravity is running."),
     snd (sendMessage env (handler_request body messages) st)).
Proof.
  intros Hm Hs H401 Hr Ht.
  destruct (sendMessage_all_401 env (handler_request body messages) st H401 Hr Ht)
    as (st' & E & _).
  unfold post_messages. rewrite Hm, Hs, E. reflexivity.
Qed.

End HandlerProperties.

Lemma post_messages_stream_witness :
  exists frames r,
    post_messages rate_limited_twice sample_stringify recorded_refresh
      (sample_body true) initial_state
    = (StreamReply frames,
       snd (sendMessage rate_limited_twice
              (handler_request (sample_body true)
                 [ {| role := "user"; content := ContentString "hello" |} ])
              initial_state))
    /\ frames = map EventFrame (stream_events sample_stringify r)
    /\ message_content r = [ RText ANTIGRAVITY_ENDPOINT_PROD ].
Proof.
  destruct (post_messages_stream rate_limited_twice sample_stringify
              recorded_refresh (sample_body true)
              [ {| role := "user"; content := ContentString "hello" |} ]
              initial_state eq_refl eq_refl)
    as (frames & E & [(r & middle & Hr & Hf & _) | (e & He & _)]).
  - exists frames, r. split; [exact E|]. split; [exact Hf|].
    vm_compute in Hr. injection Hr as <-. reflexivity.
  - vm_compute in He. discriminate.
Defined.

Lemma post_messages_all_unauthorized_witness :
  fst (post_messages always_unauthorized sample_stringify recorded_refresh
         (sample_body false) initial_state)
  = JsonReply 503
      (ErrorBody "api_error"
         "Unable to connect to Claude API. Check that Antigravity is running.").
Proof.
  rewrite (post_messages_all_unauthorized always_unauthorized sample_stringify
             recorded_refresh (sample_body false)
             [ {| role := "user"; content := ContentString "hello" |} ]
             initial_state eq_refl eq_refl).
  - reflexivity.
  - intros tr h tok p. reflexivity.
  - intros tr. reflexivity.
  - intros tr. eexists. reflexivity.
Defined.

(* ================================================================= *)
(** * Sizes of the text chunks *)

Lemma take_length_min n : forall s,
  String.length (take n s) = Nat.min n (String.length s).
Proof.
  induction n as [|n IH]; intros [|c s]; simpl; auto.
Qed.

Lemma drop_length n : forall s,
  String.length (drop n s) = String.length s - n.
Proof.
  induction n as [|n IH]; intros [|c s]; simpl; auto.
Qed.

Lemma text_event_injective k ts ts' :
  map (text_event k) ts = map (text_event k) ts' -> ts = ts'.
Proof.
  revert ts'. induction ts as [|t ts IH]; intros [|t' ts'] H;
    try discriminate; auto.
  simpl in H. injection H as -> H. f_equal. now apply IH.
Qed.

Lemma text_deltas_sizes blockIndex text : forall n i,
  String.length text - i <= n ->
  exists ts,
    text_deltas blockIndex text i = map (text_event blockIndex) ts
    /\ Forall (fun t => 1 <= String.length t <= STREAMING_CHUNK_SIZE) ts.
Proof.
  assert (Hc : 0 < STREAMING_CHUNK_SIZE) by (unfold STREAMING_CHUNK_SIZE; lia).
  induction n as [|n IH]; intros i Hn.
  - exists []. rewrite text_deltas_ge by lia. now split.
  - destruct (le_lt_dec (String.length text) i) as [Hge | Hlt].
    + exists []. rewrite text_deltas_ge by lia. now split.
    + destruct (IH (i + STREAMING_CHUNK_SIZE)) as (ts & E & Hall); [lia|].
      exists (slice i (i + STREAMING_CHUNK_SIZE) text :: ts).
      rewrite text_deltas_lt by exact Hlt. rewrite E. split; [reflexivity|].
      constructor; [|exact Hall].
      unfold slice. rewrite take_length_min, drop_length. lia.
Qed.

(** X22: every delta of a text block carries at least one character and at
    most [STREAMING_CHUNK_SIZE] characters: the stream has no empty text
    delta, and an empty text block has no delta at all. *)
Theorem text_deltas_bounded (stringify : JSON -> string)
  (fullResponse : AnthropicResponse) (k : nat) (text : string) :
  nth_error (message_content fullResponse) k = Some (RText text) ->
  exists ts,
    deltas_at k (stream_events stringify fullResponse) = map text_delta ts
    /\ Forall (fun t => 1 <= String.length t <= STREAMING_CHUNK_SIZE) ts
    /\ (text = "" -> ts = []).
Proof.
  intros Hk. unfold stream_events. cbn [deltas_at].
  rewrite deltas_at_app. cbn [deltas_at]. rewrite app_nil_r.
  pose proof (deltas_at_content_events stringify _ 0 k (RText text) Hk) as E.
  cbn [Nat.add] in E. rewrite E. unfold deltas_of_block, block_events.
  destruct (text_deltas_sizes k text (String.length text) 0)
    as (ts & Ets & Hall); [lia|].
  exists ts. rewrite Ets. cbn [deltas_at].
  rewrite deltas_at_app. unfold text_event.
  rewrite <- (map_map text_delta (content_block_delta k)), deltas_at_deltas.
  rewrite Nat.eqb_refl. cbn [deltas_at]. rewrite app_nil_r.
  split; [reflexivity|]. split; [exact Hall|].
  intros ->. rewrite text_deltas_ge in Ets by (simpl; lia).
  destruct ts; [reflexivity | discriminate].
Qed.

Lemma text_deltas_bounded_witness :
  exists ts,
    deltas_at 2 (stream_events sample_stringify (response_of_blocks sample_blocks))
    = map text_delta ts
    /\ ts = [].
Proof.
  destruct (text_deltas_bounded sample_stringify
              (response_of_blocks sample_blocks) 2 "" eq_refl)
    as (ts & E & _ & Hempty).
  exists ts. split; [exact E | now apply Hempty].
Defined.

(* ================================================================= *)
(** * Names that need no change *)

Lemma take_short n : forall s, String.length s <= n -> take n s = s.
Proof.
  induction n as [|n IH]; intros [|c s]; simpl; auto; try lia.
  intros H. rewrite IH; [reflexivity | lia].
Qed.

(** X23: a tool name that is made of letters, digits, underscores and
    hyphens and has at most 64 characters is declared to the backend as it
    is, so that the name of a tool call that comes back is the name the
    client gave; and sanitizing a name twice changes nothing more. *)
Theorem sanitize_name_fixed (name : string) :
  (all_chars name_char name = true -> String.length name <= 64 ->
   sanitize_name name = name)
  /\ sanitize_name (sanitize_name name) = sanitize_name name
  /\ (forall idx tool,
        tool_name tool = Some name -> name_constrained name ->
        decl_name (functionDeclaration idx tool) = name).
Proof.
  assert (Hfix : forall s, all_chars name_char s = true ->
                           String.length s <= 64 -> sanitize_name s = s).
  { intros s Hc Hl. unfold sanitize_name.
    rewrite map_chars_allowed by exact Hc. now apply take_short. }
  split; [apply Hfix|]. split.
  - apply Hfix.
    + unfold sanitize_name. apply all_chars_take, all_chars_replaced.
    + unfold sanitize_name. apply take_length.
  - intros idx tool Hname (Hne & Hlen & Hchars).
    assert (E : (name =? "") = false) by now apply String.eqb_neq.
    unfold functionDeclaration; simpl. rewrite Hname.
    unfold or_str, or_str_default, truthy_str. rewrite E. simpl.
    rewrite ?E. simpl. now apply Hfix.
Qed.

(** Two tools whose names differ only in characters that are replaced get
    the same name. *)
Example sanitize_name_collision :
  sanitize_name "get weather" = "get_weather"
  /\ sanitize_name "get.weather" = "get_weather".
Proof. split; reflexivity. Qed.

(* ================================================================= *)
(** * A refresh that fails *)

Section RefreshFailure.

Variable env : Env.

Lemma sendMessage_from_refresh_throws req endpoints (e : Error) :
  (forall tr h tok p, is_401 (env_generateContent env tr h tok p) = true) ->
  (forall tr, env_refreshToken env tr = Throw e) ->
  forall token payload lastError st,
  exists st',
    sendMessage_from env req endpoints token payload lastError st
    = (Throw (match endpoints with
              | [] => final_error lastError
              | _ :: _ => e
              end), st')
    /\ generate_events (trace st')
       = rev (map (fun h => (h, token, payload)) endpoints)
           ++ generate_events (trace st)
    /\ cachedProject st' = cachedProject st
    /\ refresh_count (trace st')
       = refresh_count (trace st) + List.length endpoints.
Proof.
  intros H401 Hr.
  induction endpoints as [|h rest IH]; intros token payload lastError st.
  - exists st. simpl. repeat split. lia.
  - rewrite (sendMessage_from_unauthorized env req h rest token payload
               lastError st (H401 _ _ _ _)).
    set (st1 := log (CallGenerateContent h token payload) st).
    assert (E : refreshAndGetProject env st1
                = (Throw e, log CallRefreshToken st1)).
    { unfold refreshAndGetProject, bind, refreshToken. now rewrite Hr. }
    rewrite E.
    destruct (IH token payload (Some e) (log CallRefreshToken st1))
      as (st' & E' & Hev & Hc & Hn).
    exists st'. split; [|split; [|split]].
    + rewrite E'. destruct rest; reflexivity.
    + rewrite Hev. subst st1. simpl. now rewrite <- app_assoc.
    + rewrite Hc. reflexivity.
    + rewrite Hn. subst st1. simpl. lia.
Qed.

(** X24: when the credential cannot be refreshed, a 401 does not end the
    dispatch: [sendMessage] still calls every endpoint, each one with the
    token and the payload it started with, attempts a refresh after each of
    them, keeps the project it resolved at the start in the cache, and
    throws the error of the refresh. *)
Theorem failed_refresh_goes_on (req : AnthropicRequest) (st : State)
  (token : string) (e : Error) :
  env_getToken env (trace st) = Ok token ->
  (forall tr h tok p, is_401 (env_generateContent env tr h tok p) = true) ->
  (forall tr, env_refreshToken env tr = Throw e) ->
  exists payload st',
    sendMessage env req st = (Throw e, st')
    /\ generate_events (trace st')
       = rev (map (fun h => (h, token, payload)) ANTIGRAVITY_ENDPOINT_FALLBACKS)
           ++ generate_events (trace st)
    /\ refresh_count (trace st') = refresh_count (trace st) + 3
    /\ cachedProject st' = Some (project payload).
Proof.
  intros Htoken H401 Hr.
  destruct (sendMessage_preamble env req st token Htoken)
    as (payload & st0 & E & Q & Hp).
  destruct (sendMessage_from_refresh_throws req ANTIGRAVITY_ENDPOINT_FALLBACKS
              e H401 Hr token payload None st0) as (st' & E' & Hev & Hc & Hn).
  exists payload, st'. rewrite E. split; [exact E'|]. split; [|split].
  - rewrite Hev, (no_generation_events _ _ (quiet_no_generation _ _ Q)).
    reflexivity.
  - rewrite Hn, (quiet_step_refresh_count _ _ Q). reflexivity.
  - now rewrite Hc.
Qed.

End RefreshFailure.

Lemma failed_refresh_goes_on_witness :
  exists payload st',
    sendMessage refresh_broken sample_request initial_state
    = (Throw (Err "invalid_grant"), st')
    /\ generate_events (trace st')
       = rev (map (fun h => (h, "token-1", payload))
                ANTIGRAVITY_ENDPOINT_FALLBACKS)
           ++ generate_events (trace initial_state)
    /\ refresh_count (trace st') = refresh_count (trace initial_state) + 3
    /\ cachedProject st' = Some (project payload).
Proof.
  apply (failed_refresh_goes_on refresh_broken sample_request initial_state
           "token-1" (Err "invalid_grant")).
  - reflexivity.
  - intros tr h tok p. reflexivity.
  - intros tr. reflexivity.
Defined.

(* ================================================================= *)
(** * The sanitizer run twice *)

Lemma In_replace_field_keys x k v : forall l,
  In x (map fst (replace_field k v l)) -> x = k \/ In x (map fst l).
Proof.
  induction l as [|[k' v'] l IH]; simpl.
  - intros [H | []]; auto.
  - destruct (k' =? k) eqn:E; simpl.
    + intros [H | H]; auto.
    + intros [H | H]; auto. destruct (IH H); auto.
Qed.

Lemma replace_field_fresh k v : forall l,
  ~ In k (map fst l) -> replace_field k v l = l ++ [(k, v)].
Proof.
  induction l as [|[k' v'] l IH]; simpl; intros H; [reflexivity|].
  destruct (k' =? k) eqn:E.
  - apply String.eqb_eq in E. exfalso. apply H. now left.
  - rewrite IH; [reflexivity|]. intros Hin. apply H. now right.
Qed.

Lemma assign_fresh l k v :
  k <> "__proto__" -> ~ In k (map fst l) -> assign l k v = l ++ [(k, v)].
Proof.
  intros Hk Hin. unfold assign.
  destruct (k =? "__proto__") eqn:E; [apply String.eqb_eq in E; contradiction|].
  now apply replace_field_fresh.
Qed.

Lemma replace_field_settled (P : string * JSON -> Prop) k v :
  k <> "__proto__" -> P (k, v) ->
  forall l, settled P l -> settled P (replace_field k v l).
Proof.
  intros Hk HP. induction l as [|[k' v'] l IH]; intros [Hnd Hall].
  - split; simpl; repeat constructor; auto.
  - simpl in Hnd. inversion Hnd as [|? ? Hnotin Hnd']; subst.
    inversion Hall as [|? ? Hhd Htl]; subst.
    destruct (IH (conj Hnd' Htl)) as [IHnd IHall].
    simpl. destruct (k' =? k) eqn:E.
    + apply String.eqb_eq in E. subst k'. split.
      * simpl. now constructor.
      * constructor; [split; assumption | exact Htl].
    + split.
      * simpl. constructor; [|exact IHnd].
        intros Hin. apply In_replace_field_keys in Hin as [-> | Hin].
        -- now rewrite String.eqb_refl in E.
        -- contradiction.
      * constructor; assumption.
Qed.

Lemma assign_settled (P : string * JSON -> Prop) l k v :
  settled P l -> P (k, v) -> settled P (assign l k v).
Proof.
  intros Hl HP. unfold assign.
  destruct (k =? "__proto__") eqn:E; [exact Hl|].
  apply String.eqb_neq in E. now apply replace_field_settled.
Qed.

Lemma settled_nil (P : string * JSON -> Prop) : settled P [].
Proof. split; constructor. Qed.

(** The second run of a loop over fields that a first run has built gives
    the same fields. *)
Lemma rebuild_properties : forall l acc,
  settled (fun kv => fixed (snd kv)) l ->
  (forall k, In k (map fst l) -> ~ In k (map fst acc)) ->
  sanitize_properties sanitizeSchema l acc = (acc ++ l)%list.
Proof.
  induction l as [|[k v] l IH]; intros acc [Hnd Hall] Hdis; simpl.
  - now rewrite app_nil_r.
  - simpl in Hnd. inversion Hnd as [|? ? Hnotin Hnd']; subst.
    inversion Hall as [|? ? [Hk Hv] Htl]; subst. simpl in Hk, Hv.
    unfold fixed in Hv. rewrite Hv.
    rewrite assign_fresh; [|exact Hk | apply Hdis; now left].
    rewrite IH; [now rewrite <- app_assoc | now split |].
    intros k' Hin. rewrite map_app, in_app_iff. simpl.
    intros [H | [<- | []]]; [|contradiction].
    exact (Hdis k' (or_intror Hin) H).
Qed.

Lemma rebuild_entries : forall l acc,
  settled field_fixed l ->
  (forall k, In k (map fst l) -> ~ In k (map fst acc)) ->
  sanitize_entries sanitizeSchema l acc = (acc ++ l)%list.
Proof.
  induction l as [|[k v] l IH]; intros acc [Hnd Hall] Hdis;
    cbn [sanitize_entries].
  - now rewrite app_nil_r.
  - simpl in Hnd. inversion Hnd as [|? ? Hnotin Hnd']; subst.
    inversion Hall as [|? ? [Hk Hv] Htl]; subst. simpl in Hk.
    specialize (Hv acc). cbn [fst snd] in Hv. rewrite Hv.
    rewrite assign_fresh; [|exact Hk | apply Hdis; now left].
    rewrite IH; [now rewrite <- app_assoc | now split |].
    intros k' Hin. rewrite map_app, in_app_iff. simpl.
    intros [H | [<- | []]]; [|contradiction].
    exact (Hdis k' (or_intror Hin) H).
Qed.

(** What a first run builds. *)
Lemma sanitize_properties_settled es : forall acc,
  Forall (fun kv => fixed (sanitizeSchema (snd kv))) es ->
  settled (fun kv => fixed (snd kv)) acc ->
  settled (fun kv => fixed (snd kv))
    (sanitize_properties sanitizeSchema es acc).
Proof.
  induction es as [|[k v] es IH]; intros acc Hes Hacc; simpl; [exact Hacc|].
  inversion Hes as [|? ? Hv Hrest]; subst.
  apply IH; [exact Hrest|]. now apply assign_settled.
Qed.

Lemma sanitize_properties_array_settled xs : forall i acc,
  Forall (fun x => fixed (sanitizeSchema x)) xs ->
  settled (fun kv => fixed (snd kv)) acc ->
  settled (fun kv => fixed (snd kv))
    (sanitize_properties_array sanitizeSchema i xs acc).
Proof.
  induction xs as [|x xs IH]; intros i acc Hxs Hacc; simpl; [exact Hacc|].
  inversion Hxs as [|? ? Hv Hrest]; subst.
  apply IH; [exact Hrest|]. now apply assign_settled.
Qed.

Lemma lookup_unsupported_clean k : forall fs,
  unsupported k = true ->
  forallb (fun kv => negb (unsupported (fst kv))) fs = true ->
  lookup k fs = None.
Proof.
  induction fs as [|[k' v'] fs IH]; intros Hk Hall; [reflexivity|].
  simpl in Hall. apply andb_true_iff in Hall as [Hhd Htl]. simpl.
  destruct (k' =? k) eqn:E.
  - apply String.eqb_eq in E. subst k'. now rewrite Hk in Hhd.
  - now apply IH.
Qed.

Lemma sanitized_no_composition es :
  has_composition (sanitizeSchema (JObj es)) = false.
Proof.
  pose proof (value_hyp_all (JObj es)) as [Hclean _].
  rewrite sanitizeSchema_obj in *. rewrite keywords_clean_obj in Hclean.
  assert (Hkeys : forallb (fun kv => negb (unsupported (fst kv)))
                    (sanitize_entries sanitizeSchema es []) = true).
  { rewrite forallb_forall in *. intros kv Hin.
    specialize (Hclean kv Hin). unfold field_clean in Hclean.
    now apply andb_true_iff in Hclean as [H _]. }
  unfold has_composition, prop.
  rewrite (lookup_unsupported_clean "anyOf" _ eq_refl Hkeys),
    (lookup_unsupported_clean "allOf" _ eq_refl Hkeys),
    (lookup_unsupported_clean "oneOf" _ eq_refl Hkeys).
  reflexivity.
Qed.

Lemma map_fixed xs :
  Forall (fun x => fixed (sanitizeSchema x)) xs ->
  map sanitizeSchema (map sanitizeSchema xs) = map sanitizeSchema xs.
Proof.
  induction 1 as [|x xs Hx _ IH]; simpl; [reflexivity|].
  unfold fixed in Hx. now rewrite Hx, IH.
Qed.

Lemma field_fixed_properties props :
  settled (fun kv => fixed (snd kv)) props ->
  field_fixed ("properties", JObj props).
Proof.
  intros H acc. unfold sanitize_field. cbn [fst snd].
  assert (U : unsupported "properties" = false) by reflexivity.
  rewrite U, String.eqb_refl. cbn [truthy typeof_object andb].
  rewrite (rebuild_properties props [] H); [reflexivity|].
  intros k _ [].
Qed.

Lemma field_fixed_items_array xs :
  Forall (fun x => fixed (sanitizeSchema x)) xs ->
  field_fixed ("items", JArr (map sanitizeSchema xs)).
Proof.
  intros H acc. unfold sanitize_field. cbn [fst snd].
  assert (U : unsupported "items" = false) by reflexivity.
  assert (K : ("items" =? "properties") = false) by reflexivity.
  rewrite U, K, String.eqb_refl. cbn [truthy typeof_object andb].
  now rewrite map_fixed.
Qed.

Lemma field_fixed_items_object es :
  fixed (sanitizeSchema (JObj es)) ->
  field_fixed ("items", sanitizeSchema (JObj es)).
Proof.
  intros H acc. unfold sanitize_field. cbn [fst snd].
  assert (U : unsupported "items" = false) by reflexivity.
  assert (K : ("items" =? "properties") = false) by reflexivity.
  rewrite U, K, String.eqb_refl.
  pose proof (sanitized_no_composition es) as Hc.
  unfold fixed in H. rewrite sanitizeSchema_obj in *.
  cbn [truthy typeof_object andb]. now rewrite Hc, H.
Qed.

Lemma field_fixed_items_empty : field_fixed ("items", JObj []).
Proof. intros acc. reflexivity. Qed.

Lemma sanitize_field_settled acc key value :
  deep_fixed value ->
  settled field_fixed acc ->
  settled field_fixed (sanitize_field sanitizeSchema acc key value).
Proof.
  intros [Hv Hch] Hacc. unfold sanitize_field.
  destruct (unsupported key) eqn:U; [exact Hacc|].
  destruct (key =? "properties") eqn:Kp; destruct (key =? "items") eqn:Ki;
    destruct value as [| b | q | s | xs | es];
    cbn [truthy typeof_object isNull isArray andb negb];
    rewrite ?andb_false_r; cbn [andb negb];
    try (apply assign_settled; [exact Hacc|];
         intros acc'; unfold sanitize_field; cbn [fst snd];
         rewrite U, Kp, Ki;
         cbn [truthy typeof_object isNull isArray andb negb];
         rewrite ?andb_false_r; reflexivity).
  all: try (apply String.eqb_eq in Kp; apply String.eqb_eq in Ki;
            rewrite Kp in Ki; discriminate).
  - apply assign_settled; [exact Hacc|]. apply field_fixed_properties.
    apply sanitize_properties_array_settled; [exact Hch | apply settled_nil].
  - apply assign_settled; [exact Hacc|]. apply field_fixed_properties.
    apply sanitize_properties_settled; [exact Hch | apply settled_nil].
  - apply assign_settled; [exact Hacc|]. now apply field_fixed_items_array.
  - destruct (has_composition (JObj es));
      (apply assign_settled; [exact Hacc|]).
    + apply field_fixed_items_empty.
    + now apply field_fixed_items_object.
  - apply assign_settled; [exact Hacc|].
    intros acc'. unfold sanitize_field. cbn [fst snd].
    rewrite sanitizeSchema_obj in *. rewrite U, Kp, Ki.
    cbn [truthy typeof_object isNull isArray andb negb].
    unfold fixed in Hv. now rewrite Hv.
Qed.

Lemma sanitize_entries_settled es : forall acc,
  Forall (fun kv => deep_fixed (snd kv)) es ->
  settled field_fixed acc ->
  settled field_fixed (sanitize_entries sanitizeSchema es acc).
Proof.
  induction es as [|[k v] es IH]; intros acc Hes Hacc;
    cbn [sanitize_entries]; [exact Hacc|].
  inversion Hes as [|? ? Hv Hrest]; subst.
  apply IH; [exact Hrest|]. now apply sanitize_field_settled.
Qed.

Lemma sanitize_elements_settled xs : forall i acc,
  Forall deep_fixed xs ->
  settled field_fixed acc ->
  settled field_fixed (sanitize_elements sanitizeSchema i xs acc).
Proof.
  induction xs as [|x xs IH]; intros i acc Hxs Hacc;
    cbn [sanitize_elements]; [exact Hacc|].
  inversion Hxs as [|? ? Hv Hrest]; subst.
  apply IH; [exact Hrest|]. now apply sanitize_field_settled.
Qed.

Lemma settled_fixed fields :
  settled field_fixed fields -> fixed (JObj fields).
Proof.
  intros H. unfold fixed. rewrite sanitizeSchema_obj.
  rewrite (rebuild_entries fields [] H); [reflexivity|].
  intros k _ [].
Qed.

Lemma deep_fixed_all (schema : JSON) : deep_fixed schema.
Proof.
  induction schema as [| b | q | s | xs IH | es IH] using JSON_ind;
    try (split; [reflexivity | exact I]).
  - split.
    + rewrite sanitizeSchema_arr. apply settled_fixed.
      apply sanitize_elements_settled; [exact IH | apply settled_nil].
    + eapply Forall_impl; [|exact IH]. now intros x [Hx _].
  - split.
    + rewrite sanitizeSchema_obj. apply settled_fixed.
      apply sanitize_entries_settled; [exact IH | apply settled_nil].
    + eapply Forall_impl; [|exact IH]. now intros kv [Hx _].
Qed.

(** X25: sanitizing a schema twice gives what sanitizing it once gives,
    whatever the schema: the result of [sanitizeSchema] is a schema in
    which the sanitizer finds nothing more to drop, to replace or to
    reorder. *)
Theorem sanitizeSchema_idempotent (schema : JSON) :
  sanitizeSchema (sanitizeSchema schema) = sanitizeSchema schema.
Proof. apply deep_fixed_all. Qed.
